(** * Smart Reconciliation Visualizer: the reconciliation engine

    A shallow embedding of [backend/src/index.js]: the helpers [toNumber],
    [normalizeDate], [stringify], [pickField], [buildKey] and the engine
    [reconcile]; then [parseCsvBuffer], [profile] and the routes of the
    server, and what the front end computes of their answers. The
    properties follow the definitions: those of the engine first.

    Conventions of the embedding.
    - A JavaScript string is a [string]: a sequence of 8-bit code units, the
      Latin-1 range of the UTF-16 strings of the source.
    - A JavaScript number is an IEEE 754 binary64 value, a [spec_float] of
      the Standard Library with [prec = 53] and [emax = 1024]; subtraction,
      division, absolute value and comparison are the library's.
    - A row is the object built by [parseCsvBuffer]: the property [__rowId]
      and one string property per column.
    - The built-ins of the JavaScript engine that convert between strings,
      numbers and dates ([Number], [String], [Date]) are the fields of a
      [Host]; the engine is a function of the host, and every general
      theorem holds for every host. [Node.host] is a host that computes. *)

From Stdlib Require Import ZArith Ascii String Floats.SpecFloat.
From stdpp Require Import gmap strings list sorting.

Local Open Scope string_scope.

(** ** Numbers *)

Module Num.

Definition prec : Z := 53.
Definition emax : Z := 1024.

Abbreviation num := spec_float.

#[export] Instance num_eq_dec : EqDecision num.
Proof. solve_decision. Defined.

Definition NaN : num := S754_nan.
Definition zero : num := S754_zero false.

(** The number denoted by an integer, rounded to nearest-even. *)
Definition ofZ (z : Z) : num := binary_normalize prec emax z 0 false.

Definition sub (x y : num) : num := SFsub prec emax x y.
Definition div (x y : num) : num := SFdiv prec emax x y.
Definition abs (x : num) : num := SFabs x.
(** [x <= y], false when an operand is NaN. *)
Definition leb (x y : num) : bool := SFleb x y.
(** [x == y] on numbers: false on NaN, true on [+0] and [-0]. *)
Definition eqb (x y : num) : bool := SFeqb x y.

(** [Number.isFinite]. *)
Definition isFinite (x : num) : bool :=
  match x with
  | S754_zero _ | S754_finite _ _ _ => true
  | S754_infinity _ | S754_nan => false
  end.

Definition isNaN (x : num) : bool :=
  match x with S754_nan => true | _ => false end.

(** A well-formed binary64 value: canonical mantissa, exponent in range. *)
Definition valid (x : num) : bool := valid_binary prec emax x.

(** The least exponent, [-1074]. *)
Definition emin : Z := SpecFloat.emin prec emax.

(** A mantissa and exponent that rounding does not flush to zero: the
    exponent is not below [emin], or the value is not subnormal. *)
Definition roundable (m e : Z) : Prop :=
  (emin <= e)%Z ∨ (emin + prec <= Zdigits2 m + e)%Z.

(** A mantissa from which no bit has been shifted out. *)
Definition clean (m : Z) : shr_record :=
  {| shr_m := m; shr_r := false; shr_s := false |}.

(** Neither a zero nor NaN. *)
Definition nonzero (x : num) : Prop :=
  match x with
  | S754_finite _ _ _ | S754_infinity _ => True
  | _ => False
  end.

(** A number of magnitude at least one. *)
Definition atLeastOne (x : num) : Prop :=
  match x with
  | S754_finite _ m e => (emin <= e)%Z ∧ (1 <= Zpos (digits2_pos m) + e)%Z
  | S754_infinity _ => True
  | _ => False
  end.

End Num.

Import Num.

(** ** Strings *)

(** WhiteSpace and LineTerminator code units below 256:
    TAB, LF, VT, FF, CR, SP and NBSP. *)
Definition isWhiteSpace (c : ascii) : bool :=
  let n := nat_of_ascii c in
  bool_decide (n ∈ [9; 10; 11; 12; 13; 32; 160]%nat).

Fixpoint trimStart (s : string) : string :=
  match s with
  | String c s' => if isWhiteSpace c then trimStart s' else s
  | EmptyString => EmptyString
  end.

Fixpoint trimEnd (s : string) : string :=
  match s with
  | EmptyString => EmptyString
  | String c s' =>
      let t := trimEnd s' in
      if isWhiteSpace c && bool_decide (t = "") then "" else String c t
  end.

(** [String.prototype.trim]. *)
Definition trim (s : string) : string := trimEnd (trimStart s).

Definition lowerChar (c : ascii) : ascii :=
  let n := nat_of_ascii c in
  if bool_decide (65 ≤ n ≤ 90)%nat || bool_decide (192 ≤ n ≤ 222 ∧ n ≠ 215)%nat
  then ascii_of_nat (n + 32) else c.

(** [String.prototype.toLowerCase]. *)
Fixpoint toLowerCase (s : string) : string :=
  match s with
  | EmptyString => EmptyString
  | String c s' => String (lowerChar c) (toLowerCase s')
  end.

(** [s.replace(/,/g, "")]. *)
Fixpoint removeCommas (s : string) : string :=
  match s with
  | EmptyString => EmptyString
  | String c s' =>
      if bool_decide (c = ","%char) then removeCommas s' else String c (removeCommas s')
  end.

(** [parts.join(sep)]. *)
Fixpoint join (sep : string) (parts : list string) : string :=
  match parts with
  | [] => ""
  | [p] => p
  | p :: ps => p +:+ sep +:+ join sep ps
  end.

(** [s.slice(0, n)]. *)
Definition slice0 (n : nat) (s : string) : string := substring 0 n s.

(** A string in a boolean position: the empty string is false. *)
Definition truthy (s : string) : bool := negb (bool_decide (s = "")).

(** ** Values *)

(** The values that reach the engine: row properties are strings, absent
    ([undefined]) or the numeric [__rowId]; the tolerances of a rules object
    are JSON scalars. Arrays and nested objects in those positions are not
    modelled. *)
Inductive value :=
  | VUndefined
  | VNull
  | VBool (b : bool)
  | VNum (n : num)
  | VStr (s : string).

(** [v ?? d]. *)
Definition nullish (v d : value) : value :=
  match v with
  | VUndefined | VNull => d
  | _ => v
  end.

(** [x !== y]. *)
Definition strictNe (x y : value) : bool :=
  match x, y with
  | VUndefined, VUndefined | VNull, VNull => false
  | VBool a, VBool b => negb (bool_decide (a = b))
  | VNum a, VNum b => negb (Num.eqb a b)
  | VStr a, VStr b => negb (bool_decide (a = b))
  | _, _ => true
  end.

(** ** The host *)

Record Host := {
  (** [Number(s)] for a string [s]. *)
  StringToNumber : string → num;
  (** [String(n)] for a number [n]. *)
  NumberToString : num → string;
  (** The time value of [new Date(s)] in milliseconds since the epoch;
      [None] is the invalid date, whose [getTime()] is NaN. *)
  DateParse : string → option Z;
  (** [toISOString()] of a date with the given time value. *)
  DateToISOString : Z → string
}.

(** ** A host that computes

    [Node.host tz] follows Node.js (V8) on a machine whose local time is
    [tz] minutes ahead of UTC, on the subset of inputs described at each
    function. It serves to evaluate the engine on concrete datasets. *)

Module Node.

Local Open Scope Z_scope.

(** The binary64 value nearest to [n / d] for [0 <= n] and [0 < d], ties to
    even: the quotient is taken with at least 62 bits and a sticky bit. *)
Definition roundRatio (neg : bool) (n d : Z) : num :=
  if n =? 0 then S754_zero neg
  else
    let s := Z.max 0 (Z.log2 d - Z.log2 n + 64) in
    let '(q, r) := Z.div_eucl (Z.shiftl n s) d in
    let m := 2 * q + (if r =? 0 then 0 else 1) in
    binary_normalize prec emax (if neg then - m else m) (- s - 1) false.

(** [m * 10^e], rounded. *)
Definition decimal (neg : bool) (m e : Z) : num :=
  if 0 <=? e then roundRatio neg (m * 10 ^ e) 1 else roundRatio neg m (10 ^ (- e)).

Definition digitOf (base : Z) (c : ascii) : option Z :=
  let n := Z.of_nat (nat_of_ascii c) in
  let d := if (48 <=? n) && (n <=? 57) then n - 48
           else if (97 <=? n) && (n <=? 102) then n - 87
           else if (65 <=? n) && (n <=? 70) then n - 55
           else 99 in
  if d <? base then Some d else None.

(** Reads the longest prefix of digits: its value on top of [acc], the
    number of digits read on top of [cnt], and the rest. *)
Fixpoint readDigits (base : Z) (s : string) (acc cnt : Z) : Z * Z * string :=
  match s with
  | String c s' =>
      match digitOf base c with
      | Some d => readDigits base s' (acc * base + d) (cnt + 1)
      | None => (acc, cnt, s)
      end
  | EmptyString => (acc, cnt, EmptyString)
  end.

Definition readSign (s : string) : bool * string :=
  match s with
  | String "-" s' => (true, s')
  | String "+" s' => (false, s')
  | _ => (false, s)
  end.

(** [0x], [0o] and [0b] literals. *)
Definition radixPrefix (s : string) : option (Z * string) :=
  match s with
  | String "0" (String c s') =>
      if bool_decide (c = "x"%char ∨ c = "X"%char) then Some (16, s')
      else if bool_decide (c = "o"%char ∨ c = "O"%char) then Some (8, s')
      else if bool_decide (c = "b"%char ∨ c = "B"%char) then Some (2, s')
      else None
  | _ => None
  end.

(** An unsigned StrDecimalLiteral other than [Infinity]. *)
Definition parseDecimal (neg : bool) (s : string) : num :=
  let '(ip, ic, r1) := readDigits 10 s 0 0 in
  let '(m, fc, r2) := match r1 with
                      | String "." r => readDigits 10 r ip 0
                      | _ => (ip, 0, r1)
                      end in
  if ic + fc =? 0 then NaN
  else
    match r2 with
    | EmptyString => decimal neg m (- fc)
    | String c r3 =>
        if bool_decide (c = "e"%char ∨ c = "E"%char) then
          let '(eneg, r4) := readSign r3 in
          let '(ev, ec, r5) := readDigits 10 r4 0 0 in
          if (ec =? 0) || negb (bool_decide (r5 = EmptyString)) then NaN
          else decimal neg m ((if eneg then - ev else ev) - fc)
        else NaN
    end.

(** [Number(s)]: the StringNumericLiteral grammar, correctly rounded. *)
Definition numberOfString (s0 : string) : num :=
  let s := trim s0 in
  if bool_decide (s = EmptyString) then zero
  else
    match radixPrefix s with
    | Some (base, rest) =>
        let '(v, cnt, r) := readDigits base rest 0 0 in
        if (0 <? cnt) && bool_decide (r = EmptyString) then roundRatio false v 1 else NaN
    | None =>
        let '(neg, body) := readSign s in
        if bool_decide (body = "Infinity"%string) then S754_infinity neg
        else parseDecimal neg body
    end.

(** The decimal digits of a natural number, most significant first. *)
Fixpoint digitsFuel (fuel : nat) (n : Z) (acc : string) : string :=
  match fuel with
  | O => acc
  | S fuel' =>
      let acc' := String (ascii_of_nat (Z.to_nat (48 + n mod 10))) acc in
      if n <? 10 then acc' else digitsFuel fuel' (n / 10) acc'
  end.

Definition decString (n : Z) : string :=
  digitsFuel (S (Z.to_nat (Z.log2 n))) n EmptyString.

Fixpoint zeros (n : nat) : string :=
  match n with
  | O => EmptyString
  | S n' => String "0" (zeros n')
  end.

(** Left-pads the decimal digits of [n] with zeros to the width [w]. *)
Definition pad (w : nat) (n : Z) : string :=
  let s := decString n in
  zeros (w - String.length s) +:+ s.

Section ToString.

(** The positive number [n / d]. *)
Context (x : num) (n d : Z).

(** [10^j <= n / d]. *)
Definition geP10 (j : Z) : bool :=
  if 0 <=? j then d * 10 ^ j <=? n else d <=? n * 10 ^ (- j).

(** The [j] with [10^j <= n / d < 10^(j+1)], searched from [j]. *)
Fixpoint findExp (fuel : nat) (j : Z) : Z :=
  match fuel with
  | O => j
  | S fuel' =>
      if negb (geP10 j) then findExp fuel' (j - 1)
      else if geP10 (j + 1) then findExp fuel' (j + 1)
      else j
  end.

(** The shortest digit string [s] and exponent [e] with [s * 10^e] rounding
    to [x], looked for with [k], [k+1], ... digits; nearest to [n / d]. *)
Fixpoint shortest (fuel : nat) (k e10 : Z) : Z * Z :=
  let e := e10 - k in
  let n' := if 0 <=? e then n else n * 10 ^ (- e) in
  let d' := if 0 <=? e then d * 10 ^ e else d in
  let lo := n' / d' in
  let r := n' mod d' in
  let hi := lo + 1 in
  let okLo := bool_decide (decimal false lo e = x) in
  let okHi := bool_decide (decimal false hi e = x) in
  let pickLo := (2 * r <? d') || ((2 * r =? d') && Z.even lo) in
  match fuel with
  | O => (lo, e)
  | S fuel' =>
      if okLo && (negb okHi || pickLo) then (lo, e)
      else if okHi then (hi, e)
      else shortest fuel' (k + 1) e10
  end.

End ToString.

(** [String(x)]: Number::toString in radix 10. *)
Definition stringOfNumber (x : num) : string :=
  match x with
  | S754_nan => "NaN"
  | S754_zero _ => "0"
  | S754_infinity neg => if neg then "-Infinity" else "Infinity"
  | S754_finite neg m e =>
      let n := if 0 <=? e then Z.pos m * 2 ^ e else Z.pos m in
      let d := if 0 <=? e then 1 else 2 ^ (- e) in
      let j := findExp n d 700 (((Z.log2 n - Z.log2 d) * 30103) / 100000) in
      let '(s0, e0) := shortest (S754_finite false m e) n d 17 1 (j + 1) in
      let ds0 := decString s0 in
      (* a carry into [10^k] leaves one digit *)
      let '(ds, e1) := if bool_decide (s0 = 10 ^ Z.of_nat (String.length ds0 - 1))
                       then ("1", e0 + Z.of_nat (String.length ds0 - 1))
                       else (ds0, e0) in
      let k := Z.of_nat (String.length ds) in
      let p := k + e1 in
      let body :=
        if (k <=? p) && (p <=? 21) then (ds +:+ zeros (Z.to_nat (p - k)))
        else if (0 <? p) && (p <=? 21) then
          (substring 0 (Z.to_nat p) ds +:+ "." +:+
             substring (Z.to_nat p) (Z.to_nat (k - p)) ds)
        else if (-6 <? p) && (p <=? 0) then
          ("0." +:+ zeros (Z.to_nat (- p)) +:+ ds)
        else
          let ex := ((if 0 <=? p - 1 then "e+" else "e-") +:+ decString (Z.abs (p - 1))) in
          if k =? 1 then (ds +:+ ex)
          else (substring 0 1 ds +:+ "." +:+
                  substring 1 (Z.to_nat (k - 1)) ds +:+ ex) in
      if neg then ("-" +:+ body) else body
  end.

(** *** Dates *)

Definition msPerDay : Z := 86400000.

Definition isLeap (y : Z) : bool :=
  (y mod 4 =? 0) && (negb (y mod 100 =? 0) || (y mod 400 =? 0)).

Definition daysInMonth (y m : Z) : Z :=
  if m =? 2 then (if isLeap y then 29 else 28)
  else if bool_decide (m ∈ [4; 6; 9; 11]) then 30
  else 31.

(** Days from 1970-01-01 to the civil date [y]-[m]-[d]. *)
Definition daysFromCivil (y m d : Z) : Z :=
  let y' := if m <=? 2 then y - 1 else y in
  let era := y' / 400 in
  let yoe := y' - era * 400 in
  let doy := (153 * (if 2 <? m then m - 3 else m + 9) + 2) / 5 + d - 1 in
  let doe := yoe * 365 + yoe / 4 - yoe / 100 + doy in
  era * 146097 + doe - 719468.

(** The civil date of a day number. *)
Definition civilFromDays (z : Z) : Z * Z * Z :=
  let z' := z + 719468 in
  let era := z' / 146097 in
  let doe := z' - era * 146097 in
  let yoe := (doe - doe / 1460 + doe / 36524 - doe / 146096) / 365 in
  let doy := doe - (365 * yoe + yoe / 4 - yoe / 100) in
  let mp := (5 * doy + 2) / 153 in
  let d := doy - (153 * mp + 2) / 5 + 1 in
  let m := if mp <? 10 then mp + 3 else mp - 9 in
  (yoe + era * 400 + (if m <=? 2 then 1 else 0), m, d).

(** Reads between [lo] and [hi] decimal digits. *)
Definition readNum (lo hi : Z) (s : string) : option (Z * string) :=
  let '(v, cnt, r) := readDigits 10 s 0 0 in
  if (lo <=? cnt) && (cnt <=? hi) then Some (v, r) else None.

Definition expect (c : ascii) (s : string) : option string :=
  match s with
  | String c' s' => if bool_decide (c = c') then Some s' else None
  | EmptyString => None
  end.

Definition validDate (y m d : Z) : bool :=
  (1 <=? m) && (m <=? 12) && (1 <=? d) && (d <=? daysInMonth y m).

(** The ISO forms [YYYY-MM-DD] and [YYYY-MM-DDTHH:mm:ssZ], both UTC. *)
Definition parseISO (s : string) : option Z :=
  '(y, s) ← readNum 4 4 s; s ← expect "-" s;
  '(m, s) ← readNum 2 2 s; s ← expect "-" s;
  '(d, s) ← readNum 2 2 s;
  if negb (validDate y m d) then None
  else
    let day := daysFromCivil y m d * msPerDay in
    if bool_decide (s = EmptyString) then Some day
    else
      s ← expect "T" s;
      '(hh, s) ← readNum 2 2 s; s ← expect ":" s;
      '(mm, s) ← readNum 2 2 s; s ← expect ":" s;
      '(ss, s) ← readNum 2 2 s;
      if bool_decide (s = "Z") && (hh <=? 23) && (mm <=? 59) && (ss <=? 59)
      then Some (day + hh * 3600000 + mm * 60000 + ss * 1000)
      else None.

(** The form [M/D/YYYY] of V8's fallback parser: midnight, local time. *)
Definition parseUS (tz : Z) (s : string) : option Z :=
  '(m, s) ← readNum 1 2 s; s ← expect "/" s;
  '(d, s) ← readNum 1 2 s; s ← expect "/" s;
  '(y, s) ← readNum 4 4 s;
  if bool_decide (s = EmptyString) && validDate y m d
  then Some (daysFromCivil y m d * msPerDay - tz * 60000)
  else None.

(** The time value of [new Date(s)]. Other strings are reported invalid
    here, although V8 reads more forms. *)
Definition dateParse (tz : Z) (s : string) : option Z :=
  match parseISO s with
  | Some t => Some t
  | None => parseUS tz s
  end.

(** [toISOString()]. *)
Definition dateToISOString (t : Z) : string :=
  let '(y, m, d) := civilFromDays (t / msPerDay) in
  let ms := t mod msPerDay in
  let year := if (0 <=? y) && (y <=? 9999) then pad 4 y
              else (if y <? 0 then "-" else "+") +:+ pad 6 (Z.abs y) in
  year +:+ "-" +:+ pad 2 m +:+ "-" +:+ pad 2 d +:+ "T" +:+
    pad 2 (ms / 3600000) +:+ ":" +:+ pad 2 (ms / 60000 mod 60) +:+ ":" +:+
    pad 2 (ms / 1000 mod 60) +:+ "." +:+ pad 3 (ms mod 1000) +:+ "Z".

Definition host (tz : Z) : Host :=
  {| StringToNumber := numberOfString;
     NumberToString := stringOfNumber;
     DateParse := dateParse tz;
     DateToISOString := dateToISOString |}.

End Node.

(** ** Rows *)

Record Row := {
  rowId : nat;
  cols : gmap string string
}.

#[export] Instance Row_eq_dec : EqDecision Row.
Proof. solve_decision. Defined.

(** [record[f]]. The properties that an object inherits from
    [Object.prototype] (a column name such as [constructor] that the file
    does not have) are not modelled: they read as [undefined]. *)
Definition prop (r : Row) (f : string) : value :=
  if bool_decide (f = "__rowId") then VNum (ofZ (Z.of_nat (rowId r)))
  else
    match cols r !! f with
    | Some s => VStr s
    | None => VUndefined
    end.

(** The rows of [parseCsvBuffer]: [data.map((r, idx) => ({ __rowId: idx + 1,
    ...r }))], for a file that has no column named [__rowId]. *)
Definition rowsOf (data : list (gmap string string)) : list Row :=
  imap (λ idx r, {| rowId := idx + 1; cols := r |}) data.

(** [record[f]] where [f] may be [null]: the property named ["null"]. *)
Definition propOpt (r : Row) (f : option string) : value :=
  prop r (default "null" f).

(** ** Field mapping *)

Record FieldPair := {
  fa : option string;
  fb : option string
}.

(** [x || y] on optional column names: absent and empty names are false. *)
Definition orName (x y : option string) : option string :=
  match x with
  | Some s => if truthy s then Some s else y
  | None => y
  end.

(** A mapping request: logical field name to the pair of column names.
    An entry that is not an object reads as absent. *)
Definition pickField (mapping : option (gmap string FieldPair)) (key : string)
    (fallback : FieldPair) : FieldPair :=
  match from_option (λ m : gmap string FieldPair, m !! key) None mapping with
  | Some m =>
      {| fa := orName (fa m) (orName (fa fallback) None);
         fb := orName (fb m) (orName (fb fallback) None) |}
  | None =>
      {| fa := orName (fa fallback) None; fb := orName (fb fallback) None |}
  end.

(** ** Rules *)

Record Rules := {
  amountTolerance : value;
  dateToleranceDays : value;
  compositeKeysA : option (list string);
  compositeKeysB : option (list string);
  fieldTypes : option (gmap string string)
}.

(** [rules?.fieldTypes?.[f]]. *)
Definition fieldType (rules : option Rules) (f : string) : option string :=
  match rules with
  | Some r =>
      match fieldTypes r with
      | Some types => types !! f
      | None => None
      end
  | None => None
  end.

(** A normalized column value: a number or [null], a date or [null], or a
    string. *)
Inductive Norm :=
  | NormNumber (n : option num)
  | NormDate (d : option string)
  | NormString (s : string).

(** ** Results *)

Inductive Mode := Auto | Custom.

Record Result := {
  status : string;
  (** The join key; [None] is [null]. *)
  key : option string;
  reason : string;
  a : option Row;
  b : option Row
}.

(** [statusCounts]. *)
Record Counts := {
  MATCHED : nat;
  MISMATCH : nat;
  MISSING_IN_B : nat;
  MISSING_IN_A : nat
}.

(** [{ ...statusCounts, total }]. *)
Record Summary := {
  counts : Counts;
  total : nat
}.

Record Output := {
  summary : Summary;
  results : list Result
}.

(** The verdict of a comparator. *)
Record Cmp := {
  ok : bool;
  cmpReason : option string
}.

(** The variables of [reconcile] that its loops update. *)
Record State := {
  st_results : list Result;
  st_bUsed : gset nat;
  st_counts : Counts
}.

Section Engine.

Context (h : Host).

(** [String(v)]. *)
Definition String_ (v : value) : string :=
  match v with
  | VUndefined => "undefined"
  | VNull => "null"
  | VBool true => "true"
  | VBool false => "false"
  | VNum n => NumberToString h n
  | VStr s => s
  end.

(** [Number(v)]. *)
Definition Number_ (v : value) : num :=
  match v with
  | VUndefined => NaN
  | VNull => zero
  | VBool true => ofZ 1
  | VBool false => zero
  | VNum n => n
  | VStr s => StringToNumber h s
  end.

(** [new Date(s).getTime()]. *)
Definition getTime (s : string) : num :=
  match DateParse h s with
  | Some t => ofZ t
  | None => NaN
  end.

(** ** Helpers *)

Definition toNumber (v : value) : option num :=
  match v with
  | VUndefined | VNull => None
  | _ =>
      let s := trim (String_ v) in
      if bool_decide (s = "") then None
      else
        let cleaned := removeCommas s in
        let n := StringToNumber h cleaned in
        if isFinite n then Some n else None
  end.

Definition normalizeDate (v : value) : option string :=
  match v with
  | VUndefined | VNull => None
  | _ =>
      let s := trim (String_ v) in
      if negb (truthy s) then None
      else
        match DateParse h s with
        | Some t => Some (slice0 10 (DateToISOString h t))
        | None => None
        end
  end.

Definition stringify (v : value) : string :=
  match v with
  | VUndefined | VNull => ""
  | _ => trim (String_ v)
  end.

(** The part of a key contributed by the column [f]. *)
Definition keyPart (rules : option Rules) (record : Row) (f : string) : string :=
  let v := prop record f in
  if bool_decide (fieldType rules f = Some "number") then
    match toNumber v with Some n => String_ (VNum n) | None => "" end
  else if bool_decide (fieldType rules f = Some "date") then
    match normalizeDate v with Some d => d | None => "" end
  else toLowerCase (stringify v).

Definition buildKey (record : Row) (fields : list string) (rules : option Rules) : string :=
  join "||" (keyPart rules record <$> fields).

(** The value of a column after the normalization of its declared type,
    before it is turned into a part of the key. *)
Definition normalized (rules : option Rules) (record : Row) (f : string) : Norm :=
  let v := prop record f in
  if bool_decide (fieldType rules f = Some "number") then NormNumber (toNumber v)
  else if bool_decide (fieldType rules f = Some "date") then NormDate (normalizeDate v)
  else NormString (toLowerCase (stringify v)).


(** ** The engine *)

(** The keys of [statusCounts]. *)
Inductive Counter := K_MATCHED | K_MISMATCH | K_MISSING_IN_B | K_MISSING_IN_A.

Definition incr (k : Counter) (c : Counts) : Counts :=
  match k with
  | K_MATCHED => {| MATCHED := S (MATCHED c); MISMATCH := MISMATCH c;
                    MISSING_IN_B := MISSING_IN_B c; MISSING_IN_A := MISSING_IN_A c |}
  | K_MISMATCH => {| MATCHED := MATCHED c; MISMATCH := S (MISMATCH c);
                     MISSING_IN_B := MISSING_IN_B c; MISSING_IN_A := MISSING_IN_A c |}
  | K_MISSING_IN_B => {| MATCHED := MATCHED c; MISMATCH := MISMATCH c;
                         MISSING_IN_B := S (MISSING_IN_B c); MISSING_IN_A := MISSING_IN_A c |}
  | K_MISSING_IN_A => {| MATCHED := MATCHED c; MISMATCH := MISMATCH c;
                         MISSING_IN_B := MISSING_IN_B c; MISSING_IN_A := S (MISSING_IN_A c) |}
  end.

(** [statusCounts[k]++; results.push(r)]. *)
Definition push (k : Counter) (r : Result) (st : State) : State :=
  {| st_results := (st_results st ++ [r])%list;
     st_bUsed := st_bUsed st;
     st_counts := incr k (st_counts st) |}.

(** [bUsed.add(b.__rowId)]. *)
Definition markUsed (b : Row) (st : State) : State :=
  {| st_results := st_results st;
     st_bUsed := {[ rowId b ]} ∪ st_bUsed st;
     st_counts := st_counts st |}.

(** The value of a counter. *)
Definition counterOf (k : Counter) (c : Counts) : nat :=
  match k with
  | K_MATCHED => MATCHED c
  | K_MISMATCH => MISMATCH c
  | K_MISSING_IN_B => MISSING_IN_B c
  | K_MISSING_IN_A => MISSING_IN_A c
  end.

(** The status string of the records that are pushed when a counter is
    incremented. *)
Definition statusOf (k : Counter) : string :=
  match k with
  | K_MATCHED => "MATCHED"
  | K_MISMATCH => "mismatch"
  | K_MISSING_IN_B => "MISSING_IN_B"
  | K_MISSING_IN_A => "MISSING_IN_A"
  end.

(** [MATCHED + MISMATCH + MISSING_IN_A + MISSING_IN_B]. *)
Definition sumCounts (c : Counts) : nat :=
  MATCHED c + MISMATCH c + MISSING_IN_A c + MISSING_IN_B c.

Section Reconcile.

Context (aRows bRows : list Row) (mapping : option (gmap string FieldPair))
  (mode : Mode) (rules : option Rules).

Definition amountTol : num :=
  Number_ (nullish (from_option amountTolerance VUndefined rules) (VNum zero)).
Definition dateTolDays : num :=
  Number_ (nullish (from_option dateToleranceDays VUndefined rules) (VNum zero)).

Definition idField : FieldPair :=
  pickField mapping "id" {| fa := Some "transaction_id"; fb := Some "transaction_id" |}.
Definition amountField : FieldPair :=
  pickField mapping "amount" {| fa := Some "amount"; fb := Some "amount" |}.
Definition dateField : FieldPair :=
  pickField mapping "date" {| fa := Some "date"; fb := Some "date" |}.

(** The comparators return [{ ok, reason }]; their other fields ([diff],
    [an], [bn], [diffDays], [ad], [bd]) are never read. *)
Definition compareAmounts (a b : value) : Cmp :=
  match toNumber a, toNumber b with
  | Some an, Some bn =>
      let diff := Num.abs (Num.sub an bn) in
      {| ok := Num.leb diff amountTol; cmpReason := None |}
  | _, _ => {| ok := false; cmpReason := Some "AMOUNT_MISSING" |}
  end.

Definition compareDates (a b : value) : Cmp :=
  match normalizeDate a, normalizeDate b with
  | Some ad, Some bd =>
      if truthy ad && truthy bd then
        let adt := getTime (ad +:+ "T00:00:00Z") in
        let bdt := getTime (bd +:+ "T00:00:00Z") in
        let day := ofZ (24 * 60 * 60 * 1000) in
        let dd := Num.div (Num.abs (Num.sub adt bdt)) day in
        {| ok := Num.leb dd dateTolDays; cmpReason := None |}
      else {| ok := false; cmpReason := Some "DATE_MISSING" |}
  | _, _ => {| ok := false; cmpReason := Some "DATE_MISSING" |}
  end.

(** [bIndex.has(k) || bIndex.set(k, r)]. *)
Definition setIfAbsent (bIndex : gmap string Row) (k : string) (r : Row) : gmap string Row :=
  match bIndex !! k with
  | Some _ => bIndex
  | None => <[k := r]> bIndex
  end.

(** The lookup for B: the first loop, in either mode. *)
Definition bIndex : gmap string Row :=
  match mode with
  | Auto =>
      let bId := fb idField in
      foldl (λ bIndex r,
               let id := match orName bId None with
                         | Some f => stringify (prop r f)
                         | None => ""
                         end in
               if negb (truthy id) then bIndex else setIfAbsent bIndex id r)
            ∅ bRows
  | Custom =>
      let keysB := default [] (from_option compositeKeysB None rules) in
      foldl (λ bIndex r, setIfAbsent bIndex (buildKey r keysB rules) r) ∅ bRows
  end.

Definition aKeyField : option string :=
  match mode with Auto => fa idField | Custom => None end.
Definition keysA : list string :=
  default [] (from_option compositeKeysA None rules).

(** [cmp.reason || fallback]. *)
Definition reasonOr (c : Cmp) (fallback : string) : string :=
  match cmpReason c with
  | Some s => if truthy s then s else fallback
  | None => fallback
  end.

(** The join key of an A row. *)
Definition keyA (a : Row) : string :=
  match mode with
  | Auto => stringify (nullish (propOpt a aKeyField) (VStr ""))
  | Custom => buildKey a keysA rules
  end.

(** The text pushed as the reason of a mismatch record. *)
Definition mismatchReason (a b : Row) : string :=
  let reasons :=
    ((if strictNe (prop a "amount") (prop b "amount") then
        ["Amount differs (" +:+ String_ (prop a "amount") +:+ " vs "
           +:+ String_ (prop b "amount") +:+ ")"]
      else []) ++
     (if strictNe (prop a "date") (prop b "date") then
        ["Date differs (" +:+ String_ (prop a "date") +:+ " vs "
           +:+ String_ (prop b "date") +:+ ")"]
      else []))%list in
  join " | " reasons.

(** The body of the loop over A. *)
Definition probe (st : State) (a : Row) : State :=
  let key := keyA a in
  let b := if truthy key then bIndex !! key else None in
  match b with
  | None =>
      (* [!key || !b] *)
      push K_MISSING_IN_B
        {| status := "MISSING_IN_B"; key := Some key; reason := "MISSING_IN_B";
           a := Some a; b := None |} st
  | Some b =>
      let st := markUsed b st in
      let amountCmp := compareAmounts (propOpt a (fa amountField)) (propOpt b (fb amountField)) in
      let dateCmp := compareDates (propOpt a (fa dateField)) (propOpt b (fb dateField)) in
      let mismatches :=
        ((if negb (ok amountCmp) then [reasonOr amountCmp "AMOUNT_MISMATCH"] else []) ++
         (if negb (ok dateCmp) then [reasonOr dateCmp "DATE_MISMATCH"] else []))%list in
      if bool_decide (length mismatches = 0) then
        push K_MATCHED
          {| status := "MATCHED"; key := Some key; reason := "MATCHED";
             a := Some a; b := Some b |} st
      else
        push K_MISMATCH
          {| status := "mismatch"; key := Some key; reason := mismatchReason a b;
             a := Some a; b := Some b |} st
  end.

(** The body of the loop over B. *)
Definition sweep (st : State) (b : Row) : State :=
  if bool_decide (rowId b ∉ st_bUsed st) then
    push K_MISSING_IN_A
      {| status := "MISSING_IN_A";
         key := match mode with
                | Auto => Some (stringify (nullish (propOpt b (fb idField)) (VStr "")))
                | Custom => None
                end;
         reason := "MISSING_IN_A"; a := None; b := Some b |} st
  else st.

Definition init : State :=
  {| st_results := [];
     st_bUsed := ∅;
     st_counts := {| MATCHED := 0; MISMATCH := 0; MISSING_IN_B := 0; MISSING_IN_A := 0 |} |}.

Definition reconcile : Output :=
  let st := foldl sweep (foldl probe init aRows) bRows in
  {| summary := {| counts := st_counts st; total := length (st_results st) |};
     results := st_results st |}.

(** ** The engine, row by row

    What the two loops do to one row, as functions of the row. They are
    related to [probe] and [sweep] by the lemmas [probe_push] and
    [sweep_push]. *)

(** The key under which the first loop enters a B row in the lookup, if it
    does: in auto mode a row with an empty ID is skipped. *)
Definition keyB (r : Row) : option string :=
  match mode with
  | Auto =>
      let id := match orName (fb idField) None with
                | Some f => stringify (prop r f)
                | None => ""
                end in
      if truthy id then Some id else None
  | Custom =>
      Some (buildKey r (default [] (from_option compositeKeysB None rules)) rules)
  end.

(** One step of the first loop, in either mode. *)
Definition enter (idx : gmap string Row) (r : Row) : gmap string Row :=
  match keyB r with
  | Some k => setIfAbsent idx k r
  | None => idx
  end.

(** The B row that an A row is joined to. *)
Definition lookupB (a : Row) : option Row :=
  if truthy (keyA a) then bIndex !! keyA a else None.

Definition amountOk (a b : Row) : bool :=
  ok (compareAmounts (propOpt a (fa amountField)) (propOpt b (fb amountField))).
Definition dateOk (a b : Row) : bool :=
  ok (compareDates (propOpt a (fa dateField)) (propOpt b (fb dateField))).

(** The counter that the loop over A increments for a row. *)
Definition classA (a : Row) : Counter :=
  match lookupB a with
  | None => K_MISSING_IN_B
  | Some b => if amountOk a b && dateOk a b then K_MATCHED else K_MISMATCH
  end.

(** The record that the loop over A pushes for a row. *)
Definition recordA (a : Row) : Result :=
  match lookupB a with
  | None =>
      {| status := "MISSING_IN_B"; key := Some (keyA a); reason := "MISSING_IN_B";
         a := Some a; b := None |}
  | Some b =>
      if amountOk a b && dateOk a b then
        {| status := "MATCHED"; key := Some (keyA a); reason := "MATCHED";
           a := Some a; b := Some b |}
      else
        {| status := "mismatch"; key := Some (keyA a); reason := mismatchReason a b;
           a := Some a; b := Some b |}
  end.

(** The record that the loop over B pushes for a row it finds unused. *)
Definition recordB (b : Row) : Result :=
  {| status := "MISSING_IN_A";
     key := match mode with
            | Auto => Some (stringify (nullish (propOpt b (fb idField)) (VStr "")))
            | Custom => None
            end;
     reason := "MISSING_IN_A"; a := None; b := Some b |}.

(** The contents of [bUsed] after the loop over A. *)
Definition usedIds : gset nat :=
  list_to_set (rowId <$> omap lookupB aRows).

(** The B rows that the loop over B finds unused. *)
Definition unmatched : list Row :=
  filter (λ b, rowId b ∉ usedIds) bRows.

End Reconcile.

End Engine.


(** ** Notions used in the statements *)

(** Every row of A is the [a] reference, and every row of B the [b]
    reference, of exactly one record. *)
Definition exactlyOnce (aRows bRows : list Row) (rs : list Result) : Prop :=
  (∀ x, x ∈ aRows → length (filter (λ r, a r = Some x) rs) = 1) ∧
  (∀ y, y ∈ bRows → length (filter (λ r, b r = Some y) rs) = 1).

(** Each counter is the number of records with its status string; the
    counter MISMATCH is the number of records with the status
    ["mismatch"]. *)
Definition tallied (st : State) : Prop :=
  ∀ k, counterOf k (st_counts st)
       = length (filter (λ r, status r = statusOf k) (st_results st)).

(** A tolerance that is absent from the rules: [undefined] or [null]. *)
Definition missing (v : value) : Prop := v = VUndefined ∨ v = VNull.

(** The amount comparison requires an exact match: it is ok exactly when
    the two parsed numbers are equal. *)
Definition exactAmounts (h : Host) (rules : option Rules) : Prop :=
  ∀ x y an bn,
    toNumber h x = Some an → toNumber h y = Some bn →
    Num.valid an = true → Num.valid bn = true →
    (ok (compareAmounts h rules x y) = true ↔ Num.eqb an bn = true).

(** The date comparison requires an exact match: it is ok exactly when the
    two normalized dates have the same time value. Time values are within
    8.64e15 milliseconds of the epoch. *)
Definition exactDates (h : Host) (rules : option Rules) : Prop :=
  ∀ x y ad bd ta tb,
    normalizeDate h x = Some ad → normalizeDate h y = Some bd →
    ad ≠ "" → bd ≠ "" →
    DateParse h (ad +:+ "T00:00:00Z") = Some ta →
    DateParse h (bd +:+ "T00:00:00Z") = Some tb →
    (Z.abs ta <= 8640000000000000)%Z → (Z.abs tb <= 8640000000000000)%Z →
    (ok (compareDates h rules x y) = true ↔ ta = tb).

(** [hay.includes(needle)]. *)
Fixpoint includes (needle hay : string) : bool :=
  String.prefix needle hay ||
  match hay with
  | EmptyString => false
  | String _ hay' => includes needle hay'
  end.

(** ** Datasets *)

Module Examples.

(** A row as [parseCsvBuffer] builds it; it numbers the rows of a file
    from 1. *)
Definition row (id : nat) (l : list (string * string)) : Row :=
  {| rowId := id; cols := list_to_map l |}.

Definition txn (id amount date : string) : list (string * string) :=
  [("transaction_id", id); ("amount", amount); ("date", date)].

(** A server on UTC, and one on India Standard Time (UTC+05:30). *)
Definition utc : Host := Node.host 0.
Definition ist : Host := Node.host 330.

(** Two rows of A with the ID of one row of B. *)
Definition twiceA : list Row :=
  [row 1 (txn "T1" "120" "2024-01-05"); row 2 (txn "T1" "120" "2024-01-05")].
Definition onlyB : Row := row 1 (txn "T1" "120" "2024-01-05").
Definition onceB : list Row := [onlyB].

(** Rows of A and of B with a repeated ID and with an empty ID. *)
Definition blankIdA : Row := row 2 (txn " " "7" "2024-01-07").
Definition someA : list Row :=
  [row 1 (txn "T1" "120" "2024-01-05"); blankIdA; row 3 (txn "T3" "30" "2024-01-09")].
Definition firstB : Row := row 1 (txn "T1" "120" "2024-01-05").
Definition secondB : Row := row 2 (txn "T1" "125" "2024-01-06").
Definition blankIdB : Row := row 3 (txn "" "7" "2024-01-07").
Definition dupB : list Row :=
  [firstB; secondB; blankIdB; row 4 (txn "T2" "50" "2024-01-08")].

(** One pair whose amounts differ. *)
Definition amountA : Row := row 1 (txn "T1" "120" "2024-01-05").
Definition amountB : Row := row 1 (txn "T1" "125" "2024-01-05").

(** One pair with no amount on either side. *)
Definition blankA : Row := row 1 (txn "T1" "" "2024-01-05").
Definition blankB : Row := row 1 (txn "T1" "" "2024-01-05").

(** One pair whose amounts are the same number written in two ways, and
    whose dates differ. *)
Definition spelledA : Row := row 1 (txn "T1" "100" "2024-01-05").
Definition spelledB : Row := row 1 (txn "T1" "100.00" "2024-01-06").

(** One pair whose amount column is named [amt], and the mapping that says
    so. *)
Definition amtA : Row :=
  row 1 [("transaction_id", "T1"); ("amt", "120"); ("date", "2024-01-05")].
Definition amtB : Row :=
  row 1 [("transaction_id", "T1"); ("amt", "125"); ("date", "2024-01-05")].
Definition amtMapping : option (gmap string FieldPair) :=
  Some {[ "amount" := {| fa := Some "amt"; fb := Some "amt" |} ]}.

(** Rules that declare the types of the columns [amount] and [date]. *)
Definition typedRules : option Rules :=
  Some {| amountTolerance := VNum zero;
          dateToleranceDays := VNum zero;
          compositeKeysA := Some ["amount"; "date"];
          compositeKeysB := Some ["amount"; "date"];
          fieldTypes := Some {[ "amount" := "number"; "date" := "date" ]} |}.

(** The same amount and the same day, each written in two ways. *)
Definition isoRow : Row := row 1 (txn "T1" "1000" "2024-01-05").
Definition usRow : Row := row 1 (txn "T1" "1,000.00" "01/05/2024").

(** Two rows of B with one composite key, and a row of A with that key. *)
Definition laterB : Row := row 2 (txn "T2" "1,000.00" "01/05/2024").
Definition compositeB : list Row := [isoRow; laterB].
Definition compositeA : list Row := [row 1 (txn "T9" "1000.0" "2024-01-05")].

(** Rules with an amount tolerance of five. *)
Definition fiveRules : option Rules :=
  Some {| amountTolerance := VNum (ofZ 5);
          dateToleranceDays := VNum zero;
          compositeKeysA := Some ["amount"; "date"];
          compositeKeysB := Some ["amount"; "date"];
          fieldTypes := Some {[ "amount" := "number"; "date" := "date" ]} |}.

(** Rules whose tolerances are not numbers. *)
Definition wordRules : option Rules :=
  Some {| amountTolerance := VStr "abc";
          dateToleranceDays := VStr "abc";
          compositeKeysA := Some ["transaction_id"];
          compositeKeysB := Some ["transaction_id"];
          fieldTypes := None |}.

(** Rules without tolerances. *)
Definition bareRules : option Rules :=
  Some {| amountTolerance := VUndefined;
          dateToleranceDays := VNull;
          compositeKeysA := Some ["transaction_id"];
          compositeKeysB := Some ["transaction_id"];
          fieldTypes := None |}.

(** What is shown of a record. *)
Definition shown (r : Result) : string * string * option nat * option nat :=
  (status r, reason r, rowId <$> a r, rowId <$> b r).

(** Whether the reason of a record mentions the amount. *)
Definition mentionsAmount (r : Result) : bool :=
  includes "Amount differs" (reason r).

End Examples.

(** * The rest of the backend

    The parts of [backend/src/index.js] around the engine: [normalizeHeader],
    [parseCsvBuffer] and [profile], which build a session from two files,
    and the three routes that create a session, reconcile it and export its
    last result. *)

(** [x + y] on numbers. *)
Definition add (x y : num) : num := SFadd prec emax x y.

(** [s1 <= s2] in the order of [Array.prototype.sort] on strings: by code
    units, a proper prefix first. *)
Definition sortsBefore (s1 s2 : string) : Prop := String.leb s1 s2 = true.

#[export] Instance sortsBefore_dec (s1 s2 : string) : Decision (sortsBefore s1 s2).
Proof. unfold sortsBefore. apply _. Defined.

(** [l.sort()] on strings. The order is total on strings, so the result
    does not depend on the algorithm of the engine. *)
Definition sort (l : list string) : list string := merge_sort sortsBefore l.

(** [l.indexOf(x)]; [None] is [-1]. *)
Definition indexOf (l : list string) (x : string) : option nat :=
  fst <$> list_find (λ y, y = x) l.

(** ** Papa Parse *)

(** What [parseCsvBuffer] reads of the result of [Papa.parse(text, { header:
    true, skipEmptyLines: true, dynamicTyping: false })]: the messages of
    [errors], [meta.fields] and [data], one object per line with a string
    per header. [meta.fields] is [None] where Papa leaves it out. *)
Record PapaResult := {
  errors : list string;
  metaFields : option (list string);
  data : list (gmap string string)
}.

(** [{ fields, rows }]. *)
Record Parsed := {
  fields : list string;
  rows : list Row
}.

(** How a call ends: it returns, or throws [new Error(message)]. *)
Inductive outcome (A : Type) :=
  | Returns (x : A)
  | Throws (message : string).
Arguments Returns {A} x.
Arguments Throws {A} message.

(** ** Profiles *)

(** [detected]: the columns found for the ID, the amount and the date. *)
Record Detected := {
  detectedId : option string;
  detectedAmount : option string;
  detectedDate : option string
}.

Record DataProfile := {
  rowCount : nat;
  profileFields : list string;
  detected : Detected;
  duplicates : nat;
  amountSum : option num;
  (** [{ min, max }], or [null]. *)
  dateRange : option (string * string);
  sampleRows : list Row
}.

Definition idCandidates : list string :=
  ["transaction_id"; "transactionid"; "txn_id"; "txnid"; "id"; "reference"; "ref";
   "trans_id"].
Definition amountCandidates : list string :=
  ["amount"; "amt"; "total"; "total_amount"; "value"].
Definition dateCandidates : list string :=
  ["date"; "txn_date"; "transaction_date"; "posted_date"; "booking_date"].

(** The loop [for (const cand of candidates) { const i =
    lowerFields.indexOf(cand); if (i >= 0) { detected = fields[i]; break; } }]. *)
Fixpoint detect (fields lowerFields candidates : list string) : option string :=
  match candidates with
  | [] => None
  | cand :: candidates' =>
      match indexOf lowerFields cand with
      | Some i => fields !! i
      | None => detect fields lowerFields candidates'
      end
  end.

(** ** Sessions *)

(** [meta]: the profiles of the two files. *)
Record Meta := {
  metaA : DataProfile;
  metaB : DataProfile
}.

(** An entry of [sessions]; [lastRecon] is absent until the first
    reconciliation. *)
Record Session := {
  createdAt : Z;
  dataA : Parsed;
  dataB : Parsed;
  meta : Meta;
  lastRecon : option Output
}.

(** The body of a request to [/api/reconcile], as far as the route reads
    it: [sessionId] and [mode] are any JSON scalars, [mapping] and [rules]
    have the shape that [reconcile] reads. *)
Record Body := {
  reqSessionId : value;
  reqMode : value;
  reqMapping : option (gmap string FieldPair);
  reqRules : option Rules
}.

(** A line of the exported file, before [Papa.unparse]. *)
Record Flat := {
  flatStatus : string;
  flatReason : string;
  flatKey : option string;
  a_rowId : value;
  b_rowId : value;
  a_transaction_id : value;
  b_transaction_id : value;
  a_date : value;
  b_date : value;
  a_amount : value;
  b_amount : value
}.

(** What a route sends. *)
Inductive Response :=
  (** [res.json({ sessionId, meta })] *)
  | Created (sessionId : string) (m : Meta)
  (** [res.json({ meta: s.meta, ...recon })] *)
  | Reconciled (m : Meta) (recon : Output)
  (** [res.send(Papa.unparse(flat))], as the attachment [filename] *)
  | Exported (filename : string) (flat : list Flat)
  (** [res.status(code).json({ error })] *)
  | Failed (code : nat) (error : string).

Section Server.

Context (h : Host).
(** [Papa.parse] with the options of [parseCsvBuffer], on the text of a
    buffer. *)
Context (Papa_parse : string → PapaResult).

Definition normalizeHeader (v : value) : string :=
  trim (String_ h (nullish v (VStr ""))).

(** The buffer is given by its text, [buffer.toString("utf-8")]. The rows
    are those of a file that has no column named [__rowId]. *)
Definition parseCsvBuffer (buffer : string) : outcome Parsed :=
  let result := Papa_parse buffer in
  match errors result with
  | msg :: _ => Throws (if truthy msg then msg else "CSV parse error")
  | [] =>
      Returns
        {| fields := filter (λ f, truthy f = true)
                       ((λ f, normalizeHeader (VStr f)) <$> default [] (metaFields result));
           rows := rowsOf (data result) |}
  end.

(** The loop that counts the rows whose ID was seen before: the set [seen]
    and the counter [duplicates]. *)
Definition countDuplicate (f : string) (st : gset string * nat) (r : Row)
    : gset string * nat :=
  let id := stringify h (prop r f) in
  if negb (truthy id) then st
  else if bool_decide (id ∈ st.1) then (st.1, S st.2)
  else ({[ id ]} ∪ st.1, st.2).

(** The loop that adds up the amounts that parse: [sum] and [count]. *)
Definition addAmount (f : string) (st : num * nat) (r : Row) : num * nat :=
  match toNumber h (prop r f) with
  | Some n => (add st.1 n, S st.2)
  | None => st
  end.

Definition profile (rows : list Row) (fields : list string) : DataProfile :=
  let lowerFields := toLowerCase <$> fields in
  let detectedId := detect fields lowerFields idCandidates in
  let detectedAmount := detect fields lowerFields amountCandidates in
  let detectedDate := detect fields lowerFields dateCandidates in
  let duplicates :=
    match detectedId with
    | Some f => if truthy f then (foldl (countDuplicate f) (∅, 0) rows).2 else 0
    | None => 0
    end in
  let amountSum :=
    match detectedAmount with
    | Some f =>
        if truthy f then
          let '(sum, count) := foldl (addAmount f) (zero, 0) rows in
          if bool_decide (count = 0) then None else Some sum
        else None
    | None => None
    end in
  let dates :=
    match detectedDate with
    | Some f =>
        if truthy f then
          sort (filter (λ d, truthy d = true)
                  (omap (λ r, normalizeDate h (prop r f)) rows))
        else []
    | None => []
    end in
  {| rowCount := length rows;
     profileFields := fields;
     detected := {| detectedId := detectedId; detectedAmount := detectedAmount;
                    detectedDate := detectedDate |};
     duplicates := duplicates;
     amountSum := amountSum;
     dateRange := match head dates, last dates with
                  | Some dateMin, Some dateMax =>
                      if truthy dateMin && truthy dateMax then Some (dateMin, dateMax)
                      else None
                  | _, _ => None
                  end;
     sampleRows := take 5 rows |}.

(** ** The routes

    A route is a function of the map [sessions] and of what it reads of
    the request; it gives the map afterwards and the response. *)

(** [POST /api/sessions]. [fileA] and [fileB] are the texts of the uploaded
    files, [None] for a file that is missing; [sessionId] is the value of
    [nanoid(12)] and [now] that of [Date.now()]. *)
Definition postSessions (sessions : gmap string Session) (fileA fileB : option string)
    (sessionId : string) (now : Z) : gmap string Session * Response :=
  let failed (message : string) :=
    (sessions, Failed 400 (if truthy message then message else "Upload failed")) in
  match fileA, fileB with
  | Some bufferA, Some bufferB =>
      match parseCsvBuffer bufferA with
      | Throws message => failed message
      | Returns parsedA =>
          match parseCsvBuffer bufferB with
          | Throws message => failed message
          | Returns parsedB =>
              let meta := {| metaA := profile (rows parsedA) (fields parsedA);
                             metaB := profile (rows parsedB) (fields parsedB) |} in
              (<[sessionId := {| createdAt := now; dataA := parsedA; dataB := parsedB;
                                 meta := meta; lastRecon := None |}]> sessions,
               Created sessionId meta)
          end
      end
  | _, _ => (sessions, Failed 400 "Please upload both fileA and fileB.")
  end.

(** The schema of the body: [sessionId] is a string of at least three code
    units, [mode] is ["auto"] or ["custom"]. *)
Definition safeParse (body : Body) : option (string * Mode) :=
  match reqSessionId body with
  | VStr sessionId =>
      if bool_decide (3 ≤ String.length sessionId)%nat then
        match reqMode body with
        | VStr mode =>
            if bool_decide (mode = "auto") then Some (sessionId, Auto)
            else if bool_decide (mode = "custom") then Some (sessionId, Custom)
            else None
        | _ => None
        end
      else None
  | _ => None
  end.

(** [POST /api/reconcile]. On the bodies modelled here [reconcile] does not
    throw. The [details] that come with the error of an invalid body are
    left out. *)
Definition postReconcile (sessions : gmap string Session) (body : Body)
    : gmap string Session * Response :=
  match safeParse body with
  | None => (sessions, Failed 400 "Invalid request body")
  | Some (sessionId, mode) =>
      match sessions !! sessionId with
      | None => (sessions, Failed 404 "Session not found. Upload files again.")
      | Some s =>
          let recon := reconcile h (rows (dataA s)) (rows (dataB s))
                         (reqMapping body) mode (reqRules body) in
          (<[sessionId := {| createdAt := createdAt s; dataA := dataA s; dataB := dataB s;
                             meta := meta s; lastRecon := Some recon |}]> sessions,
           Reconciled (meta s) recon)
      end
  end.

(** [r.a ? (r.a[f] ?? "") : ""]. *)
Definition flatColumn (r : option Row) (f : string) : value :=
  match r with
  | Some r => nullish (prop r f) (VStr "")
  | None => VStr ""
  end.

Definition flatten (r : Result) : Flat :=
  {| flatStatus := status r;
     flatReason := reason r;
     flatKey := key r;
     a_rowId := nullish (from_option (λ x, prop x "__rowId") VUndefined (a r)) (VStr "");
     b_rowId := nullish (from_option (λ x, prop x "__rowId") VUndefined (b r)) (VStr "");
     a_transaction_id := flatColumn (a r) "transaction_id";
     b_transaction_id := flatColumn (b r) "transaction_id";
     a_date := flatColumn (a r) "date";
     b_date := flatColumn (b r) "date";
     a_amount := flatColumn (a r) "amount";
     b_amount := flatColumn (b r) "amount" |}.

(** The records that a filter keeps. *)
Definition exportRows (results : list Result) (filterBy : string) : list Result :=
  filter (λ r, (if bool_decide (filterBy = "ALL") then true
                else bool_decide (status r = filterBy)) = true)
    results.

(** [GET /api/export/:sessionId]. [query] is the parameter [filter] of the
    query string, [None] when it is absent. *)
Definition getExport (sessions : gmap string Session) (sessionId : string)
    (query : option string) : Response :=
  let filterBy := match query with
                  | Some f => if truthy f then f else "ALL"
                  | None => "ALL"
                  end in
  match sessions !! sessionId ≫= lastRecon with
  | None => Failed 404 "Nothing to export. Run reconciliation first."
  | Some recon =>
      Exported ("recon_" +:+ sessionId +:+ "_" +:+ filterBy +:+ ".csv")
        (flatten <$> exportRows (results recon) filterBy)
  end.

End Server.

(** A request to the server. *)
Inductive Request :=
  | PostSessions (fileA fileB : option string) (sessionId : string) (now : Z)
  | PostReconcile (body : Body)
  | GetExport (sessionId : string) (query : option string).

(** What the server does with a request: the map [sessions] afterwards and
    the response. *)
Definition respond (h : Host) (Papa_parse : string → PapaResult)
    (sessions : gmap string Session) (req : Request) : gmap string Session * Response :=
  match req with
  | PostSessions fileA fileB sessionId now =>
      postSessions h Papa_parse sessions fileA fileB sessionId now
  | PostReconcile body => postReconcile h sessions body
  | GetExport sessionId query => (sessions, getExport sessions sessionId query)
  end.

(** * The front end

    The computations of [frontend/src/App.jsx] on what the backend sends:
    the payload of a reconciliation request, the slices of the chart and
    the rows of the table. *)

(** [s.toUpperCase()]. The code units [181], [223] and [255], whose upper
    case is not a single code unit below 256, are outside the strings
    modelled. *)
Definition upperChar (c : ascii) : ascii :=
  let n := nat_of_ascii c in
  if bool_decide (97 ≤ n ≤ 122)%nat || bool_decide (224 ≤ n ≤ 254 ∧ n ≠ 247)%nat
  then ascii_of_nat (n - 32) else c.

Fixpoint toUpperCase (s : string) : string :=
  match s with
  | EmptyString => EmptyString
  | String c s' => String (upperChar c) (toUpperCase s')
  end.

(** [s.replace(/\s+/g, "_")]; [inRun] says that the code unit before was
    white space. *)
Fixpoint replaceSpaces (inRun : bool) (s : string) : string :=
  match s with
  | EmptyString => EmptyString
  | String c s' =>
      if isWhiteSpace c then
        if inRun then replaceSpaces true s' else String "_" (replaceSpaces true s')
      else String c (replaceSpaces false s')
  end.

(** A number after [JSON.stringify] and [JSON.parse]: NaN and the
    infinities are written as [null], and [-0] as [0]. *)
Definition viaJSON (n : num) : value :=
  match n with
  | S754_nan | S754_infinity _ => VNull
  | S754_zero _ => VNum zero
  | S754_finite _ _ _ => VNum n
  end.

(** The state [rules]: the texts of the two tolerance inputs. *)
Record Inputs := {
  inputAmountTolerance : string;
  inputDateToleranceDays : string
}.

(** A slice of the chart. *)
Record Slice := {
  sliceName : string;
  sliceValue : nat;
  sliceKey : string
}.

Section FrontEnd.

Context (h : Host).
(** [JSON.stringify(r || {})] for a row or [null]. *)
Context (JSON_stringify : option Row → string).

(** [name || fallback] for a detected column. *)
Definition columnOr (name : option string) (fallback : string) : string :=
  match name with
  | Some f => if truthy f then f else fallback
  | None => fallback
  end.

(** [Number(text || 0)], as the backend receives it. *)
Definition tolerance (text : string) : value :=
  viaJSON (if truthy text then StringToNumber h text else zero).

(** The payload that [handleReconcile] builds, as the backend receives it.
    [sessionId], [strategy], [meta] and [rules] are the state of the
    application. *)
Definition payload (sessionId : option string) (strategy : string) (meta : option Meta)
    (rules : Inputs) : Body :=
  let detectedA := detected <$> (metaA <$> meta) in
  let detectedB := detected <$> (metaB <$> meta) in
  let idA := columnOr (detectedA ≫= detectedId) "transaction_id" in
  let idB := columnOr (detectedB ≫= detectedId) "transaction_id" in
  let amountA := columnOr (detectedA ≫= detectedAmount) "amount" in
  let amountB := columnOr (detectedB ≫= detectedAmount) "amount" in
  let dateA := columnOr (detectedA ≫= detectedDate) "date" in
  let dateB := columnOr (detectedB ≫= detectedDate) "date" in
  {| reqSessionId := from_option VStr VNull sessionId;
     reqMode := VStr strategy;
     reqMapping :=
       Some (<["description" := {| fa := Some "description"; fb := Some "description" |}]>
            (<["date" := {| fa := Some dateA; fb := Some dateB |}]>
            (<["amount" := {| fa := Some amountA; fb := Some amountB |}]>
            (<["id" := {| fa := Some idA; fb := Some idB |}]> ∅))));
     reqRules :=
       if bool_decide (strategy = "custom") then
         Some {| amountTolerance := tolerance (inputAmountTolerance rules);
                 dateToleranceDays := tolerance (inputDateToleranceDays rules);
                 compositeKeysA := Some [amountA; dateA];
                 compositeKeysB := Some [amountB; dateB];
                 fieldTypes :=
                   Some (<["description" := "string"]>
                        (<[dateB := "date"]>
                        (<[amountB := "number"]>
                        (<[dateA := "date"]>
                        (<[amountA := "number"]> ∅))))) |}
       else None |}.

(** [recon] is the response of the backend, [None] before the first
    reconciliation. *)
Definition pieData (recon : option Output) : list Slice :=
  match recon with
  | None => []
  | Some recon =>
      let c := counts (summary recon) in
      filter (λ d, 0 < sliceValue d)%nat
        [ {| sliceName := "Matched"; sliceValue := MATCHED c; sliceKey := "MATCHED" |};
          {| sliceName := "Mismatch"; sliceValue := MISMATCH c; sliceKey := "MISMATCH" |};
          {| sliceName := "Missing in A"; sliceValue := MISSING_IN_A c;
             sliceKey := "MISSING_IN_A" |};
          {| sliceName := "Missing in B"; sliceValue := MISSING_IN_B c;
             sliceKey := "MISSING_IN_B" |} ]
  end.

(** [r._normalizedStatus]. *)
Definition normalizedStatus (r : Result) : string :=
  replaceSpaces false (toUpperCase (status r)).

(** Whether a record passes the search for [q]. *)
Definition found (q : string) (r : Result) : bool :=
  from_option (λ k, includes q (toLowerCase k)) false (key r) ||
  includes q (toLowerCase (reason r)) ||
  includes q (toLowerCase (JSON_stringify (a r))) ||
  includes q (toLowerCase (JSON_stringify (b r))).

(** The rows of the table: the records that pass the status filter and the
    search. The property [_normalizedStatus] that the rows carry is
    [normalizedStatus]. *)
Definition filteredRows (recon : option Output) (filterBy search : string) : list Result :=
  match recon with
  | None => []
  | Some recon =>
      let rows := results recon in
      let rows := if bool_decide (filterBy ≠ "ALL")
                  then filter (λ r, normalizedStatus r = filterBy) rows
                  else rows in
      if bool_decide (trim search ≠ "")
      then filter (λ r, found (toLowerCase search) r = true) rows
      else rows
  end.

End FrontEnd.

(** ** Files *)

Module Files.

(** [s.split(sep)]. *)
Fixpoint split (sep : ascii) (s : string) : list string :=
  match s with
  | EmptyString => [""]
  | String c s' =>
      if bool_decide (c = sep) then "" :: split sep s'
      else
        match split sep s' with
        | w :: ws => String c w :: ws
        | [] => [String c ""]
        end
  end.

(** A reader of plain comma-separated text, which stands for [Papa.parse]
    on files without quotes that have a header of at least two columns:
    lines end with LF, empty lines are skipped, and a line that has not as
    many fields as the header is an error. *)
Definition parse (text : string) : PapaResult :=
  match filter (λ l, truthy l = true) (split "010" text) with
  | [] => {| errors := ["Unable to auto-detect delimiting character; defaulted to ','"];
             metaFields := None; data := [] |}
  | header :: lines =>
      let names := split "," header in
      let cells := split "," <$> lines in
      {| errors := if bool_decide (Forall (λ l, length l = length names) cells) then []
                   else ["Too few or too many fields"];
         metaFields := Some names;
         data := (λ l, list_to_map (zip names l)) <$> cells |}
  end.

(** The text of a file from its lines. *)
Definition file (lines : list string) : string := join (String "010" "") lines.

(** [JSON.stringify] of a row, for values that need no escape: [__rowId],
    then the columns (here in the order of the map, not of the file). *)
Definition quoted (s : string) : string := String "034" (s +:+ String "034" "").

Definition stringify (r : option Row) : string :=
  match r with
  | Some r =>
      "{" +:+ join "," ((quoted "__rowId" +:+ ":" +:+ Node.decString (Z.of_nat (rowId r)))
                        :: ((λ kv, quoted kv.1 +:+ ":" +:+ quoted kv.2)
                              <$> map_to_list (cols r))) +:+ "}"
  | None => "{}"
  end.

End Files.

(** ** Notions used in the statements on the server *)

(** A file without a column named [__rowId]: the rows that [parseCsvBuffer]
    builds of it carry the identifiers that it assigns. *)
Definition plain (result : PapaResult) : Prop :=
  Forall (λ r : gmap string string, r !! "__rowId" = None) (data result).

#[export] Instance plain_dec (result : PapaResult) : Decision (plain result).
Proof. unfold plain. apply _. Defined.

(** What the loop of [profile] over a list of candidates finds: the first
    field, in the order of the header, whose lower-case form is the first
    candidate, in the order of the candidates, that is the lower-case form
    of a field; nothing when no field is a candidate. *)
Definition detects (fields candidates : list string) (found : option string) : Prop :=
  match found with
  | Some f =>
      ∃ i j, fields !! i = Some f ∧ candidates !! j = Some (toLowerCase f) ∧
             (∀ i' f', fields !! i' = Some f' → (i' < i)%nat →
                       toLowerCase f' ≠ toLowerCase f) ∧
             (∀ j' c f', candidates !! j' = Some c → (j' < j)%nat → f' ∈ fields →
                         toLowerCase f' ≠ c)
  | None => ∀ f, f ∈ fields → toLowerCase f ∉ candidates
  end.

(** A request whose files, if it has any, are plain. *)
Definition plainRequest (Papa_parse : string → PapaResult) (req : Request) : Prop :=
  match req with
  | PostSessions fileA fileB _ _ =>
      from_option (λ text, plain (Papa_parse text)) True fileA ∧
      from_option (λ text, plain (Papa_parse text)) True fileB
  | _ => True
  end.

(** The maps [sessions] that the server can hold: it starts with the empty
    map and answers requests one after the other. *)
Inductive reachable (h : Host) (Papa_parse : string → PapaResult)
    : gmap string Session → Prop :=
  | reachable_start : reachable h Papa_parse ∅
  | reachable_respond (sessions : gmap string Session) (req : Request) :
      reachable h Papa_parse sessions → plainRequest Papa_parse req →
      reachable h Papa_parse (respond h Papa_parse sessions req).1.

(** What holds of every session that the server holds: its rows are
    numbered from 1 in each file, its profiles are those of its files, and
    its last result, if it has one, is a reconciliation of its files. *)
Definition wellFormed (h : Host) (s : Session) : Prop :=
  rowId <$> rows (dataA s) = seq 1 (length (rows (dataA s))) ∧
  rowId <$> rows (dataB s) = seq 1 (length (rows (dataB s))) ∧
  meta s = {| metaA := profile h (rows (dataA s)) (fields (dataA s));
              metaB := profile h (rows (dataB s)) (fields (dataB s)) |} ∧
  ∀ recon, lastRecon s = Some recon →
    ∃ mapping mode rules,
      recon = reconcile h (rows (dataA s)) (rows (dataB s)) mapping mode rules.

(** ** More datasets *)

Module Cases.

Import Examples.

(** A row of A and a row of B whose amount and date are blank. *)
Definition blankKeyA : Row := row 1 (txn "A1" "" "").
Definition blankKeyB : Row := row 1 (txn "B7" " " "").

(** One amount and one day, each written in two ways. *)
Definition sameA : Row := row 1 (txn "T1" "1,000" "2024-01-05").
Definition sameB : Row := row 1 (txn "T1" "1000.00" "01/05/2024").

(** A pair whose amounts are four apart, and rules that give the amount
    tolerance of five as a text and nothing else. *)
Definition closeA : Row := row 1 (txn "T1" "100" "2024-01-05").
Definition closeB : Row := row 1 (txn "T1" "104" "2024-01-05").
Definition textFive : option Rules :=
  Some {| amountTolerance := VStr "5";
          dateToleranceDays := VNull;
          compositeKeysA := None;
          compositeKeysB := None;
          fieldTypes := None |}.

(** Rules with a date tolerance of three days. *)
Definition threeDays : option Rules :=
  Some {| amountTolerance := VNum zero;
          dateToleranceDays := VNum (ofZ 3);
          compositeKeysA := Some ["transaction_id"];
          compositeKeysB := Some ["transaction_id"];
          fieldTypes := None |}.

(** Two files. In the first the ID [T1] comes twice, a line is empty and a
    line has a blank ID. *)
Definition fileA : string :=
  Files.file ["transaction_id,Amount, date "; "T1,120,2024-01-05"; "T1,10,2024-01-03"; "";
              " ,7,01/09/2024"].
Definition fileB : string :=
  Files.file ["transaction_id,Amount,date"; "T1,125,2024-01-05"; "T2,50,2024-01-08"].

(** What [parseCsvBuffer] returns of a file that parses. *)
Definition parsedOf (text : string) : Parsed :=
  match parseCsvBuffer utc Files.parse text with
  | Returns parsed => parsed
  | Throws _ => {| fields := []; rows := [] |}
  end.

(** The second row of the second file. *)
Definition secondOfB : Row :=
  row 2 [("transaction_id", "T2"); ("Amount", "50"); ("date", "2024-01-08")].

(** The server after the upload of the two files, and the session it
    holds. *)
Definition upload : Request := PostSessions (Some fileA) (Some fileB) "sess01" 0.
Definition uploaded : gmap string Session := (respond utc Files.parse ∅ upload).1.
Definition session : Session :=
  {| createdAt := 0;
     dataA := parsedOf fileA;
     dataB := parsedOf fileB;
     meta := {| metaA := profile utc (rows (parsedOf fileA)) (fields (parsedOf fileA));
                metaB := profile utc (rows (parsedOf fileB)) (fields (parsedOf fileB)) |};
     lastRecon := None |}.

(** The request that the application sends for that session in auto mode,
    and the server after it. *)
Definition noInputs : Inputs := {| inputAmountTolerance := ""; inputDateToleranceDays := "" |}.
Definition autoBody : Body := payload utc (Some "sess01") "auto" (Some (meta session)) noInputs.
Definition reconciled : gmap string Session :=
  (respond utc Files.parse uploaded (PostReconcile autoBody)).1.

End Cases.

(** * Properties *)

(** ** Binary64 arithmetic *)

Module NumFacts.

Local Open Scope Z_scope.

Lemma digits2_pos_bounds (p : positive) :
  2 ^ (Zpos (digits2_pos p) - 1) <= Zpos p < 2 ^ Zpos (digits2_pos p).
Proof.
  induction p as [p IH|p IH|]; simpl digits2_pos; [| |simpl; lia].
  all: rewrite Pos2Z.inj_succ.
  all: replace (Z.succ (Zpos (digits2_pos p)) - 1)
         with (Z.succ (Zpos (digits2_pos p) - 1)) by lia.
  all: rewrite !Z.pow_succ_r by lia.
  all: set (lo := 2 ^ (Zpos (digits2_pos p) - 1)) in *.
  all: set (hi := 2 ^ Zpos (digits2_pos p)) in *.
  all: lia.
Qed.

Lemma Zdigits2_bounds (m : Z) :
  0 < m → 2 ^ (Zdigits2 m - 1) <= m < 2 ^ Zdigits2 m.
Proof. destruct m as [|p|p]; try lia. intros _. apply digits2_pos_bounds. Qed.

Lemma Zdigits2_pos (m : Z) : 0 < m → 0 < Zdigits2 m.
Proof. destruct m; simpl; lia. Qed.

Lemma Zdigits2_unique (m k : Z) :
  0 < k → 2 ^ (k - 1) <= m < 2 ^ k → Zdigits2 m = k.
Proof.
  intros Hk [Hlo Hhi].
  assert (0 < m) as Hm by (pose proof (Z.pow_pos_nonneg 2 (k - 1)); lia).
  pose proof (Zdigits2_bounds m Hm) as [Hlo' Hhi'].
  pose proof (Zdigits2_pos m Hm) as Hd.
  destruct (Z.lt_trichotomy (Zdigits2 m) k) as [Hlt|[Heq|Hgt]]; [|done|].
  - assert (2 ^ Zdigits2 m <= 2 ^ (k - 1)) by (apply Z.pow_le_mono_r; lia). lia.
  - assert (2 ^ k <= 2 ^ (Zdigits2 m - 1)) by (apply Z.pow_le_mono_r; lia). lia.
Qed.

Lemma Zdigits2_mono (m m' : Z) : 0 < m → m <= m' → Zdigits2 m <= Zdigits2 m'.
Proof.
  intros Hm Hle.
  pose proof (Zdigits2_bounds m Hm) as [Hlo _].
  pose proof (Zdigits2_bounds m' ltac:(lia)) as [_ Hhi].
  destruct (Z.le_gt_cases (Zdigits2 m) (Zdigits2 m')) as [|Hgt]; [done|].
  assert (2 ^ Zdigits2 m' <= 2 ^ (Zdigits2 m - 1)) by (apply Z.pow_le_mono_r; lia).
  lia.
Qed.

Lemma Zdigits2_div_pow2 (m p : Z) :
  0 < m → 0 <= p < Zdigits2 m → Zdigits2 (m / 2 ^ p) = Zdigits2 m - p.
Proof.
  intros Hm Hp. pose proof (Zdigits2_bounds m Hm) as [Hlo Hhi].
  assert (0 < 2 ^ p) as Hpow by (apply Z.pow_pos_nonneg; lia).
  apply Zdigits2_unique; [lia|]. split.
  - apply Z.div_le_lower_bound; [done|].
    rewrite <- Z.pow_add_r by lia. by replace (p + (Zdigits2 m - p - 1)) with (Zdigits2 m - 1) by lia.
  - apply Z.div_lt_upper_bound; [done|].
    rewrite <- Z.pow_add_r by lia. by replace (p + (Zdigits2 m - p)) with (Zdigits2 m) by lia.
Qed.

Lemma Zdigits2_mul_pow2 (m p : Z) :
  0 < m → 0 <= p → Zdigits2 (m * 2 ^ p) = Zdigits2 m + p.
Proof.
  intros Hm Hp. pose proof (Zdigits2_bounds m Hm) as [Hlo Hhi].
  pose proof (Zdigits2_pos m Hm).
  assert (0 < 2 ^ p) as Hpow by (apply Z.pow_pos_nonneg; lia).
  apply Zdigits2_unique; [lia|]. split.
  - replace (Zdigits2 m + p - 1) with ((Zdigits2 m - 1) + p) by lia.
    rewrite Z.pow_add_r by lia. by apply Z.mul_le_mono_nonneg_r; [lia|].
  - rewrite Z.pow_add_r by lia. apply Z.mul_lt_mono_pos_r; lia.
Qed.

(** Shifting to the right. *)

Lemma shr_1_m (mrs : shr_record) :
  0 <= shr_m mrs → shr_m (shr_1 mrs) = shr_m mrs / 2.
Proof.
  destruct mrs as [m r s]. simpl. intros Hm.
  destruct m as [|[p|p|]|p]; try lia; cbn [shr_m shr_1]; try done.
  - apply (Z.div_unique _ _ _ 1); lia.
  - apply (Z.div_unique _ _ _ 0); lia.
Qed.

Lemma div_pow2_twice (m k : Z) :
  0 < k → m / 2 ^ k / 2 ^ k = m / 2 ^ (2 * k).
Proof.
  intros Hk. assert (0 < 2 ^ k) by (apply Z.pow_pos_nonneg; lia).
  rewrite Z.div_div by lia. f_equal.
  rewrite <- Z.pow_add_r by lia. f_equal. lia.
Qed.

Lemma iter_shr_1_m (p : positive) (mrs : shr_record) :
  0 <= shr_m mrs → shr_m (SpecFloat.iter_pos shr_1 p mrs) = shr_m mrs / 2 ^ Zpos p.
Proof.
  revert mrs. induction p as [p IH|p IH|]; intros mrs Hm; simpl SpecFloat.iter_pos.
  - assert (0 <= shr_m (shr_1 mrs)) as H1
      by (rewrite shr_1_m by done; apply Z.div_pos; lia).
    assert (0 <= shr_m (SpecFloat.iter_pos shr_1 p (shr_1 mrs))) as H2
      by (rewrite IH by done; apply Z.div_pos; [done|apply Z.pow_pos_nonneg; lia]).
    rewrite (IH _ H2), (IH _ H1), shr_1_m, div_pow2_twice by lia.
    rewrite Z.div_div by (try apply Z.pow_pos_nonneg; lia).
    replace (2 * 2 ^ (2 * Z.pos p)) with (2 ^ Z.pos p~1); [done|].
    rewrite Pos2Z.inj_xI, Z.pow_add_r by lia. lia.
  - assert (0 <= shr_m (SpecFloat.iter_pos shr_1 p mrs)) as H2
      by (rewrite IH by done; apply Z.div_pos; [done|apply Z.pow_pos_nonneg; lia]).
    rewrite (IH _ H2), (IH _ Hm), div_pow2_twice by lia. done.
  - rewrite shr_1_m by done. done.
Qed.

Lemma shr_record_of_loc_m (m : Z) (l : location) :
  shr_m (shr_record_of_loc m l) = m.
Proof. by destruct l as [|[]]. Qed.

Lemma shr_fexp_pos (m e : Z) (l : location) :
  0 < m → roundable m e →
  0 < shr_m (fst (shr_fexp prec emax m e l)) ∧
  e <= snd (shr_fexp prec emax m e l) ∧
  Zdigits2 (shr_m (fst (shr_fexp prec emax m e l))) + snd (shr_fexp prec emax m e l)
    = Zdigits2 m + e.
Proof.
  intros Hm Hr. unfold shr_fexp, shr, fexp.
  fold emin. unfold roundable in Hr. unfold prec in *.
  pose proof (Zdigits2_pos m Hm) as Hd.
  destruct (Z.max (Zdigits2 m + e - 53) emin - e) as [|p|p] eqn:Hn; simpl fst; simpl snd;
    rewrite ?shr_record_of_loc_m; try (split; [lia|split; lia]).
  rewrite iter_shr_1_m, shr_record_of_loc_m by (rewrite shr_record_of_loc_m; lia).
  assert (Zpos p < Zdigits2 m) as Hp by lia.
  rewrite Zdigits2_div_pow2 by lia.
  split; [|lia].
  pose proof (Zdigits2_bounds m Hm) as [Hlo _].
  assert (2 ^ Zpos p <= 2 ^ (Zdigits2 m - 1)) by (apply Z.pow_le_mono_r; lia).
  assert (0 < 2 ^ Zpos p) by (apply Z.pow_pos_nonneg; lia).
  apply Z.div_str_pos. lia.
Qed.

Lemma round_nearest_even_bounds (m : Z) (l : location) :
  m <= round_nearest_even m l <= m + 1.
Proof. destruct l as [|[]]; simpl; try lia. destruct (Z.even m); lia. Qed.

Lemma roundable_mono (m m' e e' : Z) :
  0 < m → roundable m e → e <= e' → Zdigits2 m + e <= Zdigits2 m' + e' →
  roundable m' e'.
Proof. unfold roundable. lia. Qed.

(** Rounding a positive mantissa that is roundable gives neither zero nor
    NaN, and does not lower the exponent or the magnitude. *)
Lemma binary_round_aux_pos (s : bool) (m e : Z) (l : location) :
  0 < m → roundable m e →
  match binary_round_aux prec emax s m e l with
  | S754_finite s' m' e' =>
      s' = s ∧ e <= e' ∧ Zdigits2 m + e <= Zpos (digits2_pos m') + e'
  | S754_infinity s' => s' = s
  | _ => False
  end.
Proof.
  intros Hm Hr. unfold binary_round_aux.
  pose proof (shr_fexp_pos m e l Hm Hr) as (H1 & He1 & Hd1).
  destruct (shr_fexp prec emax m e l) as [mrs1 e1]. simpl fst in *; simpl snd in *.
  pose proof (round_nearest_even_bounds (shr_m mrs1) (loc_of_shr_record mrs1)) as Hrne.
  set (m2 := round_nearest_even (shr_m mrs1) (loc_of_shr_record mrs1)) in *.
  assert (0 < m2) as Hm2 by lia.
  assert (Zdigits2 (shr_m mrs1) <= Zdigits2 m2) as Hd2 by (apply Zdigits2_mono; lia).
  assert (roundable m2 e1) as Hr2 by (apply (roundable_mono m _ e); try done; lia).
  pose proof (shr_fexp_pos m2 e1 loc_Exact Hm2 Hr2) as (H3 & He3 & Hd3).
  destruct (shr_fexp prec emax m2 e1 loc_Exact) as [mrs3 e3]. simpl fst in *; simpl snd in *.
  destruct (shr_m mrs3) as [|m3|m3]; try lia.
  destruct (e3 <=? emax - prec); [|done].
  simpl Zdigits2 in Hd3. split; [done|lia].
Qed.

(** Shifting to the left. *)

Lemma iter_xO_value (m d : positive) :
  Zpos (Pos.iter xO m d) = Zpos m * 2 ^ Zpos d.
Proof.
  induction d as [|d IH] using Pos.peano_ind.
  - simpl. lia.
  - rewrite Pos.iter_succ, Pos2Z.inj_xO, IH, Pos2Z.inj_succ, Z.pow_succ_r by lia. lia.
Qed.

Lemma shl_align_spec (m : positive) (e e' : Z) :
  let '(mz, ez) := shl_align m e e' in
  ez = Z.min e e' ∧ Zpos mz = Zpos m * 2 ^ (e - ez).
Proof.
  unfold shl_align. destruct (e' - e) as [|d|d] eqn:Hd.
  - split; [lia|]. replace (e - e) with 0 by lia. lia.
  - split; [lia|]. replace (e - e) with 0 by lia. lia.
  - split; [lia|]. rewrite iter_xO_value. f_equal. f_equal. lia.
Qed.

Lemma binary_round_pos (s : bool) (m : positive) (e : Z) :
  emin <= e →
  match binary_round prec emax s m e with
  | S754_finite s' m' e' =>
      s' = s ∧ emin <= e' ∧ Zpos (digits2_pos m) + e <= Zpos (digits2_pos m') + e'
  | S754_infinity s' => s' = s
  | _ => False
  end.
Proof.
  intros He. unfold binary_round.
  pose proof (shl_align_spec m e (fexp prec emax (Zpos (digits2_pos m) + e))) as Hs.
  destruct (shl_align m e _) as [mz ez]. destruct Hs as [Hez Hmz].
  assert (emin <= fexp prec emax (Zpos (digits2_pos m) + e)) as Hf
    by (unfold fexp; fold emin; lia).
  assert (Zdigits2 (Zpos mz) + ez = Zpos (digits2_pos m) + e) as Hd.
  { rewrite Hmz, Zdigits2_mul_pow2 by lia. simpl Zdigits2. lia. }
  pose proof (binary_round_aux_pos s (Zpos mz) ez loc_Exact ltac:(lia)
                ltac:(left; lia)) as H.
  destruct (binary_round_aux prec emax s (Zpos mz) ez loc_Exact); try done.
  destruct H as (? & ? & ?). split; [done|lia].
Qed.

Lemma nonzero_leb (x : spec_float) : nonzero x → SFleb (SFabs x) zero = false.
Proof. by destruct x. Qed.

Lemma valid_finite (s : bool) (m : positive) (e : Z) :
  valid (S754_finite s m e) = true →
  fexp prec emax (Zpos (digits2_pos m) + e) = e ∧ emin <= e.
Proof.
  unfold valid, valid_binary, bounded, canonical_mantissa.
  intros [Hc _]%andb_prop. apply Z.eqb_eq in Hc. split; [done|].
  rewrite <- Hc. unfold fexp. fold emin. lia.
Qed.

Lemma cond_Zopp_eq (s1 s2 : bool) (x y : Z) :
  0 < x → 0 < y → cond_Zopp s1 x - cond_Zopp s2 y = 0 → s1 = s2 ∧ x = y.
Proof. destruct s1, s2; simpl; intros; split; try done; lia. Qed.

Lemma SFeqb_finite (s1 s2 : bool) (m1 m2 : positive) (e1 e2 : Z) :
  SFeqb (S754_finite s1 m1 e1) (S754_finite s2 m2 e2) = true ↔
    s1 = s2 ∧ m1 = m2 ∧ e1 = e2.
Proof.
  unfold SFeqb, SFcompare. rewrite Pos.compare_cont_spec. simpl.
  destruct s1, s2; try (split; [done|by intros (? & _)]).
  all: destruct (Z.compare_spec e1 e2), (Pos.compare_spec m1 m2); simpl;
    split; try done; try (intros (_ & ? & ?); lia); intros; subst; done.
Qed.

(** The difference of two numbers is [<= 0] in absolute value exactly when
    they are equal. *)
Lemma sub_leb_zero (x y : spec_float) :
  isFinite x = true → isFinite y = true → valid x = true → valid y = true →
  leb (abs (sub x y)) zero = eqb x y.
Proof.
  unfold leb, abs, eqb. destruct x as [sx| | |sx mx ex], y as [sy| | |sy my ey]; try done.
  - intros _ _ _ _. by destruct sx, sy.
  - intros _ _ _ _. by destruct sy.
  - intros _ _ _ _. by destruct sx.
  - intros _ _ [Hcx Hex]%valid_finite [Hcy Hey]%valid_finite.
    unfold sub, SFsub.
    pose proof (shl_align_spec mx ex (Z.min ex ey)) as Hax.
    pose proof (shl_align_spec my ey (Z.min ex ey)) as Hay.
    destruct (shl_align mx ex _) as [mx' ex'], (shl_align my ey _) as [my' ey'].
    destruct Hax as [Hex' Hmx], Hay as [Hey' Hmy]. simpl fst.
    set (M := cond_Zopp sx (Zpos mx') - cond_Zopp sy (Zpos my')).
    destruct (decide (M = 0)) as [HM|HM].
    + rewrite HM. simpl.
      apply cond_Zopp_eq in HM as [-> Hxy]; [|lia..].
      assert (Zdigits2 (Zpos mx') = Zdigits2 (Zpos my')) as Hd by by rewrite Hxy.
      rewrite Hmx, Hmy, !Zdigits2_mul_pow2 in Hd by lia. simpl Zdigits2 in Hd.
      assert (ex = ey) as -> by (rewrite <- Hcx, <- Hcy; f_equal; lia).
      rewrite Hmx, Hmy in Hxy.
      replace (ey - ex') with 0 in Hxy by lia. replace (ey - ey') with 0 in Hxy by lia.
      assert (mx = my) as -> by lia.
      symmetry. by apply SFeqb_finite.
    + transitivity false.
      * apply nonzero_leb. unfold binary_normalize.
        destruct M as [|p|p] eqn:HMp; [done| |].
        -- pose proof (binary_round_pos false p (Z.min ex ey) ltac:(lia)) as H.
           by destruct (binary_round _ _ _ _ _).
        -- pose proof (binary_round_pos true p (Z.min ex ey) ltac:(lia)) as H.
           by destruct (binary_round _ _ _ _ _).
      * symmetry. apply not_true_is_false. intros (-> & -> & ->)%SFeqb_finite.
        apply HM. unfold M.
        assert (Zpos mx' = Zpos my') as -> by (rewrite Hmx, Hmy; do 2 f_equal; lia).
        lia.
Qed.

(** Integers below [2^53] are numbers. *)

Lemma shr_fexp_id (m e : Z) (l : location) :
  fexp prec emax (Zdigits2 m + e) <= e →
  shr_fexp prec emax m e l = (shr_record_of_loc m l, e).
Proof.
  intros Hf. unfold shr_fexp, shr.
  destruct (fexp prec emax (Zdigits2 m + e) - e) eqn:Hn; try done. lia.
Qed.

Lemma binary_round_aux_canonical (s : bool) (m : positive) (e : Z) :
  fexp prec emax (Zpos (digits2_pos m) + e) = e → e <= emax - prec →
  binary_round_aux prec emax s (Zpos m) e loc_Exact = S754_finite s m e.
Proof.
  intros Hc He. unfold binary_round_aux.
  rewrite shr_fexp_id by (simpl Zdigits2; lia). simpl.
  rewrite shr_fexp_id by (simpl Zdigits2; lia). simpl.
  by rewrite (proj2 (Z.leb_le _ _) He).
Qed.

Lemma ofZ_small (t : Z) :
  t ≠ 0 → Z.abs t < 2 ^ 53 →
  ∃ m e, ofZ t = S754_finite (t <? 0) m e ∧ -52 <= e <= 0 ∧
         Zpos m = Z.abs t * 2 ^ (- e) ∧ valid (ofZ t) = true.
Proof.
  intros Ht Hlt.
  assert (∃ p, Z.abs t = Zpos p ∧
               ofZ t = binary_round prec emax (t <? 0) p 0) as (p & Hp & ->)
    by (destruct t as [|p|p]; [done|by exists p..]).
  rewrite Hp in *. clear Ht.
  pose proof (digits2_pos_bounds p) as [Hlo _].
  assert (Zpos (digits2_pos p) <= 53) as Hd.
  { destruct (Z.le_gt_cases (Zpos (digits2_pos p)) 53) as [|Hgt]; [done|].
    assert (2 ^ 53 <= 2 ^ (Zpos (digits2_pos p) - 1)) by (apply Z.pow_le_mono_r; lia).
    lia. }
  unfold binary_round.
  assert (fexp prec emax (Zpos (digits2_pos p) + 0) = Zpos (digits2_pos p) - 53) as ->
    by (unfold fexp, SpecFloat.emin, prec, emax; lia).
  pose proof (shl_align_spec p 0 (Zpos (digits2_pos p) - 53)) as Hs.
  destruct (shl_align p 0 _) as [mz ez]. destruct Hs as [Hez Hmz].
  assert (ez = Zpos (digits2_pos p) - 53) as -> by lia.
  assert (Zpos (digits2_pos mz) = 53) as Hdz.
  { change (Zdigits2 (Zpos mz) = 53). rewrite Hmz, Zdigits2_mul_pow2 by lia.
    simpl Zdigits2. lia. }
  assert (fexp prec emax (Zpos (digits2_pos mz) + (Zpos (digits2_pos p) - 53))
          = Zpos (digits2_pos p) - 53) as Hc
    by (rewrite Hdz; unfold fexp, SpecFloat.emin, prec, emax; lia).
  rewrite binary_round_aux_canonical by (try done; unfold emax, prec; lia).
  exists mz, (Zpos (digits2_pos p) - 53). split; [done|]. split; [lia|]. split.
  - rewrite Hmz; do 2 f_equal; lia.
  - unfold valid, valid_binary, bounded, canonical_mantissa.
    rewrite Hc, Z.eqb_refl. simpl. apply Z.leb_le. unfold emax, prec. lia.
Qed.

Lemma ofZ_zero : ofZ 0 = S754_zero false.
Proof. done. Qed.

Lemma atLeastOne_abs (x : spec_float) : atLeastOne x → atLeastOne (SFabs x).
Proof. by destruct x. Qed.

Lemma ofZ_atLeastOne (t : Z) :
  t ≠ 0 → Z.abs t < 2 ^ 53 → atLeastOne (ofZ t) ∧ atLeastOne (SFopp (ofZ t)).
Proof.
  intros Ht Hlt. destruct (ofZ_small t Ht Hlt) as (m & e & -> & He & Hm & _).
  assert (1 <= Zpos (digits2_pos m) + e) as H1.
  { change (1 <= Zdigits2 (Zpos m) + e). rewrite Hm, Zdigits2_mul_pow2 by lia.
    pose proof (Zdigits2_pos (Z.abs t)). lia. }
  assert (emin <= e) by (unfold emin, SpecFloat.emin, prec, emax; lia).
  by simpl.
Qed.

Lemma cond_Zopp_abs (t k : Z) : cond_Zopp (t <? 0) (Z.abs t * k) = t * k.
Proof.
  destruct (Z.ltb_spec t 0); simpl.
  - rewrite Z.abs_neq by lia. rewrite Z.mul_opp_l. lia.
  - by rewrite Z.abs_eq by lia.
Qed.

Lemma sub_ofZ_atLeastOne (ta tb : Z) :
  Z.abs ta < 2 ^ 53 → Z.abs tb < 2 ^ 53 → ta ≠ tb →
  atLeastOne (sub (ofZ ta) (ofZ tb)).
Proof.
  intros Ha Hb Hne.
  destruct (decide (ta = 0)) as [->|Hta], (decide (tb = 0)) as [->|Htb]; [done|..].
  - destruct (ofZ_atLeastOne tb Htb Hb) as [_ H]. rewrite ofZ_zero.
    by destruct (ofZ tb).
  - destruct (ofZ_atLeastOne ta Hta Ha) as [H _]. rewrite ofZ_zero.
    by destruct (ofZ ta).
  - destruct (ofZ_small ta Hta Ha) as (ma & ea & -> & Hea & Hma & _).
    destruct (ofZ_small tb Htb Hb) as (mb & eb & -> & Heb & Hmb & _).
    unfold sub, SFsub.
    pose proof (shl_align_spec ma ea (Z.min ea eb)) as Hxa.
    pose proof (shl_align_spec mb eb (Z.min ea eb)) as Hxb.
    destruct (shl_align ma ea _) as [ma' ea'], (shl_align mb eb _) as [mb' eb'].
    destruct Hxa as [Hea' Hma'], Hxb as [Heb' Hmb']. simpl fst.
    set (ez := Z.min ea eb) in *.
    assert (Zpos ma' = Z.abs ta * 2 ^ (- ez)) as ->.
    { rewrite Hma', Hma, <- Z.mul_assoc, <- Z.pow_add_r by lia. do 2 f_equal. lia. }
    assert (Zpos mb' = Z.abs tb * 2 ^ (- ez)) as ->.
    { rewrite Hmb', Hmb, <- Z.mul_assoc, <- Z.pow_add_r by lia. do 2 f_equal. lia. }
    assert (0 < 2 ^ (- ez)) as Hpow by (apply Z.pow_pos_nonneg; lia).
    set (M := cond_Zopp _ _ - cond_Zopp _ _).
    assert (M = (ta - tb) * 2 ^ (- ez)) as HM.
    { unfold M. by rewrite !cond_Zopp_abs, Z.mul_sub_distr_r. }
    assert (1 - ez <= Zdigits2 (Z.abs M)) as HdM.
    { rewrite HM, Z.abs_mul, (Z.abs_eq (2 ^ _)), Zdigits2_mul_pow2 by lia.
      pose proof (Zdigits2_pos (Z.abs (ta - tb))). lia. }
    unfold binary_normalize. destruct M as [|p|p] eqn:HMp.
    + exfalso. nia.
    + pose proof (binary_round_pos false p ez
                    ltac:(unfold emin, SpecFloat.emin, prec, emax; lia)) as H.
      destruct (binary_round _ _ _ _ _); try done. simpl in HdM. simpl. lia.
    + pose proof (binary_round_pos true p ez
                    ltac:(unfold emin, SpecFloat.emin, prec, emax; lia)) as H.
      destruct (binary_round _ _ _ _ _); try done. simpl in HdM. simpl. lia.
Qed.

(** Division by the number of milliseconds in a day. *)

Lemma day_eq : ofZ (24 * 60 * 60 * 1000) = S754_finite false 5798205849600000 (-26).
Proof. vm_compute. done. Qed.

Lemma div_day_atLeastOne (x : spec_float) :
  atLeastOne x → SFleb (div (SFabs x) (ofZ (24 * 60 * 60 * 1000))) zero = false.
Proof.
  rewrite day_eq. destruct x as [| | |s m e]; try done.
  intros [He Hd]. unfold div, SFabs, SFdiv, SFdiv_core_binary.
  change (Zdigits2 5798205849600000) with 53.
  simpl Zdigits2. set (d := Zpos (digits2_pos m)) in *.
  assert (fexp prec emax (d + e - (53 + -26)) = d + e - 80) as ->
    by (unfold fexp, SpecFloat.emin, prec, emax; lia).
  set (e' := Z.min (d + e - 80) (e - -26)).
  set (sh := e - -26 - e').
  set (m' := match sh with Z.pos _ => Z.shiftl (Z.pos m) sh | 0 => Z.pos m | Z.neg _ => 0 end).
  assert (0 <= sh) as Hsh by lia.
  assert (m' = Zpos m * 2 ^ sh) as Hm'.
  { unfold m'. destruct sh eqn:Hs; [lia| |lia]. by rewrite Z.shiftl_mul_pow2. }
  pose proof (digits2_pos_bounds m) as [Hlo _]. fold d in Hlo.
  assert (2 ^ 105 <= m') as Hbig.
  { rewrite Hm'. transitivity (2 ^ (d - 1) * 2 ^ sh).
    - rewrite <- Z.pow_add_r by lia. apply Z.pow_le_mono_r; lia.
    - apply Z.mul_le_mono_nonneg_r; [apply Z.pow_nonneg|]; lia. }
  destruct (Z.div_eucl m' 5798205849600000) as [q r] eqn:Hqr.
  assert (q = m' / 5798205849600000) as Hq by (unfold Z.div; by rewrite Hqr).
  assert (0 < q) as Hpos.
  { rewrite Hq. apply Z.div_str_pos. change (2 ^ 105) with 40564819207303340847894502572032 in Hbig. lia. }
  pose proof (binary_round_aux_pos (xorb false false) q e'
                (new_location 5798205849600000 r) Hpos
                ltac:(left; unfold emin, SpecFloat.emin, prec, emax in *; lia)) as H.
  destruct (binary_round_aux _ _ _ _ _ _) as [| s'| |s' ? ?]; try done.
  - by rewrite H.
  - destruct H as [-> _]. done.
Qed.

Lemma leb_abs_zero (x : spec_float) :
  SFleb (SFabs x) zero = true → ∃ s, x = S754_zero s.
Proof. destruct x as [s| | |]; try done. by exists s. Qed.

(** The difference in days of two time values is [<= 0] exactly when they
    are equal. *)
Lemma day_diff_leb_zero (ta tb : Z) :
  Z.abs ta < 2 ^ 53 → Z.abs tb < 2 ^ 53 →
  leb (div (abs (sub (ofZ ta) (ofZ tb))) (ofZ (24 * 60 * 60 * 1000))) zero
    = bool_decide (ta = tb).
Proof.
  intros Ha Hb. unfold leb, abs. case_bool_decide as Heq.
  - subst tb. assert (∃ s, sub (ofZ ta) (ofZ ta) = S754_zero s) as [s ->].
    { apply leb_abs_zero. destruct (decide (ta = 0)) as [->|Hne]; [done|].
      destruct (ofZ_small ta Hne Ha) as (m & e & Hx & _ & _ & Hv).
      pose proof (sub_leb_zero (ofZ ta) (ofZ ta)) as Hs. unfold leb, abs, eqb in Hs.
      rewrite Hs; try done; rewrite ?Hx; try done.
      by apply SFeqb_finite. }
    by rewrite day_eq.
  - apply div_day_atLeastOne. by apply sub_ofZ_atLeastOne.
Qed.

(** Exact shifts. *)

Lemma shr_1_clean (q : Z) : 0 <= q → shr_1 (clean (q * 2)) = clean q.
Proof.
  intros Hq. destruct q as [|q|q]; [done| |lia].
  replace (Zpos q * 2) with (Zpos q~0) by lia. done.
Qed.

Lemma iter_shr_1_clean (p : positive) (q : Z) :
  0 <= q → SpecFloat.iter_pos shr_1 p (clean (q * 2 ^ Zpos p)) = clean q.
Proof.
  revert q. induction p as [p IH|p IH|]; intros q Hq.
  - assert (0 < 2 ^ Zpos p) by (apply Z.pow_pos_nonneg; lia).
    replace (q * 2 ^ Zpos p~1) with (((q * 2 ^ Zpos p) * 2 ^ Zpos p) * 2).
    + cbn [SpecFloat.iter_pos]. rewrite shr_1_clean, !IH by nia. done.
    + replace (Zpos p~1) with (Zpos p + Zpos p + 1) by lia.
      rewrite !Z.pow_add_r by lia. change (2 ^ 1) with 2. lia.
  - assert (0 < 2 ^ Zpos p) by (apply Z.pow_pos_nonneg; lia).
    replace (q * 2 ^ Zpos p~0) with ((q * 2 ^ Zpos p) * 2 ^ Zpos p).
    + cbn [SpecFloat.iter_pos]. rewrite !IH by nia. done.
    + replace (Zpos p~0) with (Zpos p + Zpos p) by lia.
      rewrite Z.pow_add_r by lia. lia.
  - change (2 ^ 1) with 2. cbn [SpecFloat.iter_pos]. by apply shr_1_clean.
Qed.

(** Rounding a number that has a binary64 representation gives it. *)
Lemma binary_round_scaled (s : bool) (m z : positive) (k : Z) :
  0 <= k → Zpos z < 2 ^ 53 → Zpos m = Zpos z * 2 ^ k →
  ∃ mz, binary_round prec emax s m (- k)
          = S754_finite s mz (Zpos (digits2_pos z) - 53) ∧
        Zpos mz = Zpos z * 2 ^ (53 - Zpos (digits2_pos z)).
Proof.
  intros Hk Hz Hm.
  set (d := Zpos (digits2_pos z)).
  pose proof (digits2_pos_bounds z) as [Hlo _]. fold d in Hlo.
  assert (0 < d <= 53) as Hd.
  { split; [done|]. destruct (Z.le_gt_cases d 53) as [|Hgt]; [done|].
    assert (2 ^ 53 <= 2 ^ (d - 1)) by (apply Z.pow_le_mono_r; lia). lia. }
  assert (Zpos (digits2_pos m) = d + k) as Hdm.
  { change (Zdigits2 (Zpos m) = d + k). rewrite Hm, Zdigits2_mul_pow2 by lia. done. }
  assert (∃ mz, Zpos mz = Zpos z * 2 ^ (53 - d)) as [mz Hmz].
  { assert (0 < Zpos z * 2 ^ (53 - d)) as Hpos
      by (apply Z.mul_pos_pos; [done|apply Z.pow_pos_nonneg; lia]).
    destruct (Zpos z * 2 ^ (53 - d)) as [|mz|] eqn:E; try lia. by exists mz. }
  assert (Zpos (digits2_pos mz) = 53) as Hdz.
  { change (Zdigits2 (Zpos mz) = 53). rewrite Hmz, Zdigits2_mul_pow2 by lia.
    simpl Zdigits2. fold d. lia. }
  assert (fexp prec emax (Zpos (digits2_pos mz) + (d - 53)) = d - 53) as Hcz
    by (rewrite Hdz; unfold fexp, SpecFloat.emin, prec, emax; lia).
  exists mz. split; [|done]. unfold binary_round. rewrite Hdm.
  assert (fexp prec emax (d + k + - k) = d - 53) as ->
    by (unfold fexp, SpecFloat.emin, prec, emax; lia).
  pose proof (shl_align_spec m (- k) (d - 53)) as Hs.
  destruct (shl_align m (- k) (d - 53)) as [m' e']. destruct Hs as [He' Hm'].
  destruct (Z.le_gt_cases (d - 53) (- k)) as [Hle|Hgt].
  - assert (e' = d - 53) as -> by lia.
    assert (m' = mz) as ->.
    { apply Pos2Z.inj. rewrite Hm', Hmz, Hm, <- Z.mul_assoc, <- Z.pow_add_r by lia.
      do 2 f_equal. lia. }
    apply binary_round_aux_canonical; [done|unfold emax, prec; lia].
  - assert (e' = - k) as -> by lia.
    assert (m' = m) as -> by (apply Pos2Z.inj; rewrite Hm', Z.sub_diag; lia).
    unfold binary_round_aux, shr_fexp at 1, shr. simpl Zdigits2. rewrite Hdm.
    assert (fexp prec emax (d + k + - k) = d - 53) as ->
      by (unfold fexp, SpecFloat.emin, prec, emax; lia).
    destruct (d - 53 - - k) as [|p|p] eqn:Hp; try lia.
    change (shr_record_of_loc (Zpos m) loc_Exact) with (clean (Zpos m)).
    replace (Zpos m) with (Zpos mz * 2 ^ Zpos p).
    + rewrite iter_shr_1_clean by lia. simpl.
      replace (- k + Zpos p) with (d - 53) by lia.
      rewrite shr_fexp_id by (simpl Zdigits2; lia). simpl.
      assert ((d - 53 <=? emax - prec) = true) as -> by (apply Z.leb_le; unfold emax, prec; lia).
      done.
    + rewrite Hmz, Hm, <- Z.mul_assoc, <- Z.pow_add_r by lia. do 2 f_equal. lia.
Qed.

(** The number of an integer below [2^53], in full. *)
Lemma ofZ_canonical (t : Z) :
  t ≠ 0 → Z.abs t < 2 ^ 53 →
  ∃ m, ofZ t = S754_finite (t <? 0) m (Zdigits2 t - 53) ∧
       Zpos m = Z.abs t * 2 ^ (53 - Zdigits2 t).
Proof.
  intros Ht Hlt.
  assert (∃ p, Z.abs t = Zpos p ∧ Zdigits2 t = Zpos (digits2_pos p) ∧
               ofZ t = binary_round prec emax (t <? 0) p (- 0))
    as (p & Hp & Hd & Ho).
  { destruct t as [|p|p]; [done| |]; exists p; repeat split. }
  rewrite Hd, Ho. clear Hd Ho.
  rewrite Hp in *.
  destruct (binary_round_scaled (t <? 0) p p 0) as (m & -> & Hm); try done; [lia|].
  by exists m.
Qed.

Lemma sub_ofZ (a b : Z) :
  Z.abs a < 2 ^ 52 → Z.abs b < 2 ^ 52 → sub (ofZ a) (ofZ b) = ofZ (a - b).
Proof.
  intros Ha Hb.
  assert (2 ^ 53 = 2 * 2 ^ 52) as H53 by done.
  destruct (decide (a = 0)) as [->|Hna], (decide (b = 0)) as [->|Hnb]; [done|..].
  - destruct (ofZ_canonical b Hnb ltac:(lia)) as (m & -> & Hm).
    destruct (ofZ_canonical (0 - b) ltac:(lia) ltac:(lia)) as (m' & -> & Hm').
    rewrite ofZ_zero. simpl.
    assert (Zdigits2 (0 - b) = Zdigits2 b) as Hd by (destruct b; done).
    rewrite Hd in *. f_equal.
    + destruct (Z.ltb_spec b 0), (Z.ltb_spec (0 - b) 0); try done; lia.
    + apply Pos2Z.inj. rewrite Hm, Hm'. f_equal. lia.
  - rewrite Z.sub_0_r, ofZ_zero. unfold sub. by destruct (ofZ a) as [[]| | |].
  - destruct (ofZ_canonical a Hna ltac:(lia)) as (ma & -> & Hma).
    destruct (ofZ_canonical b Hnb ltac:(lia)) as (mb & -> & Hmb).
    pose proof (Zdigits2_bounds (Z.abs a) ltac:(lia)) as [Hloa _].
    pose proof (Zdigits2_bounds (Z.abs b) ltac:(lia)) as [Hlob _].
    assert (Zdigits2 (Z.abs a) = Zdigits2 a) as Hda by (destruct a; done).
    assert (Zdigits2 (Z.abs b) = Zdigits2 b) as Hdb by (destruct b; done).
    rewrite Hda in *. rewrite Hdb in *.
    pose proof (Zdigits2_pos (Z.abs a) ltac:(lia)) as Hpa. rewrite Hda in Hpa.
    pose proof (Zdigits2_pos (Z.abs b) ltac:(lia)) as Hpb. rewrite Hdb in Hpb.
    assert (Zdigits2 a <= 53 ∧ Zdigits2 b <= 53) as [Hla Hlb].
    { split.
      - destruct (Z.le_gt_cases (Zdigits2 a) 53) as [|Hgt]; [done|].
        assert (2 ^ 53 <= 2 ^ (Zdigits2 a - 1)) by (apply Z.pow_le_mono_r; lia). lia.
      - destruct (Z.le_gt_cases (Zdigits2 b) 53) as [|Hgt]; [done|].
        assert (2 ^ 53 <= 2 ^ (Zdigits2 b - 1)) by (apply Z.pow_le_mono_r; lia). lia. }
    unfold sub, SFsub.
    set (ea := Zdigits2 a - 53) in *. set (eb := Zdigits2 b - 53) in *.
    pose proof (shl_align_spec ma ea (Z.min ea eb)) as Hxa.
    pose proof (shl_align_spec mb eb (Z.min ea eb)) as Hxb.
    destruct (shl_align ma ea _) as [ma' ea'], (shl_align mb eb _) as [mb' eb'].
    destruct Hxa as [Hea' Hma'], Hxb as [Heb' Hmb']. simpl fst.
    set (ez := Z.min ea eb) in *.
    assert (Zpos ma' = Z.abs a * 2 ^ (- ez)) as ->.
    { rewrite Hma', Hma, <- Z.mul_assoc, <- Z.pow_add_r by lia. do 2 f_equal. lia. }
    assert (Zpos mb' = Z.abs b * 2 ^ (- ez)) as ->.
    { rewrite Hmb', Hmb, <- Z.mul_assoc, <- Z.pow_add_r by lia. do 2 f_equal. lia. }
    rewrite !cond_Zopp_abs, <- Z.mul_sub_distr_r.
    assert (0 < 2 ^ (- ez)) as Hpow by (apply Z.pow_pos_nonneg; lia).
    destruct (decide (a - b = 0)) as [Hz|Hnz]; [by rewrite Hz|].
    destruct (ofZ_canonical (a - b) Hnz ltac:(lia)) as (mc & -> & Hmc).
    assert (∃ z, Z.abs (a - b) = Zpos z ∧
                 Zdigits2 (a - b) = Zpos (digits2_pos z)) as (z & Hz & Hdz)
      by (destruct (a - b) as [|z|z]; [done|by exists z..]).
    assert (∃ M, Z.abs ((a - b) * 2 ^ (- ez)) = Zpos M ∧
                 binary_normalize prec emax ((a - b) * 2 ^ (- ez)) ez false
                 = binary_round prec emax (a - b <? 0) M ez) as (M & HM & ->).
    { destruct ((a - b) * 2 ^ (- ez)) as [|M|M] eqn:E.
      - nia.
      - exists M. split; [done|]. simpl. destruct (Z.ltb_spec (a - b) 0); [nia|done].
      - exists M. split; [done|]. simpl. destruct (Z.ltb_spec (a - b) 0); [done|nia]. }
    rewrite Z.abs_mul, (Z.abs_eq (2 ^ _)), Hz in HM by lia.
    destruct (binary_round_scaled (a - b <? 0) M z (- ez)) as (mz & Hr & Hmz);
      [lia|lia|done|].
    rewrite Z.opp_involutive in Hr. rewrite Hr, Hdz. f_equal.
    apply Pos2Z.inj. rewrite Hmz, Hmc, Hz, Hdz. done.
Qed.

Lemma abs_ofZ (z : Z) : Z.abs z < 2 ^ 53 → SFabs (ofZ z) = ofZ (Z.abs z).
Proof.
  intros Hz. destruct (decide (z = 0)) as [->|Hnz]; [done|].
  destruct (ofZ_canonical z Hnz Hz) as (m & -> & Hm).
  destruct (ofZ_canonical (Z.abs z) ltac:(lia) ltac:(lia)) as (m' & -> & Hm').
  assert (Zdigits2 (Z.abs z) = Zdigits2 z) as Hd by (destruct z; done).
  rewrite Hd, Z.abs_idemp in *. simpl.
  destruct (Z.ltb_spec (Z.abs z) 0); [lia|].
  do 2 f_equal. apply Pos2Z.inj. by rewrite Hm, Hm'.
Qed.

Lemma leb_ofZ (u t : Z) :
  0 <= u < 2 ^ 53 → 0 <= t < 2 ^ 53 → SFleb (ofZ u) (ofZ t) = (u <=? t).
Proof.
  intros Hu Ht.
  destruct (decide (u = 0)) as [->|Hnu], (decide (t = 0)) as [->|Hnt]; [done|..].
  - destruct (ofZ_canonical t Hnt ltac:(lia)) as (m & -> & _). rewrite ofZ_zero.
    destruct (Z.ltb_spec t 0); [lia|]. destruct (Z.leb_spec 0 t); [done|lia].
  - destruct (ofZ_canonical u Hnu ltac:(lia)) as (m & -> & _). rewrite ofZ_zero.
    destruct (Z.ltb_spec u 0); [lia|]. destruct (Z.leb_spec u 0); [lia|done].
  - destruct (ofZ_canonical u Hnu ltac:(lia)) as (mu & -> & Hmu).
    destruct (ofZ_canonical t Hnt ltac:(lia)) as (mt & -> & Hmt).
    rewrite Z.abs_eq in Hmu, Hmt by lia.
    destruct (Z.ltb_spec u 0), (Z.ltb_spec t 0); try lia.
    pose proof (Zdigits2_bounds u ltac:(lia)) as [Hlou Hhiu].
    pose proof (Zdigits2_bounds t ltac:(lia)) as [Hlot Hhit].
    unfold SFleb, SFcompare. rewrite Pos.compare_cont_spec. simpl Pos.switch_Eq.
    destruct (Z.compare_spec (Zdigits2 u - 53) (Zdigits2 t - 53)) as [He|He|He].
    + assert (Zdigits2 u = Zdigits2 t) as Hd by lia. rewrite Hd in *.
      assert (0 < 2 ^ (53 - Zdigits2 t)) as Hpow.
      { apply Z.pow_pos_nonneg; [lia|].
        destruct (Z.le_gt_cases (Zdigits2 t) 53) as [|Hgt]; [lia|].
        assert (2 ^ 53 <= 2 ^ (Zdigits2 t - 1)) by (apply Z.pow_le_mono_r; lia). lia. }
      destruct (Pos.compare_spec mu mt) as [Hc|Hc|Hc];
        destruct (Z.leb_spec u t); try done; nia.
    + assert (2 ^ Zdigits2 u <= 2 ^ (Zdigits2 t - 1)) by (apply Z.pow_le_mono_r; lia).
      destruct (Z.leb_spec u t); [done|lia].
    + assert (2 ^ Zdigits2 t <= 2 ^ (Zdigits2 u - 1)) by (apply Z.pow_le_mono_r; lia).
      destruct (Z.leb_spec u t); [lia|done].
Qed.

(** On integers the comparison of a difference with a tolerance is exact. *)
Lemma leb_abs_sub_ofZ (a b t : Z) :
  Z.abs a < 2 ^ 52 → Z.abs b < 2 ^ 52 → 0 <= t < 2 ^ 53 →
  leb (abs (sub (ofZ a) (ofZ b))) (ofZ t) = (Z.abs (a - b) <=? t).
Proof.
  intros Ha Hb Ht. unfold leb, abs. assert (2 ^ 53 = 2 * 2 ^ 52) as H53 by done.
  rewrite sub_ofZ, abs_ofZ by lia. apply leb_ofZ; lia.
Qed.

End NumFacts.

Local Open Scope list_scope.

Section Loops.

Context (h : Host) (aRows bRows : list Row)
  (mapping : option (gmap string FieldPair)) (mode : Mode) (rules : option Rules).

Local Abbreviation index := (bIndex h bRows mapping mode rules).
Local Abbreviation enterB := (enter h mapping mode rules).
Local Abbreviation keyOfB := (keyB h mapping mode rules).
Local Abbreviation joined := (lookupB h bRows mapping mode rules).
Local Abbreviation classOf := (classA h bRows mapping mode rules).
Local Abbreviation recA := (recordA h bRows mapping mode rules).
Local Abbreviation recB := (recordB h mapping mode).
Local Abbreviation probeA := (probe h bRows mapping mode rules).
Local Abbreviation sweepB := (sweep h mapping mode).
Local Abbreviation used := (usedIds h aRows bRows mapping mode rules).

(** *** Lists *)

Lemma filter_fmap_comm {A B} (f : A → B) (P : B → Prop) `{!∀ y, Decision (P y)}
    (l : list A) :
  filter P (f <$> l) = f <$> filter (λ x, P (f x)) l.
Proof.
  induction l as [|x l IH]; [done|].
  rewrite fmap_cons, !filter_cons, IH. by case_decide.
Qed.

Lemma filter_eq_NoDup {A} `{!EqDecision A} (l : list A) (y : A) :
  NoDup l → filter (λ z, z = y) l = if decide (y ∈ l) then [y] else [].
Proof.
  induction 1 as [|z l Hz Hnd IH]; [done|].
  rewrite filter_cons, IH.
  repeat case_decide; simplify_eq; try done; exfalso;
    repeat match goal with
           | H : _ ∉ _ :: _ |- _ => rewrite not_elem_of_cons in H; destruct H
           | H : _ ∈ _ :: _ |- _ => rewrite elem_of_cons in H; destruct H
           end; done.
Qed.

Lemma omap_fmap_Some {A B} (f : A → B) (g : B → option A) (l : list A) :
  (∀ x, g (f x) = Some x) → omap g (f <$> l) = l.
Proof.
  intros Hg. induction l as [|x l IH]; [done|]. csimpl. by rewrite Hg, IH.
Qed.

Lemma omap_fmap_None {A B C} (f : A → B) (g : B → option C) (l : list A) :
  (∀ x, g (f x) = None) → omap g (f <$> l) = [].
Proof.
  intros Hg. induction l as [|x l IH]; [done|]. csimpl. by rewrite Hg, IH.
Qed.

(** The rows of a parsed file have distinct identifiers. *)
Lemma rowsOf_NoDup (data : list (gmap string string)) :
  NoDup (rowId <$> rowsOf data).
Proof.
  unfold rowsOf. rewrite fmap_imap.
  apply NoDup_alt. intros i j n Hi Hj.
  rewrite list_lookup_imap in Hi, Hj.
  destruct (data !! i), (data !! j); simplify_eq/=. lia.
Qed.

(** *** The lookup for B *)

Lemma foldl_pointwise {A B} (f g : A → B → A) (l : list B) (x : A) :
  (∀ y z, f y z = g y z) → foldl f x l = foldl g x l.
Proof.
  intros Hfg. revert x. induction l as [|z l IH]; intros x; simpl; [done|].
  by rewrite Hfg, IH.
Qed.

Lemma bIndex_enter : index = foldl enterB ∅ bRows.
Proof.
  unfold bIndex. destruct mode; apply foldl_pointwise; intros idx r;
    unfold enter, keyB; simpl.
  - by destruct (truthy _).
  - done.
Qed.

(** After the first loop a key is bound to the first row of the list that
    is entered under it, unless it was bound before. *)
Lemma foldl_enter_lookup (l : list Row) (idx : gmap string Row) (k : string) :
  foldl enterB idx l !! k =
    match idx !! k with
    | Some r => Some r
    | None => snd <$> list_find (λ r, keyOfB r = Some k) l
    end.
Proof.
  revert idx. induction l as [|r l IH]; intros idx; simpl.
  - by destruct (idx !! k).
  - rewrite IH. unfold enter, setIfAbsent.
    destruct (keyOfB r) as [k'|] eqn:Hk.
    + destruct (decide (k' = k)) as [->|Hne].
      * rewrite decide_True by done.
        destruct (idx !! k) eqn:Hi; simpl; [by rewrite Hi|].
        by rewrite lookup_insert_eq.
      * rewrite decide_False by congruence.
        destruct (idx !! k') eqn:Hi'.
        -- destruct (idx !! k); [done|]. by destruct (list_find _ l) as [[??]|].
        -- rewrite lookup_insert_ne by done.
           destruct (idx !! k); [done|]. by destruct (list_find _ l) as [[??]|].
    + rewrite decide_False by congruence.
      destruct (idx !! k); [done|]. by destruct (list_find _ l) as [[??]|].
Qed.

Lemma bIndex_lookup (k : string) :
  index !! k = snd <$> list_find (λ r, keyOfB r = Some k) bRows.
Proof. by rewrite bIndex_enter, foldl_enter_lookup, lookup_empty. Qed.

(** *** The loop over A *)

Lemma probe_push (st : State) (a : Row) :
  probeA st a =
    push (classOf a) (recA a) (from_option (λ b, markUsed b st) st (joined a)).
Proof.
  unfold probe, classA, recordA, lookupB, amountOk, dateOk.
  destruct (if truthy _ then _ else _) as [b|]; simpl; [|done].
  destruct (ok (compareAmounts _ _ _ _)), (ok (compareDates _ _ _ _)); done.
Qed.

Lemma probe_results (l : list Row) (st : State) :
  st_results (foldl probeA st l) = st_results st ++ (recA <$> l).
Proof.
  revert st. induction l as [|a l IH]; intros st; simpl.
  - by rewrite app_nil_r.
  - rewrite IH, probe_push. simpl.
    destruct (joined a); simpl; by rewrite <- app_assoc.
Qed.

Lemma probe_bUsed (l : list Row) (st : State) :
  st_bUsed (foldl probeA st l) =
    list_to_set (rowId <$> omap joined l) ∪ st_bUsed st.
Proof.
  revert st. induction l as [|a l IH]; intros st; simpl.
  - by rewrite (left_id_L ∅ (∪)).
  - rewrite IH, probe_push. destruct (joined a); simpl; [|done].
    rewrite (assoc_L (∪)). f_equal. apply (comm_L (∪)).
Qed.

Lemma probe_counts (l : list Row) (st : State) :
  st_counts (foldl probeA st l) =
    foldl (λ c a, incr (classOf a) c) (st_counts st) l.
Proof.
  revert st. induction l as [|a l IH]; intros st; simpl; [done|].
  rewrite IH, probe_push. by destruct (joined a).
Qed.

(** *** The loop over B *)

Lemma sweep_push (st : State) (b : Row) :
  sweepB st b =
    if bool_decide (rowId b ∉ st_bUsed st) then push K_MISSING_IN_A (recB b) st else st.
Proof. done. Qed.

Lemma sweep_bUsed (l : list Row) (st : State) :
  st_bUsed (foldl sweepB st l) = st_bUsed st.
Proof.
  revert st. induction l as [|b l IH]; intros st; simpl; [done|].
  rewrite IH, sweep_push. by case_bool_decide.
Qed.

Lemma sweep_step_bUsed (st : State) (b : Row) :
  st_bUsed (sweepB st b) = st_bUsed st.
Proof. rewrite sweep_push. by case_bool_decide. Qed.

Lemma sweep_results (l : list Row) (st : State) :
  st_results (foldl sweepB st l) =
    st_results st ++ (recB <$> filter (λ b, rowId b ∉ st_bUsed st) l).
Proof.
  revert st. induction l as [|b l IH]; intros st; simpl.
  - by rewrite app_nil_r.
  - rewrite IH, sweep_step_bUsed, sweep_push, filter_cons.
    case_bool_decide as Hb.
    + case_decide; [|done]. simpl. by rewrite <- app_assoc.
    + by case_decide.
Qed.

Lemma sweep_counts (l : list Row) (st : State) :
  st_counts (foldl sweepB st l) =
    Nat.iter (length (filter (λ b, rowId b ∉ st_bUsed st) l))
      (incr K_MISSING_IN_A) (st_counts st).
Proof.
  revert st. induction l as [|b l IH]; intros st; simpl; [done|].
  rewrite IH, sweep_step_bUsed, sweep_push, filter_cons.
  case_bool_decide as Hb.
  - case_decide; [|done]. cbn [length]. by rewrite Nat.iter_succ_r.
  - by case_decide.
Qed.

(** *** The output *)

Lemma reconcile_results :
  results (reconcile h aRows bRows mapping mode rules) =
    (recA <$> aRows) ++ (recB <$> unmatched h aRows bRows mapping mode rules).
Proof.
  unfold reconcile, unmatched, usedIds. simpl.
  rewrite sweep_results, probe_results, probe_bUsed. simpl.
  by rewrite (right_id_L ∅ (∪)).
Qed.

Lemma reconcile_counts :
  counts (summary (reconcile h aRows bRows mapping mode rules)) =
    Nat.iter (length (unmatched h aRows bRows mapping mode rules))
      (incr K_MISSING_IN_A)
      (foldl (λ c a, incr (classOf a) c) (st_counts init) aRows).
Proof.
  unfold reconcile, unmatched, usedIds. simpl.
  rewrite sweep_counts, probe_counts, probe_bUsed. simpl.
  by rewrite (right_id_L ∅ (∪)).
Qed.

Lemma reconcile_total :
  total (summary (reconcile h aRows bRows mapping mode rules)) =
    length (results (reconcile h aRows bRows mapping mode rules)).
Proof. done. Qed.

(** *** Joined rows *)

Lemma joined_Some (x y : Row) :
  joined x = Some y →
  ∃ n, bRows !! n = Some y ∧ keyOfB y = Some (keyA h mapping mode rules x) ∧
       ∀ m z, bRows !! m = Some z → m < n → keyOfB z ≠ Some (keyA h mapping mode rules x).
Proof.
  unfold lookupB. destruct (truthy _); [|done].
  rewrite bIndex_lookup. intros Hf.
  destruct (list_find _ bRows) as [[n y']|] eqn:Hfind; simplify_eq/=.
  apply list_find_Some in Hfind as (Hn & Hk & Hfirst). eauto.
Qed.

Lemma joined_elem_of (x y : Row) : joined x = Some y → y ∈ bRows.
Proof.
  intros (n & Hn & _)%joined_Some. by eapply list_elem_of_lookup_2.
Qed.

(** A row that comes after a row entered under the same key is joined to
    no A row. *)
Lemma later_duplicate_not_joined (i j : nat) (y1 y2 : Row) (k : string) (x : Row) :
  NoDup bRows →
  bRows !! i = Some y1 → bRows !! j = Some y2 → i < j →
  keyOfB y1 = Some k → keyOfB y2 = Some k →
  joined x ≠ Some y2.
Proof.
  intros Hnd Hi Hj Hij Hk1 Hk2 (n & Hn & Hk & Hfirst)%joined_Some.
  assert (n = j) as -> by (eapply NoDup_lookup; eauto).
  apply (Hfirst i y1 Hi Hij). congruence.
Qed.

(** A row that is entered under no key is joined to no A row. *)
Lemma not_entered_not_joined (x y : Row) : keyOfB y = None → joined x ≠ Some y.
Proof. intros Hk (n & _ & Hk' & _)%joined_Some. congruence. Qed.

Lemma rowId_inj (y y' : Row) :
  NoDup (rowId <$> bRows) → y ∈ bRows → y' ∈ bRows → rowId y = rowId y' → y = y'.
Proof.
  intros Hnd [i Hi]%list_elem_of_lookup_1 [j Hj]%list_elem_of_lookup_1 Heq.
  assert (i = j) as ->; [|congruence].
  eapply (NoDup_lookup _ _ _ (rowId y) Hnd); rewrite list_lookup_fmap.
  - by rewrite Hi.
  - by rewrite Hj, Heq.
Qed.

Lemma elem_of_usedIds (n : nat) :
  n ∈ used ↔ ∃ x y, x ∈ aRows ∧ joined x = Some y ∧ rowId y = n.
Proof.
  unfold usedIds. rewrite elem_of_list_to_set, list_elem_of_fmap.
  setoid_rewrite list_elem_of_omap. split.
  - intros (y & -> & x & Hx & Hj). by exists x, y.
  - intros (x & y & Hx & Hj & <-). exists y. split; [done|]. by exists x.
Qed.

Lemma used_joined (y : Row) :
  NoDup (rowId <$> bRows) → y ∈ bRows →
  rowId y ∈ used ↔ ∃ x, x ∈ aRows ∧ joined x = Some y.
Proof.
  intros Hnd Hy. rewrite elem_of_usedIds. split.
  - intros (x & y' & Hx & Hj & Hid). exists x. split; [done|].
    rewrite Hj. f_equal. eapply rowId_inj; eauto using joined_elem_of.
  - intros (x & Hx & Hj). eauto.
Qed.

Lemma elem_of_unmatched (y : Row) :
  NoDup (rowId <$> bRows) →
  y ∈ unmatched h aRows bRows mapping mode rules ↔
    y ∈ bRows ∧ ∀ x, x ∈ aRows → joined x ≠ Some y.
Proof.
  intros Hnd. unfold unmatched. rewrite list_elem_of_filter. split.
  - intros [Hn Hy]. split; [done|]. intros x Hx Hj.
    apply Hn, used_joined; eauto.
  - intros [Hy Hn]. split; [|done]. rewrite used_joined by done.
    intros (x & Hx & Hj). by eapply Hn.
Qed.

(** *** The fields of the records *)

Lemma recordA_a (x : Row) : a (recA x) = Some x.
Proof. unfold recordA. destruct (joined x); [destruct (_ && _)|]; done. Qed.

Lemma recordA_b (x : Row) : b (recA x) = joined x.
Proof. unfold recordA. destruct (joined x); [destruct (_ && _)|]; done. Qed.

Lemma recordA_status (x : Row) :
  (status (recA x), classOf x) ∈
    [("MISSING_IN_B", K_MISSING_IN_B); ("MATCHED", K_MATCHED); ("mismatch", K_MISMATCH)].
Proof.
  unfold recordA, classA. destruct (joined x); [destruct (_ && _)|]; set_solver.
Qed.

Lemma recordA_status_joined (x : Row) :
  status (recA x) = "MISSING_IN_B" ↔ joined x = None.
Proof.
  unfold recordA. destruct (joined x); [destruct (_ && _)|]; naive_solver.
Qed.

Lemma statuses_emitted :
  Forall (λ r, status r ∈ ["MATCHED"; "mismatch"; "MISSING_IN_B"; "MISSING_IN_A"])
         (results (reconcile h aRows bRows mapping mode rules)).
Proof.
  rewrite reconcile_results. apply Forall_app. split; apply Forall_fmap, Forall_forall.
  - intros x _. simpl. unfold recordA.
    destruct (joined x); [destruct (_ && _)|]; simpl; set_solver.
  - intros y _. simpl. set_solver.
Qed.

(** A joined pair on which a comparator fails gets the status string
    ["mismatch"] and is counted under MISMATCH. *)
Lemma failed_pair_status (x y : Row) :
  joined x = Some y →
  amountOk h mapping rules x y && dateOk h mapping rules x y = false →
  status (recA x) = "mismatch" ∧ classOf x = K_MISMATCH ∧
  reason (recA x) = mismatchReason h x y.
Proof.
  intros Hj Hok. unfold recordA, classA. by rewrite Hj, Hok.
Qed.

(** *** Counters *)

Lemma sumCounts_incr (k : Counter) (c : Counts) :
  sumCounts (incr k c) = S (sumCounts c).
Proof. destruct k; unfold sumCounts; simpl; lia. Qed.

Lemma sumCounts_classes (l : list Row) (c : Counts) :
  sumCounts (foldl (λ c x, incr (classOf x) c) c l) = length l + sumCounts c.
Proof.
  revert c. induction l as [|x l IH]; intros c; simpl; [done|].
  rewrite IH, sumCounts_incr. lia.
Qed.

Lemma sumCounts_iter (n : nat) (k : Counter) (c : Counts) :
  sumCounts (Nat.iter n (incr k) c) = n + sumCounts c.
Proof.
  induction n as [|n IH]; simpl; [done|]. rewrite sumCounts_incr, IH. lia.
Qed.

Lemma tallied_push (k : Counter) (r : Result) (st : State) :
  status r = statusOf k → tallied st → tallied (push k r st).
Proof.
  intros Hs Hst k'. unfold push; simpl.
  rewrite filter_app, length_app, <- Hst, filter_cons, filter_nil, Hs.
  destruct k, k'; simpl; try case_decide; simpl; (done || lia).
Qed.

Lemma recordA_statusOf (x : Row) : status (recA x) = statusOf (classOf x).
Proof.
  unfold recordA, classA. by destruct (joined x); [destruct (_ && _)|].
Qed.

Lemma tallied_probe (l : list Row) (st : State) :
  tallied st → tallied (foldl probeA st l).
Proof.
  revert st. induction l as [|x l IH]; intros st Hst; simpl; [done|].
  apply IH. rewrite probe_push. apply tallied_push; [apply recordA_statusOf|].
  by destruct (joined x).
Qed.

Lemma tallied_sweep (l : list Row) (st : State) :
  tallied st → tallied (foldl sweepB st l).
Proof.
  revert st. induction l as [|y l IH]; intros st Hst; simpl; [done|].
  apply IH. rewrite sweep_push. case_bool_decide; [|done].
  by apply tallied_push.
Qed.

Lemma counters_tally (k : Counter) :
  counterOf k (counts (summary (reconcile h aRows bRows mapping mode rules)))
    = length (filter (λ r, status r = statusOf k)
                (results (reconcile h aRows bRows mapping mode rules))).
Proof.
  unfold reconcile; simpl. apply tallied_sweep, tallied_probe. by intros [].
Qed.

(** ** The claims on the shape of the output *)

(** C3. The four counters of the summary add up to [total], and [total] is
    the number of records. *)
Theorem summary_adds_up :
  let out := reconcile h aRows bRows mapping mode rules in
  MATCHED (counts (summary out)) + MISMATCH (counts (summary out)) +
    MISSING_IN_A (counts (summary out)) + MISSING_IN_B (counts (summary out))
    = total (summary out)
  ∧ total (summary out) = length (results out).
Proof.
  intros out. split; [|done].
  change (sumCounts (counts (summary out)) = total (summary out)).
  unfold out. rewrite reconcile_total, reconcile_counts, reconcile_results.
  rewrite sumCounts_iter, sumCounts_classes, length_app, !length_fmap.
  unfold sumCounts; simpl. lia.
Qed.

(** C9. The records come in two runs: one record per row of A, in the order
    of A, counted under MISSING_IN_B, MATCHED or MISMATCH (the record of
    the last class carries the status string ["mismatch"]); then one
    MISSING_IN_A record per row of B whose identifier was not marked used,
    in the order of B. *)
Theorem results_order :
  ∃ ra rb,
    results (reconcile h aRows bRows mapping mode rules) = ra ++ rb ∧
    Forall2 (λ x r, a r = Some x ∧
               (status r, classOf x) ∈
                 [("MISSING_IN_B", K_MISSING_IN_B); ("MATCHED", K_MATCHED);
                  ("mismatch", K_MISMATCH)])
            aRows ra ∧
    Forall2 (λ y r, a r = None ∧ b r = Some y ∧ status r = "MISSING_IN_A")
            (filter (λ y, rowId y ∉ used) bRows) rb.
Proof.
  exists (recA <$> aRows), (recB <$> unmatched h aRows bRows mapping mode rules).
  split; [apply reconcile_results|]. split.
  - apply Forall2_fmap_r, Forall_Forall2_diag, Forall_forall.
    intros x _. split; [apply recordA_a | apply recordA_status].
  - apply Forall2_fmap_r, Forall_Forall2_diag, Forall_forall. done.
Qed.

(** C1, as it holds. Every row of A is the [a] reference of exactly one
    record: the [a] references, in order, are the rows of A. Every row of B
    is the [b] reference of at least one record: of one MISSING_IN_A record
    when no row of A is joined to it, and otherwise of the record of each
    row of A joined to it, which are several when several rows of A have
    its key. *)
Theorem rows_covered :
  NoDup (rowId <$> bRows) →
  let rs := results (reconcile h aRows bRows mapping mode rules) in
  omap a rs = aRows ∧
  ∀ y, y ∈ bRows →
    filter (λ r, b r = Some y) rs =
      match filter (λ x, joined x = Some y) aRows with
      | [] => [recB y]
      | xs => recA <$> xs
      end.
Proof.
  intros Hnd rs. unfold rs. rewrite reconcile_results. split.
  - rewrite omap_app, (omap_fmap_Some recA), (omap_fmap_None recB);
      auto using recordA_a, app_nil_r.
  - intros y Hy. set (xs := filter (λ x, joined x = Some y) aRows).
    rewrite filter_app, !filter_fmap_comm.
    rewrite (list_filter_iff _ (λ x, joined x = Some y))
      by (intros x; by rewrite recordA_b).
    rewrite (list_filter_iff (λ z, b (recB z) = Some y) (λ z, z = y))
      by (intros z; simpl; naive_solver).
    rewrite filter_eq_NoDup
      by (unfold unmatched; apply NoDup_filter; by eapply NoDup_fmap_1).
    fold xs. destruct xs as [|x xs'] eqn:Hxs.
    + rewrite decide_True; [done|].
      apply elem_of_unmatched; [done|]. split; [done|].
      intros x Hx Hj. eapply (filter_nil_not_elem_of _ _ x Hxs); done.
    + rewrite decide_False; [by rewrite app_nil_r|].
      intros [_ Hn]%elem_of_unmatched; [|done].
      assert (x ∈ filter (λ x, joined x = Some y) aRows) as [Hj Hx]%list_elem_of_filter
        by (fold xs; rewrite Hxs; left).
      by eapply Hn.
Qed.

(** C5. Of the rows of B entered under one key, only the first is ever
    joined: a later one is referenced by MISSING_IN_A records only, and by
    one of them. *)
Theorem duplicate_keys_first_wins (i j : nat) (y1 y2 : Row) (k : string) :
  NoDup (rowId <$> bRows) →
  bRows !! i = Some y1 → bRows !! j = Some y2 → i < j →
  keyOfB y1 = Some k → keyOfB y2 = Some k →
  let rs := results (reconcile h aRows bRows mapping mode rules) in
  (∀ r, r ∈ rs → b r = Some y2 → status r = "MISSING_IN_A" ∧ a r = None) ∧
  (∃ r, r ∈ rs ∧ b r = Some y2 ∧ status r = "MISSING_IN_A").
Proof.
  intros Hnd Hi Hj Hij Hk1 Hk2 rs.
  assert (∀ x, joined x ≠ Some y2) as Hnot.
  { intros x. apply (later_duplicate_not_joined i j y1 y2 k x); try done.
    by eapply NoDup_fmap_1. }
  unfold rs. rewrite reconcile_results. split.
  - intros r [Hr|Hr]%elem_of_app Hb.
    + apply list_elem_of_fmap in Hr as (x & -> & _).
      rewrite recordA_b in Hb. by destruct (Hnot x).
    + by apply list_elem_of_fmap in Hr as (y & -> & _).
  - exists (recB y2). split; [|done].
    apply elem_of_app; right. apply list_elem_of_fmap_2.
    apply elem_of_unmatched; [done|]. split; [|by auto].
    by eapply list_elem_of_lookup_2.
Qed.

End Loops.

(** ** Empty identifiers in auto mode *)

Lemma stringify_nullish (h : Host) (v : value) :
  stringify h (nullish v (VStr "")) = stringify h v.
Proof. by destruct v. Qed.

(** The ID columns are always resolved: to the names of the mapping, or to
    [transaction_id]. *)
Lemma idField_resolved (mapping : option (gmap string FieldPair)) :
  ∃ fA fB, fa (idField mapping) = Some fA ∧ fb (idField mapping) = Some fB ∧
           fA ≠ "" ∧ fB ≠ "".
Proof.
  unfold idField, pickField.
  destruct (from_option _ None mapping) as [[[sa|] [sb|]]|]; simpl;
    try destruct (truthy sa) eqn:Ha; try destruct (truthy sb) eqn:Hb; simpl;
    do 2 eexists; (split; [reflexivity|split; [reflexivity|]]);
    unfold truthy in *; split; try done;
    by match goal with H : negb (bool_decide (?s = "")) = true |- ?s ≠ "" =>
         apply negb_true_iff, bool_decide_eq_false in H end.
Qed.

Lemma keyB_auto_empty (h : Host) mapping rules (fB : string) (y : Row) :
  fb (idField mapping) = Some fB →
  stringify h (prop y fB) = "" →
  keyB h mapping Auto rules y = None.
Proof.
  intros HfB Hid. unfold keyB. rewrite HfB. simpl.
  destruct (truthy fB); simpl; [by rewrite Hid|done].
Qed.

Lemma lookupB_auto_empty (h : Host) bRows mapping rules (fA : string) (x : Row) :
  fa (idField mapping) = Some fA →
  stringify h (prop x fA) = "" →
  lookupB h bRows mapping Auto rules x = None.
Proof.
  intros HfA Hid. unfold lookupB, keyA, aKeyField, propOpt.
  rewrite HfA, stringify_nullish. simpl. by rewrite Hid.
Qed.

(** C10. In auto mode a row of B whose ID is empty after trimming is never
    entered in the lookup, is referenced by a MISSING_IN_A record and by no
    other record; the record of a row of A whose ID is empty after trimming
    is a MISSING_IN_B record without a B row. So two such rows never match
    each other. *)
Theorem empty_ids_never_match (h : Host) (aRows bRows : list Row)
    (mapping : option (gmap string FieldPair)) (rules : option Rules)
    (fA fB : string) :
  NoDup (rowId <$> bRows) →
  fa (idField mapping) = Some fA →
  fb (idField mapping) = Some fB →
  let rs := results (reconcile h aRows bRows mapping Auto rules) in
  (∀ y, y ∈ bRows → stringify h (prop y fB) = "" →
     (∀ k, bIndex h bRows mapping Auto rules !! k ≠ Some y) ∧
     (∃ r, r ∈ rs ∧ b r = Some y ∧ a r = None ∧ status r = "MISSING_IN_A") ∧
     (∀ r, r ∈ rs → b r = Some y → a r = None ∧ status r = "MISSING_IN_A")) ∧
  (∀ i x, aRows !! i = Some x → stringify h (prop x fA) = "" →
     ∃ r, rs !! i = Some r ∧ a r = Some x ∧ b r = None ∧ status r = "MISSING_IN_B").
Proof.
  intros Hnd HfA HfB rs. unfold rs. rewrite reconcile_results. split.
  - intros y Hy Hid.
    pose proof (keyB_auto_empty h mapping rules fB y HfB Hid) as Hk.
    assert (∀ x, lookupB h bRows mapping Auto rules x ≠ Some y) as Hnot
      by (intros x; by apply not_entered_not_joined).
    split; [|split].
    + intros k Hidx. rewrite bIndex_lookup in Hidx.
      destruct (list_find _ bRows) as [[n y']|] eqn:Hfind; simplify_eq/=.
      apply list_find_Some in Hfind as (_ & Hk' & _). congruence.
    + exists (recordB h mapping Auto y). split; [|done].
      apply elem_of_app; right. apply list_elem_of_fmap_2.
      apply elem_of_unmatched; auto.
    + intros r [Hr|Hr]%elem_of_app Hb.
      * apply list_elem_of_fmap in Hr as (x & -> & _).
        rewrite recordA_b in Hb. by destruct (Hnot x).
      * by apply list_elem_of_fmap in Hr as (z & -> & _).
  - intros i x Hi Hid.
    exists (recordA h bRows mapping Auto rules x). split.
    + apply lookup_app_l_Some. by rewrite list_lookup_fmap, Hi.
    + unfold recordA.
      by rewrite (lookupB_auto_empty h bRows mapping rules fA x HfA Hid).
Qed.

(** ** The key builder *)

Section KeyBuilder.

Context (h : Host) (rules : option Rules).

Lemma keyPart_normalized (r : Row) (f : string) :
  keyPart h rules r f =
    match normalized h rules r f with
    | NormNumber (Some n) => String_ h (VNum n)
    | NormNumber None | NormDate None => ""
    | NormDate (Some d) => d
    | NormString s => s
    end.
Proof.
  unfold keyPart, normalized. by repeat case_bool_decide.
Qed.

(** The general part of C6: two rows whose listed columns have equal
    normalized values get equal keys. *)
Lemma buildKey_deterministic (r1 r2 : Row) (fields : list string) :
  (∀ f, f ∈ fields → normalized h rules r1 f = normalized h rules r2 f) →
  buildKey h r1 fields rules = buildKey h r2 fields rules.
Proof.
  intros Hn. unfold buildKey. f_equal. apply list_fmap_ext.
  intros i f Hf. rewrite !keyPart_normalized, Hn; [done|].
  by eapply list_elem_of_lookup_2.
Qed.

End KeyBuilder.

(** ** The amount comparator *)

Section Comparators.

Context (h : Host) (rules : option Rules).



(** X9. On amounts that are integers below [2^52] in magnitude, with a
    tolerance that is a natural number below [2^53], the verdict is that
    of the integers: ok exactly when [|a - b| <= t]. *)
Lemma compareAmounts_integers (x y : value) (a b t : Z) :
  toNumber h x = Some (ofZ a) → toNumber h y = Some (ofZ b) →
  amountTol h rules = ofZ t →
  (Z.abs a < 2 ^ 52)%Z → (Z.abs b < 2 ^ 52)%Z → (0 <= t < 2 ^ 53)%Z →
  ok (compareAmounts h rules x y) = (Z.abs (a - b) <=? t)%Z.
Proof.
  intros Hx Hy Ht Ha Hb Hbt. unfold compareAmounts. rewrite Hx, Hy, Ht. simpl.
  by apply NumFacts.leb_abs_sub_ofZ.
Qed.

End Comparators.

(** ** Tolerances *)

Section Tolerances.

Context (h : Host) (rules : option Rules).

Lemma leb_NaN (x t : num) : isNaN t = true → Num.leb x t = false.
Proof. destruct t; try done. by destruct x. Qed.

Lemma amountTol_missing :
  missing (from_option amountTolerance VUndefined rules) → amountTol h rules = zero.
Proof. unfold amountTol. by intros [-> | ->]. Qed.

Lemma dateTolDays_missing :
  missing (from_option dateToleranceDays VUndefined rules) → dateTolDays h rules = zero.
Proof. unfold dateTolDays. by intros [-> | ->]. Qed.

Lemma toNumber_isFinite (v : value) (n : num) :
  toNumber h v = Some n → isFinite n = true.
Proof.
  unfold toNumber. destruct v; try done.
  all: case_bool_decide; [done|].
  all: destruct (isFinite (StringToNumber h _)) eqn:Hfin; [|done].
  all: by intros [= <-].
Qed.

Lemma zero_amountTol_exact : amountTol h rules = zero → exactAmounts h rules.
Proof.
  intros Htol x y an bn Hx Hy Hvx Hvy. unfold compareAmounts.
  rewrite Hx, Hy, Htol. simpl.
  rewrite NumFacts.sub_leb_zero; eauto using toNumber_isFinite.
Qed.

Lemma zero_dateTolDays_exact : dateTolDays h rules = zero → exactDates h rules.
Proof.
  intros Htol x y ad bd ta tb Hx Hy Had Hbd Hta Htb Ha Hb. unfold compareDates.
  rewrite Hx, Hy, Htol. unfold truthy, getTime.
  rewrite !bool_decide_eq_false_2 by done. simpl. rewrite Hta, Htb.
  rewrite NumFacts.day_diff_leb_zero by lia. apply bool_decide_eq_true.
Qed.

(** C7, as it holds. A tolerance that is missing from the rules is read as
    zero: the comparison is then ok exactly when the two parsed values are
    equal. A tolerance that is a string which is not a number is read as
    NaN: the comparison is then never ok. Neither makes the engine fail:
    the comparators and [reconcile] are total. *)
Theorem missing_tolerance_is_zero :
  (missing (from_option amountTolerance VUndefined rules) → exactAmounts h rules) ∧
  (missing (from_option dateToleranceDays VUndefined rules) → exactDates h rules) ∧
  (∀ s, from_option amountTolerance VUndefined rules = VStr s →
        isNaN (StringToNumber h s) = true →
        ∀ x y, ok (compareAmounts h rules x y) = false) ∧
  (∀ s, from_option dateToleranceDays VUndefined rules = VStr s →
        isNaN (StringToNumber h s) = true →
        ∀ x y, ok (compareDates h rules x y) = false).
Proof.
  split; [|split; [|split]].
  - intros Hm. by apply zero_amountTol_exact, amountTol_missing.
  - intros Hm. by apply zero_dateTolDays_exact, dateTolDays_missing.
  - intros s Hs Hnan x y. unfold compareAmounts, amountTol. rewrite Hs. simpl.
    destruct (toNumber h x), (toNumber h y); try done. simpl. by apply leb_NaN.
  - intros s Hs Hnan x y. unfold compareDates, dateTolDays. rewrite Hs. simpl.
    destruct (normalizeDate h x), (normalizeDate h y); try done.
    destruct (truthy _ && truthy _); [|done]. simpl. by apply leb_NaN.
Qed.

End Tolerances.

(** * Properties of the engine, further *)

(** ** Joined rows and counters *)

Lemma filter_all {A} (P : A → Prop) `{!∀ x, Decision (P x)} (l : list A) :
  (∀ x, x ∈ l → P x) → filter P l = l.
Proof.
  induction l as [|x l IH]; intros Hl; [done|].
  rewrite filter_cons_True by (apply Hl; left). f_equal. apply IH.
  intros y Hy. apply Hl. by right.
Qed.

Section Join.

Context (h : Host) (aRows bRows : list Row)
  (mapping : option (gmap string FieldPair)) (mode : Mode) (rules : option Rules).

Local Abbreviation out := (reconcile h aRows bRows mapping mode rules).
Local Abbreviation keyOfA := (keyA h mapping mode rules).
Local Abbreviation keyOfB' := (keyB h mapping mode rules).
Local Abbreviation joinedTo := (lookupB h bRows mapping mode rules).

Lemma lookupB_truthy (x y : Row) : joinedTo x = Some y → keyOfA x ≠ "".
Proof.
  unfold lookupB, truthy. case_bool_decide; [done|]. by intros _.
Qed.

Lemma lookupB_find (x : Row) :
  joinedTo x =
    if truthy (keyOfA x)
    then snd <$> list_find (λ y, keyOfB' y = Some (keyOfA x)) bRows
    else None.
Proof. unfold lookupB. by rewrite bIndex_lookup. Qed.

(** X1. A record that references a row of A and a row of B pairs rows with one
    key: the key of the row of A is not empty, the row of B was entered in
    the lookup under it, and the record carries it; the status of the
    record is MATCHED or ["mismatch"]. *)
Theorem joined_rows_share_key (r : Result) (x y : Row) :
  r ∈ results out → a r = Some x → b r = Some y →
  x ∈ aRows ∧ y ∈ bRows ∧
  keyOfA x ≠ "" ∧ keyOfB' y = Some (keyOfA x) ∧ key r = Some (keyOfA x) ∧
  status r ∈ ["MATCHED"; "mismatch"].
Proof.
  rewrite reconcile_results. intros [Hr|Hr]%elem_of_app Ha Hb.
  - apply list_elem_of_fmap in Hr as (x' & -> & Hx').
    rewrite recordA_a in Ha. simplify_eq. rewrite recordA_b in Hb.
    pose proof (joined_Some _ _ _ _ _ _ _ Hb) as (n & Hn & Hk & _).
    split; [done|]. split; [by eapply list_elem_of_lookup_2|].
    split; [by eapply lookupB_truthy|]. split; [done|].
    unfold recordA. rewrite Hb. destruct (_ && _); simpl; split; set_solver.
  - apply list_elem_of_fmap in Hr as (y' & -> & _). done.
Qed.

Lemma results_lookup_A (i : nat) (x : Row) :
  aRows !! i = Some x →
  results out !! i = Some (recordA h bRows mapping mode rules x).
Proof.
  intros Hi. rewrite reconcile_results.
  rewrite lookup_app_l by (rewrite length_fmap; by eapply lookup_lt_Some).
  by rewrite list_lookup_fmap, Hi.
Qed.

(** X2. The record at the place of a row of A is the record of that row. Its
    row of B is the first row of B, in the order of B, that is entered
    under the key of the row of A, when that key is not empty; the record
    is MISSING_IN_B exactly when there is no such row. *)
Theorem probe_finds_first (i : nat) (x : Row) :
  aRows !! i = Some x →
  ∃ r, results out !! i = Some r ∧ a r = Some x ∧
       b r = (if truthy (keyOfA x)
              then snd <$> list_find (λ y, keyOfB' y = Some (keyOfA x)) bRows
              else None) ∧
       (status r = "MISSING_IN_B" ↔ b r = None).
Proof.
  intros Hi. exists (recordA h bRows mapping mode rules x).
  split; [by apply results_lookup_A|].
  split; [apply recordA_a|]. rewrite recordA_b. split; [apply lookupB_find|].
  apply recordA_status_joined.
Qed.

Lemma counts_classes (l : list Row) (c : Counts) :
  let c' := foldl (λ c a, incr (classA h bRows mapping mode rules a) c) c l in
  MATCHED c' + MISMATCH c' + MISSING_IN_B c'
    = MATCHED c + MISMATCH c + MISSING_IN_B c + length l ∧
  MISSING_IN_A c' = MISSING_IN_A c.
Proof.
  revert c. induction l as [|x l IH]; intros c; cbv zeta; simpl; [lia|].
  destruct (IH (incr (classA h bRows mapping mode rules x) c)) as [H1 H2].
  cbv zeta in H1, H2. rewrite H1, H2.
  unfold classA. destruct (lookupB _ _ _ _ _ x); [destruct (_ && _)|]; simpl; lia.
Qed.

Lemma counts_iter (n : nat) (c : Counts) :
  let c' := Nat.iter n (incr K_MISSING_IN_A) c in
  MATCHED c' = MATCHED c ∧ MISMATCH c' = MISMATCH c ∧
  MISSING_IN_B c' = MISSING_IN_B c ∧ MISSING_IN_A c' = MISSING_IN_A c + n.
Proof.
  cbv zeta. induction n as [|n IH]; simpl; [lia|]. lia.
Qed.

(** X3. Every row of A is counted once, under MATCHED, MISMATCH or
    MISSING_IN_B, and the rows of B whose identifier was not marked used
    are counted under MISSING_IN_A: [total] is between the number of rows
    of A and the number of rows of both files. *)
Theorem counters_by_side :
  let c := counts (summary out) in
  MATCHED c + MISMATCH c + MISSING_IN_B c = length aRows ∧
  MISSING_IN_A c = length (unmatched h aRows bRows mapping mode rules) ∧
  total (summary out) = length aRows + MISSING_IN_A c ∧
  (length aRows ≤ total (summary out) ≤ length aRows + length bRows)%nat.
Proof.
  intros c. unfold c. rewrite reconcile_total, reconcile_counts, reconcile_results.
  pose proof (counts_iter (length (unmatched h aRows bRows mapping mode rules))
    (foldl (λ c a, incr (classA h bRows mapping mode rules a) c)
       (st_counts init) aRows)) as (H1 & H2 & H3 & H4).
  pose proof (counts_classes aRows (st_counts init)) as [H5 H6].
  simpl in *. rewrite H1, H2, H3, H4, H5, H6, length_app, !length_fmap.
  pose proof (length_filter (λ b, rowId b ∉ usedIds h aRows bRows mapping mode rules) bRows).
  unfold unmatched. lia.
Qed.

(** X4. In custom mode without key columns for A every key of A is empty and
    no row is joined: every row of A is MISSING_IN_B with the key [""],
    and every row of B is MISSING_IN_A. *)
Theorem no_key_columns_no_join :
  mode = Custom → keysA rules = [] →
  results out =
    ((λ x, {| status := "MISSING_IN_B"; key := Some ""; reason := "MISSING_IN_B";
              a := Some x; b := None |}) <$> aRows) ++
    ((λ y, {| status := "MISSING_IN_A"; key := None; reason := "MISSING_IN_A";
              a := None; b := Some y |}) <$> bRows).
Proof.
  intros -> Hk. rewrite reconcile_results.
  assert (∀ x, lookupB h bRows mapping Custom rules x = None) as Hnone.
  { intros x. unfold lookupB, keyA. by rewrite Hk. }
  f_equal.
  - apply list_fmap_ext. intros i x _. unfold recordA. rewrite Hnone.
    unfold keyA. by rewrite Hk.
  - unfold unmatched, usedIds.
    replace (omap (lookupB h bRows mapping Custom rules) aRows) with (@nil Row).
    + simpl. rewrite filter_all; [done|]. intros y _. set_solver.
    + symmetry. induction aRows as [|x l IH]; [done|]. simpl. by rewrite Hnone.
Qed.

End Join.

(** ** Composite keys *)

Lemma append_nonempty (s t : string) : t ≠ "" → s +:+ t ≠ "".
Proof. destruct s; [done|]. by intros _. Qed.

Lemma join_two (sep : string) (parts : list string) :
  sep ≠ "" → (2 ≤ length parts)%nat → join sep parts ≠ "".
Proof.
  intros Hsep Hlen. destruct parts as [|p [|q parts]]; simpl in *; try lia.
  apply append_nonempty. destruct sep; [done|]. done.
Qed.

(** X5. A key of two columns or more is never empty: in custom mode a row of A
    whose key columns are all blank is still looked up, and is joined to
    the first row of B whose key columns are blank too. *)
Theorem composite_key_never_empty (h : Host) (aRows bRows : list Row)
    (mapping : option (gmap string FieldPair)) (rules : option Rules) (i : nat) (x : Row) :
  (2 ≤ length (keysA rules))%nat →
  aRows !! i = Some x →
  buildKey h x (keysA rules) rules ≠ "" ∧
  ∃ r, results (reconcile h aRows bRows mapping Custom rules) !! i = Some r ∧
       a r = Some x ∧
       b r = snd <$> list_find (λ y, keyB h mapping Custom rules y
                                      = Some (buildKey h x (keysA rules) rules)) bRows.
Proof.
  intros Hlen Hi.
  assert (buildKey h x (keysA rules) rules ≠ "") as Hne.
  { unfold buildKey. apply join_two; [done|]. by rewrite length_fmap. }
  split; [done|].
  exists (recordA h bRows mapping Custom rules x).
  split; [by apply results_lookup_A|]. split; [apply recordA_a|].
  rewrite recordA_b, lookupB_find.
  change (keyA h mapping Custom rules x) with (buildKey h x (keysA rules) rules).
  unfold truthy. by rewrite bool_decide_eq_false_2.
Qed.

(** ** The comparators, further *)

Module NumLaws.

Local Open Scope Z_scope.

(** The sign of a rounded number is the sign that was given. *)
Lemma abs_binary_round_aux (s s' : bool) (m e : Z) (l : location) :
  SFabs (binary_round_aux prec emax s m e l) = SFabs (binary_round_aux prec emax s' m e l).
Proof.
  unfold binary_round_aux.
  destruct (shr_fexp prec emax m e l) as [mrs e'].
  destruct (shr_fexp prec emax _ e' loc_Exact) as [mrs' e''].
  destruct (shr_m mrs'); [done| |done]. by destruct (e'' <=? emax - prec).
Qed.

Lemma abs_binary_normalize_opp (m e : Z) :
  SFabs (binary_normalize prec emax m e false)
    = SFabs (binary_normalize prec emax (- m) e false).
Proof.
  destruct m as [|p|p]; [done|..]; simpl; unfold binary_round;
    destruct (shl_align p e _) as [mz ez]; apply abs_binary_round_aux.
Qed.

Lemma abs_sub_comm (x y : num) : abs (sub x y) = abs (sub y x).
Proof.
  unfold abs, sub.
  destruct x as [sx|sx| |sx mx ex], y as [sy|sy| |sy my ey]; try done;
    try (by destruct sx, sy).
  unfold SFsub. rewrite (Z.min_comm ey ex), abs_binary_normalize_opp.
  do 2 f_equal. lia.
Qed.

Lemma abs_sub_diag (x : num) : isFinite x = true → abs (sub x x) = zero.
Proof.
  destruct x as [s|s| |s m e]; try done; [by destruct s|]. intros _.
  unfold abs, sub, SFsub. by rewrite Z.sub_diag.
Qed.

Lemma ofZ_isFinite (t : Z) : Z.abs t < 2 ^ 53 → isFinite (ofZ t) = true.
Proof.
  intros Ht. destruct (decide (t = 0)) as [->|Hne]; [done|].
  by destruct (NumFacts.ofZ_canonical t Hne Ht) as (m & -> & _).
Qed.

End NumLaws.

Section Verdicts.

Context (h : Host) (rules : option Rules).

(** X6. The verdicts of the two comparators, and their reason codes, do not
    depend on the order of the two values. *)
Theorem comparators_symmetric (x y : value) :
  compareAmounts h rules x y = compareAmounts h rules y x ∧
  compareDates h rules x y = compareDates h rules y x.
Proof.
  split.
  - unfold compareAmounts.
    destruct (toNumber h x) as [an|], (toNumber h y) as [bn|]; try done.
    by rewrite NumLaws.abs_sub_comm.
  - unfold compareDates.
    destruct (normalizeDate h x) as [ad|], (normalizeDate h y) as [bd|]; try done.
    rewrite (andb_comm (truthy bd)). destruct (truthy ad && truthy bd); [|done].
    by rewrite NumLaws.abs_sub_comm.
Qed.

Lemma compareAmounts_same (x y : value) (n : num) :
  toNumber h x = Some n → toNumber h y = Some n →
  Num.leb zero (amountTol h rules) = true →
  compareAmounts h rules x y = {| ok := true; cmpReason := None |}.
Proof.
  intros Hx Hy Htol. unfold compareAmounts. rewrite Hx, Hy.
  rewrite NumLaws.abs_sub_diag by eauto using toNumber_isFinite. by rewrite Htol.
Qed.

Lemma compareDates_same (x y : value) (d : string) (t : Z) :
  normalizeDate h x = Some d → normalizeDate h y = Some d → d ≠ "" →
  DateParse h (d +:+ "T00:00:00Z") = Some t → (Z.abs t < 2 ^ 53)%Z →
  Num.leb zero (dateTolDays h rules) = true →
  compareDates h rules x y = {| ok := true; cmpReason := None |}.
Proof.
  intros Hx Hy Hd Ht Hlt Htol. unfold compareDates, getTime, truthy.
  rewrite Hx, Hy, Ht, bool_decide_eq_false_2 by done. cbn [negb andb].
  rewrite NumLaws.abs_sub_diag by by apply NumLaws.ofZ_isFinite.
  replace (div zero (ofZ (24 * 60 * 60 * 1000))) with zero by done.
  by rewrite Htol.
Qed.

End Verdicts.

Section Match.

Context (h : Host) (aRows bRows : list Row)
  (mapping : option (gmap string FieldPair)) (mode : Mode) (rules : option Rules).

(** X7. A row of A that is joined to a row of B with the same amount and the
    same date is MATCHED, whenever the tolerances are not negative: the
    two amounts parse to one number, the two dates normalize to one day. *)
Theorem equal_values_match (i : nat) (x y : Row) (n : num) (d : string) (t : Z) :
  aRows !! i = Some x →
  lookupB h bRows mapping mode rules x = Some y →
  toNumber h (propOpt x (fa (amountField mapping))) = Some n →
  toNumber h (propOpt y (fb (amountField mapping))) = Some n →
  normalizeDate h (propOpt x (fa (dateField mapping))) = Some d →
  normalizeDate h (propOpt y (fb (dateField mapping))) = Some d →
  d ≠ "" →
  DateParse h (d +:+ "T00:00:00Z") = Some t → (Z.abs t < 2 ^ 53)%Z →
  Num.leb zero (amountTol h rules) = true →
  Num.leb zero (dateTolDays h rules) = true →
  results (reconcile h aRows bRows mapping mode rules) !! i =
    Some {| status := "MATCHED"; key := Some (keyA h mapping mode rules x);
            reason := "MATCHED"; a := Some x; b := Some y |}.
Proof.
  intros Hi Hj Hax Hay Hdx Hdy Hd Ht Hlt Hta Htd.
  rewrite reconcile_results.
  rewrite lookup_app_l by (rewrite length_fmap; by eapply lookup_lt_Some).
  rewrite list_lookup_fmap, Hi. simpl. f_equal.
  unfold recordA, amountOk, dateOk. rewrite Hj.
  rewrite (compareAmounts_same h rules _ _ n) by done.
  by rewrite (compareDates_same h rules _ _ d t).
Qed.

End Match.

(** ** Whole days *)

Module NumDays.

Local Open Scope Z_scope.

(** A whole number of days in milliseconds, divided by the milliseconds of
    a day, is that number of days. *)
Lemma div_day_exact (k : Z) :
  0 <= k → k * 86400000 < 2 ^ 53 →
  div (ofZ (k * 86400000)) (ofZ (24 * 60 * 60 * 1000)) = ofZ k.
Proof.
  intros Hk Hlt. destruct (decide (k = 0)) as [->|Hne]; [done|].
  assert (0 < k) as Hpos by lia.
  set (t := k * 86400000) in *.
  assert (t ≠ 0) as Hta by (unfold t; lia).
  destruct (NumFacts.ofZ_canonical t Hta ltac:(lia)) as (ma & Ha & Hma).
  destruct (NumFacts.ofZ_canonical k Hne ltac:(unfold t in *; lia)) as (mk & Hz & Hmk).
  rewrite Ha, Hz, NumFacts.day_eq.
  destruct (Z.ltb_spec t 0); [unfold t in *; lia|].
  destruct (Z.ltb_spec k 0); [lia|].
  rewrite Z.abs_eq in Hma, Hmk by lia.
  set (da := Zdigits2 t) in *. set (dk := Zdigits2 k) in *.
  pose proof (NumFacts.Zdigits2_bounds t ltac:(lia)) as [Hloa Hhia]. fold da in Hloa, Hhia.
  pose proof (NumFacts.Zdigits2_bounds k Hpos) as [Hlok Hhik]. fold dk in Hlok, Hhik.
  pose proof (NumFacts.Zdigits2_pos t ltac:(lia)) as Hdap. fold da in Hdap.
  pose proof (NumFacts.Zdigits2_pos k Hpos) as Hdkp. fold dk in Hdkp.
  assert (da <= 53) as Hda53.
  { destruct (Z.le_gt_cases da 53) as [|Hgt]; [done|].
    assert (2 ^ 53 <= 2 ^ (da - 1)) by (apply Z.pow_le_mono_r; lia). lia. }
  assert (da <= dk + 27) as Hdak.
  { destruct (Z.le_gt_cases da (dk + 27)) as [|Hgt]; [done|].
    assert (2 ^ (dk + 27) <= 2 ^ (da - 1)) as Hp by (apply Z.pow_le_mono_r; lia).
    rewrite Z.pow_add_r in Hp by lia. change (2 ^ 27) with 134217728 in Hp.
    unfold t in Hloa. nia. }
  assert (dk + 26 <= da) as Hdka.
  { destruct (Z.le_gt_cases (dk + 26) da) as [|Hgt]; [done|].
    assert (2 ^ da <= 2 ^ (dk - 1 + 26)) as Hp by (apply Z.pow_le_mono_r; lia).
    rewrite Z.pow_add_r in Hp by lia. change (2 ^ 26) with 67108864 in Hp.
    unfold t in Hhia. nia. }
  unfold div, SFdiv, SFdiv_core_binary.
  change (Zdigits2 5798205849600000) with 53.
  assert (Zdigits2 (Zpos ma) = 53) as ->.
  { rewrite Hma, NumFacts.Zdigits2_mul_pow2 by lia. fold da. lia. }
  assert (fexp prec emax (53 + (da - 53) - (53 + -26)) = da - 80) as ->
    by (unfold fexp, SpecFloat.emin, prec, emax; lia).
  replace (Z.min (da - 80) (da - 53 - -26)) with (da - 80) by lia.
  replace (da - 53 - -26 - (da - 80)) with 53 by lia.
  rewrite Z.shiftl_mul_pow2 by lia.
  set (K := 80 - da).
  assert (0 <= K) as HK by (unfold K; lia).
  assert (Zpos ma * 2 ^ 53 = (k * 2 ^ K) * 5798205849600000 + 0) as Hdiv.
  { rewrite Hma. unfold t. change 5798205849600000 with (86400000 * 2 ^ 26).
    replace (k * 86400000 * 2 ^ (53 - da) * 2 ^ 53)
      with (k * 86400000 * (2 ^ (53 - da) * 2 ^ 53)) by lia.
    rewrite <- Z.pow_add_r by lia.
    replace (k * 2 ^ K * (86400000 * 2 ^ 26) + 0)
      with (k * 86400000 * (2 ^ K * 2 ^ 26)) by lia.
    rewrite <- Z.pow_add_r by lia. do 2 f_equal. unfold K. lia. }
  assert (0 < k * 2 ^ K) as Hqpos
    by (apply Z.mul_pos_pos; [done|apply Z.pow_pos_nonneg; lia]).
  pose proof (Z.div_eucl_eq (Zpos ma * 2 ^ 53) 5798205849600000 ltac:(done)) as Heq.
  pose proof (Z.mod_pos_bound (Zpos ma * 2 ^ 53) 5798205849600000 ltac:(done)) as Hmod.
  unfold Z.modulo in Hmod.
  destruct (Z.div_eucl (Zpos ma * 2 ^ 53) 5798205849600000) as [q r].
  assert (q = k * 2 ^ K ∧ r = 0) as [-> ->].
  { assert (r = 0 ∨ r ≠ 0) as [->|Hr] by lia; [split; [nia|done]|].
    exfalso. nia. }
  change (new_location 5798205849600000 0) with loc_Exact.
  simpl xorb.
  destruct (k * 2 ^ K) as [|qp|] eqn:Hq; try lia.
  assert (∃ kp, k = Zpos kp) as [kp ->] by (destruct k; try lia; eauto).
  destruct (NumFacts.binary_round_scaled false qp kp K HK ltac:(unfold t in *; lia)
              ltac:(lia)) as (mz & Hr & Hmz).
  assert (binary_round prec emax false qp (- K)
          = binary_round_aux prec emax false (Zpos qp) (da - 80) loc_Exact) as Hbr.
  { unfold binary_round.
    assert (Zpos (digits2_pos qp) = dk + K) as ->.
    { change (Zdigits2 (Zpos qp) = dk + K). rewrite <- Hq.
      rewrite NumFacts.Zdigits2_mul_pow2 by lia. done. }
    assert (fexp prec emax (dk + K + - K) = dk - 53) as ->
      by (unfold fexp, SpecFloat.emin, prec, emax; lia).
    unfold shl_align.
    destruct (dk - 53 - - K) eqn:Hs; try (unfold K in *; lia).
    all: f_equal; unfold K; lia. }
  rewrite <- Hbr, Hr. fold dk. f_equal.
  change (Zpos (digits2_pos kp)) with dk in Hmz.
  apply Pos2Z.inj. by rewrite Hmz, Hmk.
Qed.

(** The difference of two days in days, compared with a number of days. *)
Lemma leb_day_diff (da db n : Z) :
  Z.abs (da * 86400000) < 2 ^ 52 → Z.abs (db * 86400000) < 2 ^ 52 → 0 <= n < 2 ^ 53 →
  leb (div (abs (sub (ofZ (da * 86400000)) (ofZ (db * 86400000))))
         (ofZ (24 * 60 * 60 * 1000))) (ofZ n)
    = (Z.abs (da - db) <=? n).
Proof.
  intros Ha Hb Hn. assert (2 ^ 53 = 2 * 2 ^ 52) as H53 by done.
  rewrite NumFacts.sub_ofZ by done. unfold abs.
  rewrite NumFacts.abs_ofZ by lia.
  replace (Z.abs (da * 86400000 - db * 86400000)) with (Z.abs (da - db) * 86400000) by lia.
  rewrite div_day_exact by lia.
  apply NumFacts.leb_ofZ; lia.
Qed.

End NumDays.

Section Days.

Context (h : Host) (rules : option Rules).

(** X8. On dates whose midnights are whole days from the epoch, as they are on
    every engine, and with a tolerance that is a natural number of days,
    the verdict is that of the integers: ok exactly when the two days are
    at most that many days apart. *)
Theorem compareDates_whole_days (x y : value) (ad bd : string) (da db n : Z) :
  normalizeDate h x = Some ad → normalizeDate h y = Some bd →
  ad ≠ "" → bd ≠ "" →
  DateParse h (ad +:+ "T00:00:00Z") = Some (da * 86400000)%Z →
  DateParse h (bd +:+ "T00:00:00Z") = Some (db * 86400000)%Z →
  (Z.abs (da * 86400000) < 2 ^ 52)%Z → (Z.abs (db * 86400000) < 2 ^ 52)%Z →
  dateTolDays h rules = ofZ n → (0 <= n < 2 ^ 53)%Z →
  compareDates h rules x y
    = {| ok := (Z.abs (da - db) <=? n)%Z; cmpReason := None |}.
Proof.
  intros Hx Hy Had Hbd Hta Htb Ha Hb Htol Hn. unfold compareDates, getTime, truthy.
  rewrite Hx, Hy, Hta, Htb, Htol, !bool_decide_eq_false_2 by done. cbn [negb andb].
  by rewrite NumDays.leb_day_diff.
Qed.

End Days.

(** ** Rules in auto mode *)

Section AutoMode.

Context (h : Host) (aRows bRows : list Row) (mapping : option (gmap string FieldPair)).

Lemma compareAmounts_tolerance (rules rules' : option Rules) (x y : value) :
  amountTol h rules = amountTol h rules' →
  compareAmounts h rules x y = compareAmounts h rules' x y.
Proof. intros Ht. unfold compareAmounts. by rewrite Ht. Qed.

Lemma compareDates_tolerance (rules rules' : option Rules) (x y : value) :
  dateTolDays h rules = dateTolDays h rules' →
  compareDates h rules x y = compareDates h rules' x y.
Proof. intros Ht. unfold compareDates. by rewrite Ht. Qed.

(** X10. In auto mode the rules are read for the two tolerances and for nothing
    else: two rules objects with the same tolerances give the same result.
    The tolerances apply in auto mode too. *)
Theorem auto_mode_reads_tolerances (rules rules' : option Rules) :
  amountTol h rules = amountTol h rules' →
  dateTolDays h rules = dateTolDays h rules' →
  reconcile h aRows bRows mapping Auto rules = reconcile h aRows bRows mapping Auto rules'.
Proof.
  intros Ha Hd. unfold reconcile.
  assert (foldl (probe h bRows mapping Auto rules) init aRows
          = foldl (probe h bRows mapping Auto rules') init aRows) as ->; [|done].
  apply foldl_pointwise. intros st x. unfold probe.
  change (keyA h mapping Auto rules x) with (keyA h mapping Auto rules' x).
  change (bIndex h bRows mapping Auto rules) with (bIndex h bRows mapping Auto rules').
  destruct (if truthy _ then _ else _) as [y|]; [|done].
  by rewrite (compareAmounts_tolerance rules rules'), (compareDates_tolerance rules rules').
Qed.

End AutoMode.

(** * Properties of the rest of the backend *)

(** ** Trimming *)

Lemma trimStart_head (s : string) :
  trimStart s = "" ∨ ∃ c t, trimStart s = String c t ∧ isWhiteSpace c = false.
Proof.
  induction s as [|c s IH]; simpl; [by left|].
  destruct (isWhiteSpace c) eqn:Hc; [done|]. right. by exists c, s.
Qed.

Lemma trimEnd_idemp (s : string) : trimEnd (trimEnd s) = trimEnd s.
Proof.
  induction s as [|c s IH]; simpl; [done|].
  destruct (isWhiteSpace c && bool_decide (trimEnd s = "")) eqn:E; [done|].
  simpl. by rewrite IH, E.
Qed.

Lemma trimEnd_head (c : ascii) (t : string) :
  isWhiteSpace c = false → trimEnd (String c t) = String c (trimEnd t).
Proof. intros Hc. simpl. by rewrite Hc. Qed.

Lemma trim_idemp (s : string) : trim (trim s) = trim s.
Proof.
  unfold trim. destruct (trimStart_head s) as [->|(c & t & -> & Hc)]; [done|].
  rewrite trimEnd_head by done. simpl. rewrite Hc. simpl. rewrite Hc.
  by rewrite trimEnd_idemp.
Qed.

(** ** Parsing *)

Section Parse.

Context (h : Host) (Papa_parse : string → PapaResult).

Lemma rowsOf_ids (data : list (gmap string string)) :
  rowId <$> rowsOf data = seq 1 (length data).
Proof.
  apply list_eq. intros i. unfold rowsOf.
  rewrite list_lookup_fmap, list_lookup_imap.
  destruct (data !! i) as [r|] eqn:Hi; simpl.
  - symmetry. apply lookup_seq. split; [lia|]. by eapply lookup_lt_Some.
  - symmetry. apply lookup_seq_ge. by apply lookup_ge_None.
Qed.

Lemma rowsOf_cols (data : list (gmap string string)) : cols <$> rowsOf data = data.
Proof.
  apply list_eq. intros i. unfold rowsOf.
  rewrite list_lookup_fmap, list_lookup_imap. by destruct (data !! i).
Qed.

(** X11. On a file without a column named [__rowId], [parseCsvBuffer] throws
    exactly when Papa reports an error. Otherwise the rows it returns are
    the lines of the file in their order, numbered from 1: no two rows
    have one identifier. *)
Theorem parseCsvBuffer_rows (buffer : string) :
  plain (Papa_parse buffer) →
  match parseCsvBuffer h Papa_parse buffer with
  | Throws message => errors (Papa_parse buffer) ≠ [] ∧ message ≠ ""
  | Returns parsed =>
      errors (Papa_parse buffer) = [] ∧
      cols <$> rows parsed = data (Papa_parse buffer) ∧
      rowId <$> rows parsed = seq 1 (length (data (Papa_parse buffer))) ∧
      NoDup (rowId <$> rows parsed)
  end.
Proof.
  intros _. unfold parseCsvBuffer. destruct (errors (Papa_parse buffer)) as [|msg l].
  - simpl. rewrite rowsOf_cols, rowsOf_ids. repeat split. apply NoDup_seq.
  - split; [done|]. unfold truthy. by case_bool_decide.
Qed.

(** X12. The column names that [parseCsvBuffer] returns are those of the header,
    trimmed, without the empty ones: each is non-empty and has no white
    space at either end. The rows keep the names of the header as they
    are. *)
Theorem parseCsvBuffer_fields (buffer : string) (parsed : Parsed) :
  parseCsvBuffer h Papa_parse buffer = Returns parsed →
  Forall (λ f, f ≠ "" ∧ trim f = f ∧
               ∃ name, name ∈ default [] (metaFields (Papa_parse buffer)) ∧ f = trim name)
         (fields parsed) ∧
  (Forall (λ name, name ≠ "" ∧ trim name = name)
          (default [] (metaFields (Papa_parse buffer))) →
   fields parsed = default [] (metaFields (Papa_parse buffer))).
Proof.
  unfold parseCsvBuffer. destruct (errors (Papa_parse buffer)); [|done].
  intros [= <-]. simpl. split.
  - apply Forall_forall. intros f [Hf Hin]%list_elem_of_filter.
    apply list_elem_of_fmap in Hin as (name & -> & Hname).
    unfold normalizeHeader in *. simpl in *.
    split; [|split; [apply trim_idemp|by exists name]].
    unfold truthy in Hf. by case_bool_decide.
  - intros Hall. induction Hall as [|name l [Hne Htrim] Hall IH]; [done|].
    rewrite fmap_cons. unfold normalizeHeader at 1. simpl String_.
    rewrite Htrim, filter_cons_True; [by f_equal|].
    unfold truthy. by rewrite bool_decide_eq_false_2.
Qed.

End Parse.

(** ** Profiles *)

Lemma indexOf_Some (l : list string) (x : string) (i : nat) :
  indexOf l x = Some i ↔ l !! i = Some x ∧ ∀ j y, l !! j = Some y → j < i → y ≠ x.
Proof.
  unfold indexOf. rewrite fmap_Some. split.
  - intros ([i' y] & Hf & ->). apply list_find_Some in Hf as (Hi & -> & Hlt). eauto.
  - intros [Hi Hlt]. exists (i, x). split; [|done]. apply list_find_Some. eauto.
Qed.

Lemma indexOf_None (l : list string) (x : string) : indexOf l x = None ↔ x ∉ l.
Proof.
  unfold indexOf. rewrite fmap_None, list_find_None, Forall_forall. split.
  - intros H Hx. by apply (H x).
  - intros H y Hy ->. done.
Qed.

Lemma detect_detects (fields candidates : list string) :
  detects fields candidates (detect fields (toLowerCase <$> fields) candidates).
Proof.
  induction candidates as [|cand cands IH]; simpl.
  - intros f _. set_solver.
  - destruct (indexOf _ cand) as [i|] eqn:Hi.
    + apply indexOf_Some in Hi as [Hi Hfirst].
      rewrite list_lookup_fmap in Hi.
      destruct (fields !! i) as [f|] eqn:Hf; [|done]. simpl in Hi.
      injection Hi as <-. exists i, 0. split; [done|]. split; [done|]. split.
      * intros i' f' Hf' Hlt. apply (Hfirst i'); [|done].
        by rewrite list_lookup_fmap, Hf'.
      * intros j' c f' _ Hlt. lia.
    + apply indexOf_None in Hi.
      destruct (detect fields _ cands) as [f|].
      * destruct IH as (i & j & Hf & Hc & Hfirst & Hcands).
        exists i, (S j). split; [done|]. split; [done|]. split; [done|].
        intros [|j'] c f' Hc' Hlt Hf'.
        -- simpl in Hc'. injection Hc' as <-. intros Heq. apply Hi.
           rewrite <- Heq. by apply list_elem_of_fmap_2.
        -- apply (Hcands j' c f'); [done|lia|done].
      * intros f Hf [Heq|Hin]%elem_of_cons; [|by eapply IH].
        apply Hi. rewrite <- Heq. by apply list_elem_of_fmap_2.
Qed.

Lemma toLowerCase_empty (s : string) : toLowerCase s = "" → s = "".
Proof. by destruct s. Qed.

Lemma detect_nonempty (fields candidates : list string) (f : string) :
  "" ∉ candidates →
  detect fields (toLowerCase <$> fields) candidates = Some f → truthy f = true.
Proof.
  intros Hne Hd. pose proof (detect_detects fields candidates) as H.
  rewrite Hd in H. destruct H as (i & j & _ & Hc & _).
  unfold truthy. rewrite bool_decide_eq_false_2; [done|].
  intros ->. apply Hne. by eapply list_elem_of_lookup_2.
Qed.

Lemma size_list_to_set_le (l : list string) :
  (size (list_to_set l : gset string) ≤ length l)%nat ∧
  (size (list_to_set l : gset string) = length l ↔ NoDup l).
Proof.
  induction l as [|x l [IH1 IH2]].
  - assert (size (list_to_set [] : gset string) = 0) as -> by apply size_empty.
    split; [done|]. split; [constructor|done].
  - rewrite list_to_set_cons. cbn [length].
    destruct (decide (x ∈ l)) as [Hx|Hx].
    + assert ({[x]} ∪ list_to_set l = (list_to_set l : gset string)) as ->.
      { apply subseteq_union_1_L, singleton_subseteq_l. by apply elem_of_list_to_set. }
      split; [lia|]. split; [lia|]. by intros [? _]%NoDup_cons.
    + rewrite size_union by (apply disjoint_singleton_l; by rewrite elem_of_list_to_set).
      rewrite size_singleton.
      split; [lia|]. rewrite NoDup_cons. split; [intros; split; [done|]|intros [_ Hnd]].
      * apply IH2. lia.
      * apply IH2 in Hnd. lia.
Qed.

Module NumSums.

Local Open Scope Z_scope.

Lemma add_sub_opp (x y : num) : add x y = sub x (SFopp y).
Proof.
  unfold add, sub.
  destruct x as [sx|sx| |sx mx ex], y as [sy|sy| |sy my ey]; try done;
    by destruct sx, sy.
Qed.

Lemma opp_ofZ (b : Z) : b ≠ 0 → Z.abs b < 2 ^ 53 → SFopp (ofZ b) = ofZ (- b).
Proof.
  intros Hne Hb.
  destruct (NumFacts.ofZ_canonical b Hne Hb) as (m & -> & Hm).
  destruct (NumFacts.ofZ_canonical (- b) ltac:(lia) ltac:(lia)) as (m' & -> & Hm').
  assert (Zdigits2 (- b) = Zdigits2 b) as Hd by (by destruct b).
  rewrite Hd, Z.abs_opp in *. simpl.
  assert (m' = m) as -> by (apply Pos2Z.inj; congruence).
  f_equal. destruct (Z.ltb_spec b 0), (Z.ltb_spec (- b) 0); try done; lia.
Qed.

Lemma add_ofZ (a b : Z) :
  Z.abs a < 2 ^ 52 → Z.abs b < 2 ^ 52 → add (ofZ a) (ofZ b) = ofZ (a + b).
Proof.
  intros Ha Hb. assert (2 ^ 53 = 2 * 2 ^ 52) as H53 by done.
  destruct (decide (b = 0)) as [->|Hne].
  - rewrite Z.add_0_r. destruct (decide (a = 0)) as [->|Hna]; [done|].
    by destruct (NumFacts.ofZ_canonical a Hna ltac:(lia)) as (m & -> & _).
  - rewrite add_sub_opp, opp_ofZ by lia.
    rewrite NumFacts.sub_ofZ by lia. f_equal. lia.
Qed.

(** Adding up integers whose magnitudes add up to less than [2^52] is
    exact. *)
Lemma sum_ofZ (zs : list Z) (s : Z) :
  Z.abs s + foldr (λ z t, Z.abs z + t) 0 zs < 2 ^ 52 →
  foldl add (ofZ s) (ofZ <$> zs) = ofZ (s + foldr Z.add 0 zs).
Proof.
  revert s. induction zs as [|z zs IH]; intros s; simpl.
  - intros _. by rewrite Z.add_0_r.
  - intros Hlt.
    assert (0 <= foldr (λ z t, Z.abs z + t) 0 zs) as Hnn.
    { clear. induction zs as [|z zs IH]; simpl; lia. }
    rewrite add_ofZ by lia. rewrite IH by lia. f_equal. lia.
Qed.

End NumSums.

#[local] Instance sortsBefore_total : Total sortsBefore.
Proof. intros s1 s2. apply String.leb_total. Qed.

Lemma compare_Gt_trans (s1 s2 s3 : string) :
  String.compare s1 s2 ≠ Gt → String.compare s2 s3 ≠ Gt → String.compare s1 s3 ≠ Gt.
Proof.
  revert s2 s3. induction s1 as [|c1 s1 IH]; intros [|c2 s2] [|c3 s3]; simpl; try done.
  unfold Ascii.compare.
  destruct (N.compare_spec (N_of_ascii c1) (N_of_ascii c2)) as [H12|H12|H12]; [| |done].
  - rewrite H12.
    destruct (N.compare_spec (N_of_ascii c2) (N_of_ascii c3)); [|done..]. apply IH.
  - destruct (N.compare_spec (N_of_ascii c2) (N_of_ascii c3)) as [H23|H23|H23];
      [| |done]; intros _ _.
    + rewrite <- H23. by apply N.compare_lt_iff in H12 as ->.
    + assert (N_of_ascii c1 < N_of_ascii c3)%N as ->%N.compare_lt_iff by lia. done.
Qed.

#[local] Instance sortsBefore_trans : Transitive sortsBefore.
Proof.
  intros s1 s2 s3. unfold sortsBefore, String.leb. intros H12 H23.
  pose proof (compare_Gt_trans s1 s2 s3) as H.
  destruct (String.compare s1 s2), (String.compare s2 s3), (String.compare s1 s3);
    try done; exfalso; by apply H.
Qed.

Lemma sortsBefore_refl (s : string) : sortsBefore s s.
Proof. by destruct (sortsBefore_total s s). Qed.

Lemma StronglySorted_head (l : list string) (lo : string) :
  StronglySorted sortsBefore l → head l = Some lo → Forall (sortsBefore lo) l.
Proof.
  intros Hs Hh. destruct Hs as [|x l Hs Hall]; [done|]. simpl in Hh. simplify_eq.
  constructor; [apply sortsBefore_refl|done].
Qed.

Lemma StronglySorted_last (l : list string) (hi : string) :
  StronglySorted sortsBefore l → last l = Some hi → Forall (λ d, sortsBefore d hi) l.
Proof.
  intros Hs. induction Hs as [|x l Hs IH Hall]; [done|]. intros Hl.
  destruct l as [|y l].
  - simpl in Hl. simplify_eq. constructor; [apply sortsBefore_refl|done].
  - rewrite last_cons_cons in Hl. constructor; [|by apply IH].
    assert (hi ∈ y :: l) as Hin by (by apply last_Some_elem_of).
    by eapply Forall_forall in Hall.
Qed.

Section Profiles.

Context (h : Host).

(** The non-empty IDs of the rows, in their order. *)
Local Abbreviation idsOf f rows :=
  (filter (λ id, truthy id = true) ((λ r : Row, stringify h (prop r f)) <$> rows)).

(** The amounts of the rows that parse, in their order. *)
Local Abbreviation amountsOf f rows := (omap (λ r : Row, toNumber h (prop r f)) rows).

(** The non-empty dates of the rows that parse, in their order. *)
Local Abbreviation datesOf f rows :=
  (filter (λ d, truthy d = true) (omap (λ r : Row, normalizeDate h (prop r f)) rows)).

(** X13. Each of the three columns that [profile] detects is the first field,
    in the order of the header, whose lower-case form is the first
    candidate that is the lower-case form of a field; it is [null] exactly
    when no field is a candidate. *)
Theorem profile_detects (rows : list Row) (fields : list string) :
  let d := detected (profile h rows fields) in
  detects fields idCandidates (detectedId d) ∧
  detects fields amountCandidates (detectedAmount d) ∧
  detects fields dateCandidates (detectedDate d).
Proof. repeat split; apply detect_detects. Qed.

Lemma countDuplicate_loop (f : string) (rows : list Row) (st : gset string * nat) :
  let st' := foldl (countDuplicate h f) st rows in
  st'.1 = list_to_set (idsOf f rows) ∪ st.1 ∧
  st'.2 + size st'.1 = st.2 + size st.1 + length (idsOf f rows).
Proof.
  revert st. induction rows as [|r rows IH]; intros [seen dup]; cbv zeta.
  - simpl. rewrite (left_id_L ∅ (∪)). split; [done|lia].
  - cbn [foldl]. rewrite fmap_cons, filter_cons.
    set (id := stringify h (prop r f)).
    assert (countDuplicate h f (seen, dup) r =
            if negb (truthy id) then (seen, dup)
            else if bool_decide (id ∈ seen) then (seen, S dup)
            else ({[ id ]} ∪ seen, dup)) as -> by done.
    cbn [fst snd].
    destruct (truthy id) eqn:Hid; cbn [negb].
    + rewrite decide_True by done. case_bool_decide as Hseen.
      * destruct (IH (seen, S dup)) as [H1 H2]. cbv zeta in H1, H2.
        cbn [fst snd] in H1, H2.
        destruct (foldl (countDuplicate h f) (seen, S dup) rows) as [seen' dup'].
        cbn [fst snd length] in *. split; [|lia]. rewrite H1.
        apply set_eq. intros z.
        rewrite list_to_set_cons, !elem_of_union, elem_of_singleton.
        split; [tauto|]. intros [[->|?]|?]; tauto.
      * destruct (IH ({[id]} ∪ seen, dup)) as [H1 H2].
        cbv zeta in H1, H2. cbn [fst snd] in H1, H2.
        destruct (foldl (countDuplicate h f) ({[id]} ∪ seen, dup) rows) as [seen' dup'].
        cbn [fst snd length] in *.
        rewrite size_union, size_singleton in H2 by by apply disjoint_singleton_l.
        split; [|lia]. rewrite H1.
        apply set_eq. intros z.
        rewrite list_to_set_cons, !elem_of_union, elem_of_singleton. tauto.
    + rewrite decide_False by done. apply (IH (seen, dup)).
Qed.

Lemma duplicates_size (rows : list Row) (fields : list string) (f : string) :
  detectedId (detected (profile h rows fields)) = Some f →
  duplicates (profile h rows fields) + size (list_to_set (idsOf f rows) : gset string)
    = length (idsOf f rows).
Proof.
  simpl. intros Hf. rewrite Hf.
  rewrite (detect_nonempty fields idCandidates f) by (done || compute_done).
  destruct (countDuplicate_loop f rows (∅, 0)) as [H1 H2].
  cbv zeta in H1, H2. cbn [fst snd] in H1, H2.
  destruct (foldl (countDuplicate h f) (∅, 0) rows) as [seen' dup'].
  cbn [fst snd] in *. rewrite (right_id_L ∅ (∪)) in H1. subst seen'.
  rewrite size_empty in H2. lia.
Qed.

Lemma duplicates_NoDup (rows : list Row) (fields : list string) (f : string) :
  detectedId (detected (profile h rows fields)) = Some f →
  duplicates (profile h rows fields) = 0 ↔ NoDup (idsOf f rows).
Proof.
  intros Hf. pose proof (duplicates_size rows fields f Hf).
  rewrite <- (proj2 (size_list_to_set_le _)). lia.
Qed.

(** X14. [duplicates] is the number of rows with a non-empty ID less the number
    of distinct non-empty IDs; it is zero exactly when no two rows have one
    non-empty ID. *)
Theorem duplicates_counted (rows : list Row) (fields : list string) (f : string) :
  detectedId (detected (profile h rows fields)) = Some f →
  duplicates (profile h rows fields) + size (list_to_set (idsOf f rows) : gset string)
    = length (idsOf f rows) ∧
  (duplicates (profile h rows fields) = 0 ↔ NoDup (idsOf f rows)).
Proof.
  intros Hf. split; [by apply duplicates_size|by apply duplicates_NoDup].
Qed.

Lemma NoDup_filter_fmap_lookup {A} (g : A → string) (P : string → Prop)
    `{!∀ x, Decision (P x)} (l : list A) (i j : nat) (x y : A) :
  NoDup (filter P (g <$> l)) → l !! i = Some x → l !! j = Some y →
  g x = g y → P (g x) → i = j.
Proof.
  revert i j. induction l as [|z l IH]; intros i j Hnd Hi Hj Heq HP; [done|].
  rewrite fmap_cons, filter_cons in Hnd.
  assert (NoDup (filter P (g <$> l))) as Hnd'
    by (destruct (decide (P (g z))); [by apply NoDup_cons in Hnd as [_ ?]|done]).
  assert (∀ k w, l !! k = Some w → g w = g z → P (g z) → False) as Hfresh.
  { intros k w Hk Hw Hz. rewrite decide_True in Hnd by done.
    apply NoDup_cons in Hnd as [Hnotin _]. apply Hnotin.
    apply list_elem_of_filter. split; [done|]. rewrite <- Hw.
    apply list_elem_of_fmap_2. by eapply list_elem_of_lookup_2. }
  destruct i as [|i], j as [|j]; simpl in *; simplify_eq; try done.
  - exfalso. eapply (Hfresh j y); [done|done|done].
  - exfalso. eapply (Hfresh i x); [done|done|]. by rewrite <- Heq.
  - f_equal. by eapply IH.
Qed.

(** X15. When the profile of B reports no duplicates in the ID column that the
    mapping names, the lookup of auto mode holds every row of B that has an
    ID under that ID: no row is hidden by an earlier row. *)
Theorem unique_ids_all_indexed (bRows : list Row) (fields : list string) (f : string)
    (mapping : option (gmap string FieldPair)) (rules : option Rules) (y : Row) :
  detectedId (detected (profile h bRows fields)) = Some f →
  duplicates (profile h bRows fields) = 0 →
  fb (idField mapping) = Some f →
  y ∈ bRows → stringify h (prop y f) ≠ "" →
  bIndex h bRows mapping Auto rules !! stringify h (prop y f) = Some y.
Proof.
  intros Hf Hdup Hmap Hy Hid.
  assert (truthy f = true) as Tf
    by (eapply (detect_nonempty fields idCandidates); [compute_done|done]).
  apply (duplicates_NoDup bRows fields f Hf) in Hdup.
  assert (∀ r, keyB h mapping Auto rules r =
               if truthy (stringify h (prop r f)) then Some (stringify h (prop r f))
               else None) as HkeyB.
  { intros r. unfold keyB. rewrite Hmap. unfold orName. by rewrite Tf. }
  rewrite bIndex_lookup.
  apply list_elem_of_lookup_1 in Hy as [j Hj].
  destruct (list_find (λ r, keyB h mapping Auto rules r = Some (stringify h (prop y f)))
              bRows) as [[n y']|] eqn:Hfind.
  - apply list_find_Some in Hfind as (Hn & Hk & _). simpl. f_equal.
    rewrite HkeyB in Hk. destruct (truthy (stringify h (prop y' f))) eqn:Ty'; [|done].
    injection Hk as Hk.
    assert (n = j) as ->; [|congruence].
    eapply (NoDup_filter_fmap_lookup (λ r, stringify h (prop r f))
              (λ id, truthy id = true) bRows n j y' y); try done.
  - exfalso. apply list_find_None in Hfind. rewrite Forall_forall in Hfind.
    apply (Hfind y); [by eapply list_elem_of_lookup_2|].
    rewrite HkeyB. unfold truthy. by rewrite bool_decide_eq_false_2.
Qed.

Lemma addAmount_loop (f : string) (rows : list Row) (st : num * nat) :
  foldl (addAmount h f) st rows =
    (foldl add st.1 (amountsOf f rows), st.2 + length (amountsOf f rows)).
Proof.
  revert st. induction rows as [|r rows IH]; intros [sum count]; simpl.
  - f_equal. lia.
  - rewrite IH. unfold addAmount. cbn [fst snd].
    destruct (toNumber h (prop r f)) as [n|]; cbn [fst snd length foldl]; [|done].
    f_equal. unfold omap. lia.
Qed.

Lemma amountSum_fold (rows : list Row) (fields : list string) (f : string) :
  detectedAmount (detected (profile h rows fields)) = Some f →
  amountSum (profile h rows fields) =
    match amountsOf f rows with
    | [] => None
    | ns => Some (foldl add zero ns)
    end.
Proof.
  simpl. intros Hf. rewrite Hf.
  rewrite (detect_nonempty fields amountCandidates f) by (done || compute_done).
  rewrite addAmount_loop. simpl.
  by destruct (amountsOf f rows).
Qed.

Lemma amountsOf_nil (f : string) (rows : list Row) :
  amountsOf f rows = [] ↔ Forall (λ r, toNumber h (prop r f) = None) rows.
Proof.
  induction rows as [|r l IH]; [by split|]. cbn [omap list_omap].
  destruct (toNumber h (prop r f)) eqn:Hr.
  - split; [done|]. intros [? _]%Forall_cons. congruence.
  - fold (amountsOf f l). rewrite IH.
    split; [by constructor|by intros [_ ?]%Forall_cons].
Qed.

(** X16. [amountSum] is [null] exactly when no amount column is detected or no
    row has an amount that parses; it is not [null] for amounts that add
    up to zero. *)
Theorem amountSum_null (rows : list Row) (fields : list string) :
  amountSum (profile h rows fields) = None ↔
    match detectedAmount (detected (profile h rows fields)) with
    | Some f => Forall (λ r, toNumber h (prop r f) = None) rows
    | None => True
    end.
Proof.
  destruct (detectedAmount (detected (profile h rows fields))) as [f|] eqn:Hf.
  - rewrite (amountSum_fold rows fields f Hf), <- amountsOf_nil.
    by destruct (amountsOf f rows).
  - simpl in *. by rewrite Hf.
Qed.

(** X17. On amounts that are integers whose magnitudes add up to less than
    [2^52], [amountSum] is their sum, without rounding. *)
Theorem amountSum_integers (rows : list Row) (fields : list string) (f : string)
    (zs : list Z) :
  detectedAmount (detected (profile h rows fields)) = Some f →
  amountsOf f rows = ofZ <$> zs →
  (foldr (λ z t, Z.abs z + t) 0 zs < 2 ^ 52)%Z →
  amountSum (profile h rows fields) =
    match zs with
    | [] => None
    | _ => Some (ofZ (foldr Z.add 0%Z zs))
    end.
Proof.
  intros Hf Hzs Hlt. rewrite (amountSum_fold rows fields f Hf), Hzs.
  destruct zs as [|z zs]; [done|].
  change (Some (foldl add (ofZ 0) (ofZ <$> z :: zs))
          = Some (ofZ (foldr Z.add 0%Z (z :: zs)))).
  by rewrite NumSums.sum_ofZ.
Qed.

(** X18. [dateRange] is [null] exactly when no date column is detected or no
    row has a date that parses; otherwise [min] and [max] are dates of
    rows, and every date is between them in the order of strings. *)
Theorem dateRange_bounds (rows : list Row) (fields : list string) (f : string) :
  detectedDate (detected (profile h rows fields)) = Some f →
  match dateRange (profile h rows fields) with
  | None => datesOf f rows = []
  | Some (dateMin, dateMax) =>
      dateMin ∈ datesOf f rows ∧ dateMax ∈ datesOf f rows ∧
      Forall (λ d, sortsBefore dateMin d ∧ sortsBefore d dateMax) (datesOf f rows)
  end.
Proof.
  simpl. intros Hf. rewrite Hf.
  rewrite (detect_nonempty fields dateCandidates f) by (done || compute_done).
  set (dates := datesOf f rows).
  pose proof (merge_sort_Permutation sortsBefore dates) as Hperm.
  pose proof (StronglySorted_merge_sort sortsBefore dates) as Hsorted.
  fold (sort dates) in Hperm, Hsorted.
  destruct (head (sort dates)) as [lo|] eqn:Hlo.
  - destruct (last (sort dates)) as [hi|] eqn:Hhi.
    + assert (lo ∈ dates) as Hlo' by (rewrite <- Hperm; by apply head_Some_elem_of).
      assert (hi ∈ dates) as Hhi' by (rewrite <- Hperm; by apply last_Some_elem_of).
      assert (truthy lo = true) as -> by (by apply list_elem_of_filter in Hlo' as [? _]).
      assert (truthy hi = true) as -> by (by apply list_elem_of_filter in Hhi' as [? _]).
      simpl. split; [done|]. split; [done|].
      rewrite <- Hperm. apply Forall_and. split.
      * by apply StronglySorted_head.
      * by apply StronglySorted_last.
    + apply last_None in Hhi. by rewrite Hhi in Hlo.
  - apply head_None in Hlo. rewrite Hlo in Hperm. by apply Permutation_nil_l in Hperm.
Qed.

Lemma candidate_not_rowId (fields candidates : list string) (f : string) :
  "__rowid" ∉ candidates →
  detect fields (toLowerCase <$> fields) candidates = Some f → f ≠ "__rowId".
Proof.
  intros Hc Hd ->. pose proof (detect_detects fields candidates) as H.
  rewrite Hd in H. destruct H as (i & j & _ & Hj & _).
  apply Hc. by eapply list_elem_of_lookup_2.
Qed.

Lemma prop_absent (r : Row) (f : string) :
  f ≠ "__rowId" → cols r !! f = None → prop r f = VUndefined.
Proof. intros Hf Hc. unfold prop. by rewrite bool_decide_eq_false_2, Hc. Qed.

(** X19. [profile] reads a detected column by the name that [parseCsvBuffer]
    trimmed. When no row has a column of that name, as when the header has
    white space around it, the column is detected and nothing is read of
    it: no duplicates, no sum, no range of dates. *)
Theorem detected_column_absent (rows : list Row) (fields : list string) :
  let p := profile h rows fields in
  (∀ f, detectedId (detected p) = Some f → Forall (λ r, cols r !! f = None) rows →
        duplicates p = 0) ∧
  (∀ f, detectedAmount (detected p) = Some f → Forall (λ r, cols r !! f = None) rows →
        amountSum p = None) ∧
  (∀ f, detectedDate (detected p) = Some f → Forall (λ r, cols r !! f = None) rows →
        dateRange p = None).
Proof.
  intros p. unfold p. repeat split; intros f Hf Hrows.
  - apply (duplicates_NoDup rows fields f Hf).
    assert (f ≠ "__rowId") as Hne
      by (eapply (candidate_not_rowId fields idCandidates); [compute_done|done]).
    clear Hf. induction Hrows as [|r l Hr Hl IH]; [constructor|].
    rewrite fmap_cons, filter_cons_False; [done|]. by rewrite prop_absent.
  - rewrite (amountSum_fold rows fields f Hf).
    assert (f ≠ "__rowId") as Hne
      by (eapply (candidate_not_rowId fields amountCandidates); [compute_done|done]).
    assert (amountsOf f rows = []) as ->; [|done].
    apply amountsOf_nil. eapply Forall_impl; [done|]. intros r Hr. simpl in Hr.
    by rewrite prop_absent.
  - assert (f ≠ "__rowId") as Hne
      by (eapply (candidate_not_rowId fields dateCandidates); [compute_done|done]).
    simpl in *. rewrite Hf.
    rewrite (detect_nonempty fields dateCandidates f) by (done || compute_done).
    assert (omap (λ r : Row, normalizeDate h (prop r f)) rows = []) as ->; [|done].
    clear Hf. induction Hrows as [|r l Hr Hl IH]; [done|].
    cbn [omap list_omap]. rewrite prop_absent by done. done.
Qed.

End Profiles.

(** ** The export *)

Section Exports.

Context (h : Host) (aRows bRows : list Row)
  (mapping : option (gmap string FieldPair)) (mode : Mode) (rules : option Rules).

Local Abbreviation out := (reconcile h aRows bRows mapping mode rules).

Lemma exportRows_status (rs : list Result) (s : string) :
  s ≠ "ALL" → exportRows rs s = filter (λ r, status r = s) rs.
Proof.
  intros Hs. unfold exportRows. apply list_filter_iff. intros r.
  rewrite bool_decide_eq_false_2 by done. by rewrite bool_decide_eq_true.
Qed.

Lemma exportRows_MISMATCH :
  exportRows (results out) "MISMATCH" = [].
Proof.
  rewrite exportRows_status by done.
  pose proof (statuses_emitted h aRows bRows mapping mode rules) as Hall.
  induction Hall as [|r l Hr Hall IH]; [done|].
  rewrite filter_cons_False; [done|]. intros Heq. rewrite Heq in Hr.
  by repeat (apply elem_of_cons in Hr as [Hr|Hr]; [done|]); apply elem_of_nil in Hr.
Qed.

(** X20. What the export keeps of a result of [reconcile]: everything for the
    filter [ALL]; as many records as the summary counts for the filters
    [MATCHED], [MISSING_IN_A] and [MISSING_IN_B]; nothing for the filter
    [MISMATCH], because the records counted under MISMATCH have the status
    ["mismatch"]. *)
Theorem export_by_status :
  let c := counts (summary out) in
  exportRows (results out) "ALL" = results out ∧
  length (exportRows (results out) "MATCHED") = MATCHED c ∧
  length (exportRows (results out) "MISSING_IN_A") = MISSING_IN_A c ∧
  length (exportRows (results out) "MISSING_IN_B") = MISSING_IN_B c ∧
  length (exportRows (results out) "mismatch") = MISMATCH c ∧
  exportRows (results out) "MISMATCH" = [].
Proof.
  intros c. unfold c. repeat split.
  - unfold exportRows. by apply filter_all.
  - rewrite exportRows_status by done.
    symmetry. apply (counters_tally h aRows bRows mapping mode rules K_MATCHED).
  - rewrite exportRows_status by done.
    symmetry. apply (counters_tally h aRows bRows mapping mode rules K_MISSING_IN_A).
  - rewrite exportRows_status by done.
    symmetry. apply (counters_tally h aRows bRows mapping mode rules K_MISSING_IN_B).
  - rewrite exportRows_status by done.
    symmetry. apply (counters_tally h aRows bRows mapping mode rules K_MISMATCH).
  - apply exportRows_MISMATCH.
Qed.

End Exports.

(** ** The routes *)

Section Routes.

Context (h : Host) (Papa_parse : string → PapaResult).



(** X23. An upload of two files that parse creates a session that has no result
    yet: an export of it is refused until a reconciliation is run. The
    other sessions stay. *)
Theorem upload_then_export (sessions : gmap string Session) (bufferA bufferB : string)
    (parsedA parsedB : Parsed) (sessionId : string) (now : Z) (query : option string) :
  parseCsvBuffer h Papa_parse bufferA = Returns parsedA →
  parseCsvBuffer h Papa_parse bufferB = Returns parsedB →
  let r := postSessions h Papa_parse sessions (Some bufferA) (Some bufferB) sessionId now in
  (∃ meta, r.2 = Created sessionId meta ∧
           r.1 !! sessionId = Some {| createdAt := now; dataA := parsedA; dataB := parsedB;
                                      meta := meta; lastRecon := None |}) ∧
  (∀ other, other ≠ sessionId → r.1 !! other = sessions !! other) ∧
  getExport r.1 sessionId query = Failed 404 "Nothing to export. Run reconciliation first.".
Proof.
  intros HA HB r. unfold r, postSessions. rewrite HA, HB. simpl.
  split; [eexists; split; [done|by rewrite lookup_insert_eq]|].
  split; [intros other Hne; by rewrite lookup_insert_ne|].
  unfold getExport. by rewrite lookup_insert_eq.
Qed.

Lemma parseCsvBuffer_wellFormed (buffer : string) (parsed : Parsed) :
  parseCsvBuffer h Papa_parse buffer = Returns parsed →
  rowId <$> rows parsed = seq 1 (length (rows parsed)).
Proof.
  unfold parseCsvBuffer. destruct (errors (Papa_parse buffer)); [|done].
  intros [= <-]. simpl. rewrite rowsOf_ids. unfold rowsOf. by rewrite length_imap.
Qed.

Lemma respond_wellFormed (sessions : gmap string Session) (req : Request) :
  (∀ sessionId s, sessions !! sessionId = Some s → wellFormed h s) →
  ∀ sessionId s, (respond h Papa_parse sessions req).1 !! sessionId = Some s →
                 wellFormed h s.
Proof.
  intros Hall sessionId s.
  destruct req as [fileA fileB sessionId' now|body|sessionId' query]; simpl.
  - unfold postSessions.
    destruct fileA as [bufferA|], fileB as [bufferB|]; try apply Hall.
    destruct (parseCsvBuffer h Papa_parse bufferA) as [parsedA|] eqn:HA; [|apply Hall].
    destruct (parseCsvBuffer h Papa_parse bufferB) as [parsedB|] eqn:HB; [|apply Hall].
    simpl. destruct (decide (sessionId = sessionId')) as [->|Hne].
    + rewrite lookup_insert_eq. intros [= <-]. unfold wellFormed. simpl.
      split; [by eapply parseCsvBuffer_wellFormed|].
      split; [by eapply parseCsvBuffer_wellFormed|]. split; [done|]. by intros recon.
    + rewrite lookup_insert_ne by done. apply Hall.
  - unfold postReconcile. destruct (safeParse body) as [[sessionId' mode]|]; [|apply Hall].
    destruct (sessions !! sessionId') as [s'|] eqn:Hs'; [|apply Hall].
    simpl. destruct (decide (sessionId = sessionId')) as [->|Hne].
    + rewrite lookup_insert_eq. intros [= <-].
      destruct (Hall _ _ Hs') as (HA & HB & Hmeta & _).
      unfold wellFormed. simpl. split; [done|]. split; [done|]. split; [done|].
      intros recon [= <-]. eauto.
    + rewrite lookup_insert_ne by done. apply Hall.
  - apply Hall.
Qed.

(** X24. Whatever requests the server has answered, every session it holds is
    well formed: the rows of each file are numbered from 1, the profiles
    are those of the files, and the last result is a reconciliation of the
    two files. *)
Theorem sessions_well_formed (sessions : gmap string Session) (sessionId : string)
    (s : Session) :
  reachable h Papa_parse sessions → sessions !! sessionId = Some s → wellFormed h s.
Proof.
  intros Hr. revert sessionId s.
  induction Hr as [|sessions req Hr IH _]; [done|].
  by apply respond_wellFormed.
Qed.

(** X25. Whatever requests the server has answered, an export with the filter
    [MISMATCH] has no line. *)
Theorem export_never_has_mismatch (sessions : gmap string Session) (sessionId : string)
    (filename : string) (flat : list Flat) :
  reachable h Papa_parse sessions →
  getExport sessions sessionId (Some "MISMATCH") = Exported filename flat →
  flat = [].
Proof.
  intros Hr. unfold getExport.
  destruct (sessions !! sessionId) as [s|] eqn:Hs; [|done]. simpl.
  destruct (lastRecon s) as [recon|] eqn:Hrecon; [|done]. intros [= _ <-].
  assert (wellFormed h s) as (_ & _ & _ & Hlast).
  { revert Hs. generalize sessionId s.
    induction Hr as [|sessions req Hr IH _]; [done|]. by apply respond_wellFormed. }
  destruct (Hlast recon Hrecon) as (mapping & mode & rules & ->).
  by rewrite exportRows_MISMATCH.
Qed.

End Routes.

(** * Properties of the front end *)

(** ** The chart and the table *)

Lemma filter_iff_in {A} (P Q : A → Prop) `{!∀ x, Decision (P x), !∀ x, Decision (Q x)}
    (l : list A) :
  (∀ x, x ∈ l → P x ↔ Q x) → filter P l = filter Q l.
Proof.
  induction l as [|x l IH]; intros Hl; [done|].
  rewrite !filter_cons. rewrite IH by (intros y Hy; apply Hl; by right).
  destruct (decide (P x)) as [HP|HP], (decide (Q x)) as [HQ|HQ]; try done.
  - destruct HQ. apply Hl; [left|done].
  - destruct HP. apply Hl; [left|done].
Qed.

Section Review.

Context (h : Host) (JSON_stringify : option Row → string).
Context (aRows bRows : list Row)
  (mapping : option (gmap string FieldPair)) (mode : Mode) (rules : option Rules).

Local Abbreviation out := (reconcile h aRows bRows mapping mode rules).

Lemma sumCounts_results : sumCounts (counts (summary out)) = length (results out).
Proof.
  rewrite reconcile_counts, reconcile_results.
  rewrite sumCounts_iter, sumCounts_classes, length_app, !length_fmap.
  unfold sumCounts; simpl. lia.
Qed.

Lemma normalizedStatus_emitted (r : Result) :
  r ∈ results out →
  normalizedStatus r = if bool_decide (status r = "mismatch") then "MISMATCH" else status r.
Proof.
  intros Hr. pose proof (statuses_emitted h aRows bRows mapping mode rules) as Hall.
  rewrite Forall_forall in Hall. specialize (Hall r Hr). unfold normalizedStatus.
  repeat (apply elem_of_cons in Hall as [->|Hall]; [by vm_compute|]).
  by apply elem_of_nil in Hall.
Qed.

Lemma filteredRows_status (f : string) :
  f ≠ "ALL" →
  filteredRows JSON_stringify (Some out) f "" =
    filter (λ r, (if bool_decide (status r = "mismatch") then "MISMATCH" else status r) = f)
      (results out).
Proof.
  intros Hf. unfold filteredRows.
  rewrite (bool_decide_eq_true_2 (f ≠ "ALL")) by done.
  rewrite (bool_decide_eq_false_2 (trim "" ≠ "")) by (intros H; by apply H).
  apply filter_iff_in. intros r Hr. by rewrite normalizedStatus_emitted.
Qed.

(** X26. The slices of the chart are the counters that are not zero, and they
    add up to the number of records. *)
Theorem pie_slices_add_up :
  Forall (λ d, (0 < sliceValue d)%nat) (pieData (Some out)) ∧
  foldr (λ d n, sliceValue d + n) 0 (pieData (Some out)) = length (results out).
Proof.
  split.
  - unfold pieData. apply Forall_forall. by intros d [? _]%list_elem_of_filter.
  -     pose proof sumCounts_results as Hsum.
    unfold sumCounts in Hsum. rewrite <- Hsum. unfold pieData.
    destruct (MATCHED (counts (summary out))) as [|n1],
             (MISMATCH (counts (summary out))) as [|n2],
             (MISSING_IN_A (counts (summary out))) as [|n3],
             (MISSING_IN_B (counts (summary out))) as [|n4];
      rewrite ?filter_cons; simpl; lia.
Qed.

(** X27. With an empty search the table shows, under each filter of the
    application, the records that the summary counts: under [MISMATCH] the
    records with the status ["mismatch"], which the export with that filter
    leaves out, and under the other filters the records that the export
    keeps. *)
Theorem table_rows :
  let rs := results out in
  let table f := filteredRows JSON_stringify (Some out) f "" in
  table "ALL" = rs ∧
  table "MATCHED" = exportRows rs "MATCHED" ∧
  table "MISSING_IN_A" = exportRows rs "MISSING_IN_A" ∧
  table "MISSING_IN_B" = exportRows rs "MISSING_IN_B" ∧
  table "MISMATCH" = exportRows rs "mismatch" ∧
  length (table "MISMATCH") = MISMATCH (counts (summary out)).
Proof.
  assert (∀ f, f ≠ "ALL" → f ≠ "MISMATCH" → f ≠ "mismatch" →
               filteredRows JSON_stringify (Some out) f "" = exportRows (results out) f)
    as Hsame.
  { intros f H1 H2 H3. rewrite filteredRows_status, exportRows_status by done.
    apply list_filter_iff. intros r. case_bool_decide as Hs; [|done].
    split; [done|]. rewrite Hs. by intros <-. }
  assert (filteredRows JSON_stringify (Some out) "MISMATCH" ""
          = exportRows (results out) "mismatch") as Hmis.
  { rewrite filteredRows_status, exportRows_status by done.
    apply filter_iff_in. intros r Hr. case_bool_decide as Hs; [done|].
    split; [|done]. intros Heq.
    pose proof (statuses_emitted h aRows bRows mapping mode rules) as Hall.
    rewrite Forall_forall in Hall. specialize (Hall r Hr). rewrite Heq in Hall.
    by repeat (apply elem_of_cons in Hall as [Hall|Hall]; [done|]);
      apply elem_of_nil in Hall. }
  intros rs table. unfold rs, table.
  split; [done|]. do 3 (split; [by apply Hsame|]). split; [done|].
  rewrite Hmis, exportRows_status by done. symmetry.
  apply (counters_tally h aRows bRows mapping mode rules K_MISMATCH).
Qed.

End Review.

(** ** The payload *)

Section Payload.

Context (h : Host).

Lemma tolerance_number (text : string) :
  Number_ h (nullish (tolerance h text) (VNum zero)) =
    match (if truthy text then StringToNumber h text else zero) with
    | S754_finite s m e => S754_finite s m e
    | _ => zero
    end.
Proof. unfold tolerance. by destruct (if truthy text then _ else _). Qed.

Lemma tolerance_not_NaN (text : string) :
  isNaN (Number_ h (nullish (tolerance h text) (VNum zero))) = false.
Proof. rewrite tolerance_number. by destruct (if truthy text then _ else _). Qed.

Lemma tolerance_zero (text : string) :
  text = "" ∨ isFinite (StringToNumber h text) = false →
  Number_ h (nullish (tolerance h text) (VNum zero)) = zero.
Proof.
  rewrite tolerance_number. intros [->|Hfin]; [done|].
  destruct (truthy text); [|done]. by destruct (StringToNumber h text).
Qed.

(** X28. The tolerances that the application sends are never NaN: a text that
    is empty or is not a finite number arrives as zero or as [null], and
    the engine then requires an exact match. *)
Theorem ui_tolerances (sessionId : option string) (meta : option Meta) (inputs : Inputs) :
  let rules := reqRules (payload h sessionId "custom" meta inputs) in
  isNaN (amountTol h rules) = false ∧
  isNaN (dateTolDays h rules) = false ∧
  (inputAmountTolerance inputs = "" ∨
   isFinite (StringToNumber h (inputAmountTolerance inputs)) = false →
   amountTol h rules = zero ∧ exactAmounts h rules) ∧
  (inputDateToleranceDays inputs = "" ∨
   isFinite (StringToNumber h (inputDateToleranceDays inputs)) = false →
   dateTolDays h rules = zero ∧ exactDates h rules).
Proof.
  intros rules.
  split; [apply tolerance_not_NaN|]. split; [apply tolerance_not_NaN|]. split.
  - intros Htext.
    assert (amountTol h rules = zero) as Hz by by apply tolerance_zero.
    split; [done|]. by apply zero_amountTol_exact.
  - intros Htext.
    assert (dateTolDays h rules = zero) as Hz by by apply tolerance_zero.
    split; [done|]. by apply zero_dateTolDays_exact.
Qed.

Lemma columnOr_candidate (fields candidates : list string) (fallback : string) :
  "" ∉ candidates → toLowerCase fallback ∈ candidates →
  toLowerCase (columnOr (detect fields (toLowerCase <$> fields) candidates) fallback)
    ∈ candidates.
Proof.
  intros Hne Hfb. unfold columnOr.
  destruct (detect fields _ candidates) as [f|] eqn:Hf; [|done].
  rewrite (detect_nonempty fields candidates f Hne Hf).
  pose proof (detect_detects fields candidates) as Hd. rewrite Hf in Hd.
  destruct Hd as (i & j & _ & Hj & _). by eapply list_elem_of_lookup_2.
Qed.

Lemma candidate_nonempty (candidates : list string) (f : string) :
  "" ∉ candidates → toLowerCase f ∈ candidates → truthy f = true.
Proof.
  intros Hne Hf. unfold truthy. rewrite bool_decide_eq_false_2; [done|]. by intros ->.
Qed.

(** X29. With the columns that [profile] detects, the request that the
    application sends in custom mode joins the rows on the amount column
    and the date column of each file, declared as a number and as a date:
    the key of a row has two parts, its amount and its date after
    normalization. *)
Theorem ui_key_columns (rowsA rowsB : list Row) (fieldsA fieldsB : list string)
    (sessionId : option string) (inputs : Inputs) :
  let meta := {| metaA := profile h rowsA fieldsA; metaB := profile h rowsB fieldsB |} in
  let body := payload h sessionId "custom" (Some meta) inputs in
  ∃ amountA dateA amountB dateB,
    fa (amountField (reqMapping body)) = Some amountA ∧
    fb (amountField (reqMapping body)) = Some amountB ∧
    fa (dateField (reqMapping body)) = Some dateA ∧
    fb (dateField (reqMapping body)) = Some dateB ∧
    (reqRules body ≫= compositeKeysA) = Some [amountA; dateA] ∧
    (reqRules body ≫= compositeKeysB) = Some [amountB; dateB] ∧
    fieldType (reqRules body) amountA = Some "number" ∧
    fieldType (reqRules body) amountB = Some "number" ∧
    fieldType (reqRules body) dateA = Some "date" ∧
    fieldType (reqRules body) dateB = Some "date".
Proof.
  intros meta body.
  set (amountA := columnOr (detect fieldsA (toLowerCase <$> fieldsA) amountCandidates) "amount").
  set (amountB := columnOr (detect fieldsB (toLowerCase <$> fieldsB) amountCandidates) "amount").
  set (dateA := columnOr (detect fieldsA (toLowerCase <$> fieldsA) dateCandidates) "date").
  set (dateB := columnOr (detect fieldsB (toLowerCase <$> fieldsB) dateCandidates) "date").
  assert (toLowerCase amountA ∈ amountCandidates) as HaA
    by (apply columnOr_candidate; compute_done).
  assert (toLowerCase amountB ∈ amountCandidates) as HaB
    by (apply columnOr_candidate; compute_done).
  assert (toLowerCase dateA ∈ dateCandidates) as HdA
    by (apply columnOr_candidate; compute_done).
  assert (toLowerCase dateB ∈ dateCandidates) as HdB
    by (apply columnOr_candidate; compute_done).
  assert (∀ x y, toLowerCase x ∈ amountCandidates → toLowerCase y ∈ dateCandidates →
                 x ≠ y) as Hdisj.
  { assert (Forall (λ c, c ∉ dateCandidates) amountCandidates) as Hall by compute_done.
    rewrite Forall_forall in Hall. intros x y Hx Hy ->. by apply (Hall _ Hx). }
  assert (∀ x, toLowerCase x ∈ amountCandidates ∨ toLowerCase x ∈ dateCandidates →
               x ≠ "description") as Hdesc.
  { assert (("description" ∉ amountCandidates) ∧ ("description" ∉ dateCandidates))
      as [H1 H2] by compute_done.
    intros x Hx ->. change (toLowerCase "description") with "description" in Hx.
    by destruct Hx. }
  exists amountA, dateA, amountB, dateB.
  assert (truthy amountA = true ∧ truthy amountB = true ∧
          truthy dateA = true ∧ truthy dateB = true) as (TaA & TaB & TdA & TdB).
  { repeat split; eapply candidate_nonempty; try done; compute_done. }
  assert (reqMapping body =
            Some (<["description" := {| fa := Some "description"; fb := Some "description" |}]>
                 (<["date" := {| fa := Some dateA; fb := Some dateB |}]>
                 (<["amount" := {| fa := Some amountA; fb := Some amountB |}]>
                 (<["id" := {| fa := Some (columnOr (detect fieldsA (toLowerCase <$> fieldsA)
                                                      idCandidates) "transaction_id");
                             fb := Some (columnOr (detect fieldsB (toLowerCase <$> fieldsB)
                                                      idCandidates) "transaction_id") |}]>
                    ∅))))) as Hmapping by done.
  assert (∃ ta td,
            reqRules body =
              Some {| amountTolerance := ta; dateToleranceDays := td;
                      compositeKeysA := Some [amountA; dateA];
                      compositeKeysB := Some [amountB; dateB];
                      fieldTypes :=
                        Some (<["description" := "string"]>
                             (<[dateB := "date"]>
                             (<[amountB := "number"]>
                             (<[dateA := "date"]>
                             (<[amountA := "number"]> ∅))))) |}) as (ta & td & Hrules)
    by (by eexists _, _).
  rewrite Hmapping, Hrules. clear Hmapping Hrules.
  unfold amountField, dateField, pickField, fieldType. cbn [from_option].
  repeat first [rewrite lookup_insert_eq | rewrite lookup_insert_ne by done].
  unfold orName. cbn [fa fb mbind option_bind compositeKeysA compositeKeysB fieldTypes].
  rewrite TaA, TaB, TdA, TdB.
  do 6 (split; [done|]).
  pose proof (Hdesc amountA ltac:(by left)). pose proof (Hdesc amountB ltac:(by left)).
  pose proof (Hdesc dateA ltac:(by right)). pose proof (Hdesc dateB ltac:(by right)).
  pose proof (Hdisj amountA dateA HaA HdA). pose proof (Hdisj amountA dateB HaA HdB).
  pose proof (Hdisj amountB dateA HaB HdA). pose proof (Hdisj amountB dateB HaB HdB).
  repeat split.
  - rewrite (lookup_insert_ne _ "description"), (lookup_insert_ne _ dateB) by done.
    destruct (decide (amountB = amountA)) as [->|Hne]; [by rewrite lookup_insert_eq|].
    rewrite (lookup_insert_ne _ amountB), (lookup_insert_ne _ dateA) by done.
    by rewrite lookup_insert_eq.
  - rewrite (lookup_insert_ne _ "description"), (lookup_insert_ne _ dateB) by done.
    by rewrite lookup_insert_eq.
  - rewrite (lookup_insert_ne _ "description") by done.
    destruct (decide (dateB = dateA)) as [->|Hne]; [by rewrite lookup_insert_eq|].
    rewrite (lookup_insert_ne _ dateB), (lookup_insert_ne _ amountB) by done.
    by rewrite lookup_insert_eq.
  - rewrite (lookup_insert_ne _ "description") by done. by rewrite lookup_insert_eq.
Qed.

End Payload.

(** * The claims on concrete datasets *)

Module Concrete.

Import Examples.

(** C1 fails as stated: with two rows of A that have the ID of one row of
    B, that row of B is the [b] reference of two records. *)
Lemma shared_b_row_counterexample :
  ¬ exactlyOnce twiceA onceB (results (reconcile utc twiceA onceB None Auto None)).
Proof.
  intros [_ Hb]. specialize (Hb onlyB (list_elem_of_here _ _)).
  vm_compute in Hb. discriminate Hb.
Qed.

(** [rows_covered] on three rows of A and four of B. *)
Lemma rows_covered_witness :
  NoDup (rowId <$> dupB) ∧
  omap a (results (reconcile utc someA dupB None Auto None)) = someA ∧
  shown <$> filter (λ r, b r = Some firstB)
                   (results (reconcile utc someA dupB None Auto None))
    = [("MATCHED", "MATCHED", Some 1, Some 1)] ∧
  shown <$> filter (λ r, b r = Some secondB)
                   (results (reconcile utc someA dupB None Auto None))
    = [("MISSING_IN_A", "MISSING_IN_A", None, Some 2)].
Proof.
  assert (NoDup (rowId <$> dupB)) as Hnd by compute_done.
  destruct (rows_covered utc someA dupB None Auto None Hnd) as [Ha Hb].
  split; [exact Hnd|]. split; [exact Ha|]. split.
  - rewrite (Hb firstB) by (by left). by vm_compute.
  - rewrite (Hb secondB) by (right; by left). by vm_compute.
Defined.

(** [duplicate_keys_first_wins] on the two rows of B with the ID [T1] in
    auto mode, and on two rows of B with one composite key in custom mode. *)
Lemma duplicate_keys_first_wins_witness :
  (NoDup (rowId <$> dupB) ∧
   ∃ r, r ∈ results (reconcile utc someA dupB None Auto None) ∧
        b r = Some secondB ∧ status r = "MISSING_IN_A") ∧
  (NoDup (rowId <$> compositeB) ∧
   ∃ r, r ∈ results (reconcile utc compositeA compositeB None Custom typedRules) ∧
        b r = Some laterB ∧ status r = "MISSING_IN_A").
Proof.
  assert (NoDup (rowId <$> dupB)) as Hnd by compute_done.
  assert (keyB utc None Auto None firstB = Some "T1") as Hk1
    by (vm_compute; reflexivity).
  assert (keyB utc None Auto None secondB = Some "T1") as Hk2
    by (vm_compute; reflexivity).
  assert (NoDup (rowId <$> compositeB)) as Hnd' by compute_done.
  assert (keyB utc None Custom typedRules isoRow = Some "1000||2024-01-05") as Hk1'
    by (vm_compute; reflexivity).
  assert (keyB utc None Custom typedRules laterB = Some "1000||2024-01-05") as Hk2'
    by (vm_compute; reflexivity).
  split; (split; [done|]).
  - exact (proj2 (duplicate_keys_first_wins utc someA dupB None Auto None
                    0 1 firstB secondB "T1" Hnd eq_refl eq_refl Nat.lt_0_1 Hk1 Hk2)).
  - exact (proj2 (duplicate_keys_first_wins utc compositeA compositeB None Custom
                    typedRules 0 1 isoRow laterB "1000||2024-01-05" Hnd'
                    eq_refl eq_refl Nat.lt_0_1 Hk1' Hk2')).
Defined.

(** [empty_ids_never_match] on a row of A and a row of B with empty IDs. *)
Lemma empty_ids_never_match_witness :
  NoDup (rowId <$> dupB) ∧
  (∃ r, r ∈ results (reconcile utc someA dupB None Auto None) ∧
        b r = Some blankIdB ∧ a r = None ∧ status r = "MISSING_IN_A") ∧
  (∃ r, results (reconcile utc someA dupB None Auto None) !! 1 = Some r ∧
        a r = Some blankIdA ∧ b r = None ∧ status r = "MISSING_IN_B").
Proof.
  assert (NoDup (rowId <$> dupB)) as Hnd by compute_done.
  assert (stringify utc (prop blankIdA "transaction_id") = "") as HidA
    by (vm_compute; reflexivity).
  assert (stringify utc (prop blankIdB "transaction_id") = "") as HidB
    by (vm_compute; reflexivity).
  assert (blankIdB ∈ dupB) as HB by (do 2 right; left).
  destruct (empty_ids_never_match utc someA dupB None None
              "transaction_id" "transaction_id" Hnd eq_refl eq_refl) as [Hb Ha].
  split; [exact Hnd|]. split.
  - exact (proj1 (proj2 (Hb blankIdB HB HidB))).
  - exact (Ha 1 blankIdA eq_refl HidA).
Defined.

(** C2 on the code: a joined pair whose amounts differ is counted under
    MISMATCH, and its record carries the status ["mismatch"], in lower
    case. *)
Theorem mismatch_status_is_lower_case :
  let out := reconcile utc [amountA] [amountB] None Auto None in
  status <$> results out = ["mismatch"] ∧
  MISMATCH (counts (summary out)) = 1 ∧
  filter (λ r, status r = "MISMATCH") (results out) = [].
Proof. vm_compute. done. Qed.

(** C4 on the code: the reason of a mismatch record is built from the raw
    texts of the columns named [amount] and [date], not from the verdicts
    of the comparators on the mapped columns. With no amount on either
    side the amount comparison fails and the reason is empty; with one
    number written in two ways the amount comparison succeeds and the
    reason names the amount; with the amount column mapped to [amt] the
    amount comparison fails and the reason is empty. *)
Theorem mismatch_reason_ignores_verdicts :
  (amountOk utc None None blankA blankB = false ∧
   mentionsAmount <$> results (reconcile utc [blankA] [blankB] None Auto None)
     = [false] ∧
   shown <$> results (reconcile utc [blankA] [blankB] None Auto None)
     = [("mismatch", "", Some 1, Some 1)]) ∧
  (amountOk utc None None spelledA spelledB = true ∧
   mentionsAmount <$> results (reconcile utc [spelledA] [spelledB] None Auto None)
     = [true] ∧
   shown <$> results (reconcile utc [spelledA] [spelledB] None Auto None)
     = [("mismatch",
         "Amount differs (100 vs 100.00) | Date differs (2024-01-05 vs 2024-01-06)",
         Some 1, Some 1)]) ∧
  (amountOk utc amtMapping None amtA amtB = false ∧
   mentionsAmount <$> results (reconcile utc [amtA] [amtB] amtMapping Auto None)
     = [false] ∧
   shown <$> results (reconcile utc [amtA] [amtB] amtMapping Auto None)
     = [("mismatch", "", Some 1, Some 1)]).
Proof. vm_compute. done. Qed.

(** The particular cases of C6 on a server on UTC: the two spellings of the
    amount and of the day give one key. *)
Lemma spellings_collapse_on_utc :
  buildKey utc isoRow ["amount"; "date"] typedRules = "1000||2024-01-05" ∧
  buildKey utc usRow ["amount"; "date"] typedRules = "1000||2024-01-05".
Proof. vm_compute. done. Qed.

(** On a server [tz] minutes ahead of UTC the text ["01/05/2024"] is
    normalized to the fifth of January when [tz <= 0] and to the fourth
    when [0 < tz]. *)
Lemma us_date_by_zone (tz : Z) :
  (-1440 < tz < 1440)%Z →
  normalizeDate (Node.host tz) (VStr "01/05/2024")
    = Some (if (tz <=? 0)%Z then "2024-01-05" else "2024-01-04").
Proof.
  intros Htz. unfold normalizeDate.
  change (trim (String_ (Node.host tz) (VStr "01/05/2024"))) with "01/05/2024".
  change (DateParse (Node.host tz) "01/05/2024")
    with (Some (19727 * 86400000 - tz * 60000)%Z).
  cbn [truthy negb bool_decide]. simpl negb. cbv iota.
  unfold DateToISOString, Node.host, Node.dateToISOString, Node.msPerDay.
  destruct (Z.leb_spec tz 0).
  - replace ((19727 * 86400000 - tz * 60000) / 86400000)%Z with 19727%Z
      by (apply (Z.div_unique _ _ _ (- tz * 60000)); lia).
    change (Node.civilFromDays 19727) with (2024, 1, 5)%Z. reflexivity.
  - replace ((19727 * 86400000 - tz * 60000) / 86400000)%Z with 19726%Z
      by (apply (Z.div_unique _ _ _ (86400000 - tz * 60000)); lia).
    change (Node.civilFromDays 19726) with (2024, 1, 4)%Z. reflexivity.
Qed.

(** C6 on the code, on a server ahead of UTC: [new Date("01/05/2024")] is
    midnight local time, which [toISOString] prints as the evening of the
    day before, so the two spellings of one day give two keys. *)
Theorem date_key_shifts_ahead_of_utc :
  normalizeDate ist (VStr "2024-01-05") = Some "2024-01-05" ∧
  normalizeDate ist (VStr "01/05/2024") = Some "2024-01-04" ∧
  buildKey ist isoRow ["amount"; "date"] typedRules = "1000||2024-01-05" ∧
  buildKey ist usRow ["amount"; "date"] typedRules = "1000||2024-01-04".
Proof. vm_compute. done. Qed.


(** C7 fails as stated: with the tolerance ["abc"] two equal amounts do not
    compare ok, and two identical rows are a mismatch. *)
Lemma word_tolerance_counterexample :
  ¬ exactAmounts utc wordRules.
Proof.
  intros H.
  specialize (H (VStr "100") (VStr "100") (ofZ 100) (ofZ 100)).
  vm_compute in H. by destruct H as [_ H]; try discriminate (H eq_refl).
Qed.

(** [missing_tolerance_is_zero] on rules without tolerances: two spellings
    of one number, and of one day, compare ok; and on rules whose
    tolerances are the word ["abc"]: equal amounts do not compare ok. *)
Lemma missing_tolerance_is_zero_witness :
  ok (compareAmounts utc bareRules (VStr "100") (VStr "100.00")) = true ∧
  ok (compareDates utc bareRules (VStr "2024-01-05") (VStr "01/05/2024")) = true ∧
  ok (compareAmounts utc wordRules (VStr "100") (VStr "100")) = false.
Proof.
  destruct (missing_tolerance_is_zero utc bareRules) as (Hamount & Hdate & _).
  destruct (missing_tolerance_is_zero utc wordRules) as (_ & _ & Hword & _).
  split; [|split].
  - apply (Hamount (or_introl eq_refl) (VStr "100") (VStr "100.00") (ofZ 100) (ofZ 100));
      by vm_compute.
  - apply (Hdate (or_intror eq_refl) (VStr "2024-01-05") (VStr "01/05/2024")
             "2024-01-05" "2024-01-05" 1704412800000%Z 1704412800000%Z);
      by vm_compute.
  - apply (Hword "abc"); by vm_compute.
Defined.

End Concrete.

(** * The further properties on concrete datasets *)

Module Checks.

Import Examples Cases.

(** [joined_rows_share_key] on the first record of a reconciliation in auto
    mode: the rows with the ID [T1]. *)
Lemma joined_rows_share_key_witness :
  firstB ∈ someA ∧ firstB ∈ dupB ∧
  keyA utc None Auto None firstB ≠ "" ∧
  keyB utc None Auto None firstB = Some (keyA utc None Auto None firstB) ∧
  Some "T1" = Some (keyA utc None Auto None firstB) ∧
  "MATCHED" ∈ ["MATCHED"; "mismatch"].
Proof.
  apply (joined_rows_share_key utc someA dupB None Auto None
           {| status := "MATCHED"; key := Some "T1"; reason := "MATCHED";
              a := Some firstB; b := Some firstB |} firstB firstB).
  - apply (list_elem_of_lookup_2 _ 0). vm_compute. reflexivity.
  - reflexivity.
  - reflexivity.
Defined.

(** [probe_finds_first] on the row of A with the ID [T1], which two rows of
    B have: it is joined to the first. *)
Lemma probe_finds_first_witness :
  ∃ r, results (reconcile utc someA dupB None Auto None) !! 0 = Some r ∧
       a r = Some firstB ∧
       b r = (if truthy (keyA utc None Auto None firstB)
              then snd <$> list_find (λ y, keyB utc None Auto None y
                                           = Some (keyA utc None Auto None firstB)) dupB
              else None) ∧
       (status r = "MISSING_IN_B" ↔ b r = None).
Proof.
  apply (probe_finds_first utc someA dupB None Auto None 0 firstB). reflexivity.
Defined.

(** [no_key_columns_no_join] in custom mode without rules. *)
Lemma no_key_columns_no_join_witness :
  status <$> results (reconcile utc someA dupB None Custom None) =
    ["MISSING_IN_B"; "MISSING_IN_B"; "MISSING_IN_B";
     "MISSING_IN_A"; "MISSING_IN_A"; "MISSING_IN_A"; "MISSING_IN_A"].
Proof.
  rewrite (no_key_columns_no_join utc someA dupB None Custom None); reflexivity.
Defined.

(** [composite_key_never_empty] on two rows whose amount and date are
    blank: in custom mode they are joined under the key ["||"]. *)
Lemma composite_key_never_empty_witness :
  buildKey utc blankKeyA ["amount"; "date"] typedRules = "||" ∧
  ∃ r, results (reconcile utc [blankKeyA] [blankKeyB] None Custom typedRules) !! 0 = Some r ∧
       a r = Some blankKeyA ∧ b r = Some blankKeyB.
Proof.
  destruct (composite_key_never_empty utc [blankKeyA] [blankKeyB] None typedRules 0 blankKeyA)
    as [_ (r & Hr & Ha & Hb)].
  - vm_compute. lia.
  - reflexivity.
  - split; [vm_compute; reflexivity|]. exists r. split; [exact Hr|]. split; [exact Ha|].
    rewrite Hb. vm_compute. reflexivity.
Defined.

(** [auto_mode_reads_tolerances] on two rules objects with an amount
    tolerance of five: in auto mode amounts four apart are MATCHED. *)
Lemma auto_mode_reads_tolerances_witness :
  status <$> results (reconcile utc [closeA] [closeB] None Auto textFive) = ["MATCHED"].
Proof.
  rewrite <- (auto_mode_reads_tolerances utc [closeA] [closeB] None fiveRules textFive).
  - vm_compute. reflexivity.
  - vm_compute. reflexivity.
  - vm_compute. reflexivity.
Defined.

(** [equal_values_match] on a pair whose amount and date are written in two
    ways. *)
Lemma equal_values_match_witness :
  results (reconcile utc [sameA] [sameB] None Auto None) !! 0 =
    Some {| status := "MATCHED"; key := Some (keyA utc None Auto None sameA);
            reason := "MATCHED"; a := Some sameA; b := Some sameB |}.
Proof.
  apply (equal_values_match utc [sameA] [sameB] None Auto None 0 sameA sameB
           (ofZ 1000) "2024-01-05" (19727 * 86400000)).
  all: try (vm_compute; reflexivity).
  all: discriminate.
Defined.

(** [compareDates_whole_days] with a tolerance of three days: dates three
    days apart compare ok. *)
Lemma compareDates_whole_days_witness :
  compareDates utc threeDays (VStr "2024-01-05") (VStr "2024-01-08")
    = {| ok := true; cmpReason := None |}.
Proof.
  apply (compareDates_whole_days utc threeDays (VStr "2024-01-05") (VStr "2024-01-08")
           "2024-01-05" "2024-01-08" 19727 19730 3).
  all: try (vm_compute; reflexivity).
  all: try discriminate.
  all: split; vm_compute; [discriminate|reflexivity].
Defined.

(** [compareAmounts_integers] with a tolerance of five. *)
Lemma compareAmounts_integers_witness :
  ok (compareAmounts utc fiveRules (VStr "100") (VStr "104")) = true.
Proof.
  apply (compareAmounts_integers utc fiveRules (VStr "100") (VStr "104") 100 104 5).
  all: try (vm_compute; reflexivity).
  all: split; vm_compute; [discriminate|reflexivity].
Defined.

(** [parseCsvBuffer_rows] on a file of three lines and an empty line. *)
Lemma parseCsvBuffer_rows_witness :
  rowId <$> rows (parsedOf fileA) = [1; 2; 3] ∧ NoDup (rowId <$> rows (parsedOf fileA)).
Proof.
  pose proof (parseCsvBuffer_rows utc Files.parse fileA ltac:(compute_done)) as H.
  change (parseCsvBuffer utc Files.parse fileA) with (Returns (parsedOf fileA)) in H.
  destruct H as (_ & _ & Hids & Hnd). split; [|exact Hnd].
  rewrite Hids. vm_compute. reflexivity.
Defined.

(** [parseCsvBuffer_fields] on a file whose header has white space around
    a name. *)
Lemma parseCsvBuffer_fields_witness :
  metaFields (Files.parse fileA) = Some ["transaction_id"; "Amount"; " date "] ∧
  fields (parsedOf fileA) = ["transaction_id"; "Amount"; "date"] ∧
  Forall (λ f, f ≠ "" ∧ trim f = f ∧
               ∃ name, name ∈ default [] (metaFields (Files.parse fileA)) ∧ f = trim name)
         (fields (parsedOf fileA)).
Proof.
  split; [vm_compute; reflexivity|]. split; [vm_compute; reflexivity|].
  apply (parseCsvBuffer_fields utc Files.parse fileA (parsedOf fileA)).
  vm_compute. reflexivity.
Defined.

(** [duplicates_counted] on the first file: three rows, two of them with
    the ID [T1] and one with a blank ID. *)
Lemma duplicates_counted_witness :
  duplicates (metaA (meta session)) = 1.
Proof.
  pose proof (duplicates_counted utc (rows (parsedOf fileA)) (fields (parsedOf fileA))
                "transaction_id" ltac:(vm_compute; reflexivity)) as [H _].
  vm_compute in H. vm_compute. lia.
Defined.

(** [unique_ids_all_indexed] on the second file: its second row is held
    under its ID. *)
Lemma unique_ids_all_indexed_witness :
  bIndex utc (rows (parsedOf fileB)) None Auto None !! "T2" = Some secondOfB.
Proof.
  apply (unique_ids_all_indexed utc (rows (parsedOf fileB)) (fields (parsedOf fileB))
           "transaction_id" None None secondOfB).
  - vm_compute. reflexivity.
  - vm_compute. reflexivity.
  - vm_compute. reflexivity.
  - apply (list_elem_of_lookup_2 _ 1). vm_compute. reflexivity.
  - vm_compute. discriminate.
Defined.

(** [amountSum_integers] on the first file: 120, 10 and 7. *)
Lemma amountSum_integers_witness :
  amountSum (metaA (meta session)) = Some (ofZ 137).
Proof.
  apply (amountSum_integers utc (rows (parsedOf fileA)) (fields (parsedOf fileA))
           "Amount" [120; 10; 7]%Z).
  - vm_compute. reflexivity.
  - vm_compute. reflexivity.
  - vm_compute. reflexivity.
Defined.

(** [dateRange_bounds] on the second file. *)
Lemma dateRange_bounds_witness :
  dateRange (metaB (meta session)) = Some ("2024-01-05", "2024-01-08") ∧
  match dateRange (metaB (meta session)) with
  | None => True
  | Some (dateMin, dateMax) => sortsBefore dateMin dateMax
  end.
Proof.
  split; [vm_compute; reflexivity|].
  pose proof (dateRange_bounds utc (rows (parsedOf fileB)) (fields (parsedOf fileB)) "date"
                ltac:(vm_compute; reflexivity)) as H.
  change (profile utc (rows (parsedOf fileB)) (fields (parsedOf fileB)))
    with (metaB (meta session)) in H.
  destruct (dateRange (metaB (meta session))) as [[dateMin dateMax]|]; [|exact I].
  destruct H as (_ & Hmax & Hall).
  rewrite Forall_forall in Hall. exact (proj1 (Hall dateMax Hmax)).
Defined.

(** [detected_column_absent] on the first file, whose header names the
    date column with white space around it: the column is detected, and no
    date is read. *)
Lemma detected_column_absent_witness :
  detectedDate (detected (metaA (meta session))) = Some "date" ∧
  dateRange (metaA (meta session)) = None.
Proof.
  split; [vm_compute; reflexivity|].
  apply (proj2 (proj2 (detected_column_absent utc (rows (parsedOf fileA))
                         (fields (parsedOf fileA)))) "date").
  - vm_compute. reflexivity.
  - compute_done.
Defined.



(** [upload_then_export] on the two files. *)
Lemma upload_then_export_witness :
  getExport uploaded "sess01" (Some "ALL")
    = Failed 404 "Nothing to export. Run reconciliation first.".
Proof.
  destruct (upload_then_export utc Files.parse ∅ fileA fileB (parsedOf fileA)
              (parsedOf fileB) "sess01" 0 (Some "ALL")) as (_ & _ & H).
  - vm_compute. reflexivity.
  - vm_compute. reflexivity.
  - exact H.
Defined.

(** [sessions_well_formed] on the server after the upload and the
    reconciliation. *)
Lemma sessions_well_formed_witness :
  ∃ s, reconciled !! "sess01" = Some s ∧ wellFormed utc s.
Proof.
  destruct (reconciled !! "sess01") as [s|] eqn:Hs; [|vm_compute in Hs; discriminate Hs].
  exists s. split; [reflexivity|].
  apply (sessions_well_formed utc Files.parse reconciled "sess01" s); [|exact Hs].
  apply (reachable_respond utc Files.parse uploaded (PostReconcile autoBody)); [|exact I].
  apply (reachable_respond utc Files.parse ∅ upload); [apply reachable_start|].
  split; compute_done.
Defined.

(** [export_never_has_mismatch] on that server. *)
Lemma export_never_has_mismatch_witness :
  getExport reconciled "sess01" (Some "MISMATCH") = Exported "recon_sess01_MISMATCH.csv" [].
Proof.
  destruct (getExport reconciled "sess01" (Some "MISMATCH")) as [| |filename flat|] eqn:H;
    try (vm_compute in H; discriminate H).
  rewrite (export_never_has_mismatch utc Files.parse reconciled "sess01" filename flat).
  - vm_compute in H. injection H as <- _. reflexivity.
  - apply (reachable_respond utc Files.parse uploaded (PostReconcile autoBody)); [|exact I].
    apply (reachable_respond utc Files.parse ∅ upload); [apply reachable_start|].
    split; compute_done.
  - exact H.
Defined.

(** [ui_tolerances] on a tolerance that is not a number. *)
Lemma ui_tolerances_witness :
  amountTol utc (reqRules (payload utc (Some "sess01") "custom" (Some (meta session))
                             {| inputAmountTolerance := "abc";
                                inputDateToleranceDays := "" |})) = zero.
Proof.
  destruct (ui_tolerances utc (Some "sess01") (Some (meta session))
              {| inputAmountTolerance := "abc"; inputDateToleranceDays := "" |})
    as (_ & _ & H & _).
  apply H. right. vm_compute. reflexivity.
Defined.

End Checks.
